(** * An in-memory filesystem: [fs.memoryfs]

    A shallow embedding of [trunk/fs/memoryfs.py] (classes [MemoryFile],
    [DirEntry] and [MemoryFS]) and the properties of its tree engine.

    Python objects are mutable and shared: a [DirEntry] is referenced from
    its parent's [contents] dictionary, a [MemoryFile] both from the caller
    that opened it and from the [open_files] list of its entry.  The
    embedding therefore keeps two object stores, one per class, indexed by
    references, and every method is a computation over the stores that
    either returns a value or raises an exception, keeping in both cases
    the mutations done so far.

    The methods embedded are those that the tree engine is made of:
    resolution, [makedir], [open], [remove], [removedir], [rename],
    [settimes], [getinfo], [desc], the extended attributes, the call-backs
    of a handle and the methods of [MemoryFile].  Left out are [listdir],
    which hands the names of the children to a method of the base class
    [FS], not part of the sources, and [copy], [move], [copydir] and
    [movedir], which call the methods of that class and then only merge
    extended attributes.  The locking of [@synchronize] has no effect on one
    thread of calls.  [__del__] closes a handle that is not closed: it is
    the method [close]. *)

From Stdlib Require Import ZArith String Ascii Lia.
From Stdlib.Strings Require Import Byte.
From stdpp Require Import base option list gmap strings.

Set Default Proof Using "Type".

(** ** Paths ([fs.path]) *)

Module path.

Definition Name := string.

(** Modelled from the spec: the module [fs.path] ([normpath],
    [iteratepath], [pathsplit]) is imported by [memoryfs.py] but is not
    part of the sources.  The spec gives its contract:
    [normalize(path) -> canonical path], [split(path) -> (parent, name)],
    [components(path) -> ordered sequence of names].  A path is
    represented here by the sequence of names of its canonical form, so
    that the empty sequence stands for the root path (the empty string,
    which is also the one path that Python finds false). *)
Definition Path := list Name.

(** Modelled from the spec: [normalize] is the identity on canonical
    forms. *)
Definition normpath (p : Path) : Path := p.

(** Modelled from the spec: [components(path)]. *)
Definition iteratepath (p : Path) : list Name := normpath p.

(** Modelled from the spec: [split(path) -> (parent, name)], all the
    components but the last, and the last one.  The root path has no
    last component: its parent is the root path and its name the empty
    string, as for [rsplit('/', 1)] on a string without a name. *)
Definition pathsplit (p : Path) : Path * Name :=
  (removelast (normpath p), default EmptyString (last (normpath p))).

End path.
Export path.

(** ** [StringIO] buffers

    The buffer of the Python library: a string and a position.  The module
    imports [StringIO] from [cStringIO] first, where there are two kinds of
    buffer: the one that [StringIO()] makes can be read and written, the
    one that [StringIO(value)] makes can only be read and has no method
    [write].  The field [writable] tells them apart. *)

Definition bytes := list byte.

Record StringIO := mkStringIO {
  buf : bytes;
  pos : nat;
  sio_closed : bool;
  writable : bool
}.

Module StringIO.

(** [StringIO()] *)
Definition new : StringIO := mkStringIO [] 0 false true.

(** [StringIO(value)] *)
Definition of_value (value : bytes) : StringIO := mkStringIO value 0 false false.

Definition getvalue (f : StringIO) : bytes := buf f.

(** [write(s)], of a buffer that has the method: nothing for an empty [s];
    otherwise [s] replaces the bytes from the current position on, after
    padding with NUL up to the position when it lies beyond the end. *)
Definition write (f : StringIO) (s : bytes) : StringIO :=
  match s with
  | [] => f
  | _ =>
      let padded := buf f ++ replicate (pos f - length (buf f)) x00 in
      mkStringIO (take (pos f) padded ++ s ++ drop (pos f + length s) (buf f))
                 (pos f + length s) (sio_closed f) (writable f)
  end.

(** [read(n)]: up to [n] bytes from the position, all of them when [n] is
    negative. *)
Definition read (f : StringIO) (n : Z) : bytes * StringIO :=
  let newpos :=
    if (n <? 0)%Z then length (buf f)
    else Nat.min (pos f + Z.to_nat n) (length (buf f)) in
  (drop (pos f) (take newpos (buf f)),
   mkStringIO (buf f) newpos (sio_closed f) (writable f)).

(** [seek(pos, mode)] *)
Definition seek (f : StringIO) (p : Z) (mode : Z) : StringIO :=
  let p :=
    if (mode =? 1)%Z then (p + Z.of_nat (pos f))%Z
    else if (mode =? 2)%Z then (p + Z.of_nat (length (buf f)))%Z
    else p in
  mkStringIO (buf f) (Z.to_nat (Z.max 0 p)) (sio_closed f) (writable f).

Definition tell (f : StringIO) : nat := pos f.

Definition close (f : StringIO) : StringIO :=
  mkStringIO (buf f) (pos f) true (writable f).

End StringIO.

(** ** The two classes of objects *)

Definition ref := positive.

Inductive entry_type := dir | file.

Global Instance entry_type_eq_dec : EqDecision entry_type.
Proof. solve_decision. Defined.

(** [class DirEntry] *)
Record DirEntry := mkDirEntry {
  type : entry_type;
  name : Name;
  open_files : list ref;
  contents : option (gmap Name ref);
  data : option bytes;
  locks : Z;
  created_time : nat;
  modified_time : nat;
  accessed_time : nat;
  xattrs : gmap string string
}.

(** [class MemoryFile]; the attribute [memory_fs] is the one filesystem of
    the state. *)
Record MemoryFile := mkMemoryFile {
  closed : bool;
  path : Path;
  mode : string;
  mem_file : StringIO
}.

(** [class MemoryFS], with the objects it can reach and a logical clock for
    [datetime.datetime.now()]. *)
Record MemoryFS := mkMemoryFS {
  root : ref;
  entries : gmap ref DirEntry;
  files : gmap ref MemoryFile;
  clock : nat
}.

(** Field assignments. *)

Definition set_name (v : Name) (e : DirEntry) : DirEntry :=
  mkDirEntry (type e) v (open_files e) (contents e) (data e) (locks e)
    (created_time e) (modified_time e) (accessed_time e) (xattrs e).
Definition set_open_files (v : list ref) (e : DirEntry) : DirEntry :=
  mkDirEntry (type e) (name e) v (contents e) (data e) (locks e)
    (created_time e) (modified_time e) (accessed_time e) (xattrs e).
Definition set_contents (v : option (gmap Name ref)) (e : DirEntry) : DirEntry :=
  mkDirEntry (type e) (name e) (open_files e) v (data e) (locks e)
    (created_time e) (modified_time e) (accessed_time e) (xattrs e).
Definition set_data (v : option bytes) (e : DirEntry) : DirEntry :=
  mkDirEntry (type e) (name e) (open_files e) (contents e) v (locks e)
    (created_time e) (modified_time e) (accessed_time e) (xattrs e).
Definition set_locks (v : Z) (e : DirEntry) : DirEntry :=
  mkDirEntry (type e) (name e) (open_files e) (contents e) (data e) v
    (created_time e) (modified_time e) (accessed_time e) (xattrs e).
Definition set_modified_time (v : nat) (e : DirEntry) : DirEntry :=
  mkDirEntry (type e) (name e) (open_files e) (contents e) (data e) (locks e)
    (created_time e) v (accessed_time e) (xattrs e).
Definition set_accessed_time (v : nat) (e : DirEntry) : DirEntry :=
  mkDirEntry (type e) (name e) (open_files e) (contents e) (data e) (locks e)
    (created_time e) (modified_time e) v (xattrs e).
Definition set_xattrs (v : gmap string string) (e : DirEntry) : DirEntry :=
  mkDirEntry (type e) (name e) (open_files e) (contents e) (data e) (locks e)
    (created_time e) (modified_time e) (accessed_time e) v.

Definition set_closed (v : bool) (f : MemoryFile) : MemoryFile :=
  mkMemoryFile v (path f) (mode f) (mem_file f).
Definition set_path (v : Path) (f : MemoryFile) : MemoryFile :=
  mkMemoryFile (closed f) v (mode f) (mem_file f).
Definition set_mem_file (v : StringIO) (f : MemoryFile) : MemoryFile :=
  mkMemoryFile (closed f) (path f) (mode f) v.

Definition set_entries (v : gmap ref DirEntry) (s : MemoryFS) : MemoryFS :=
  mkMemoryFS (root s) v (files s) (clock s).
Definition set_files (v : gmap ref MemoryFile) (s : MemoryFS) : MemoryFS :=
  mkMemoryFS (root s) (entries s) v (clock s).
Definition set_clock (v : nat) (s : MemoryFS) : MemoryFS :=
  mkMemoryFS (root s) (entries s) (files s) v.

(** ** Computations that may raise *)

(** The exceptions of [fs.errors] that [memoryfs.py] raises, the built-in
    ones that its statements can raise, and [DanglingReference] for the use
    of a reference that the stores do not hold, which no Python program
    can do. *)
Inductive exn :=
  | ResourceNotFoundError
  | ResourceInvalidError
  | ResourceLockedError
  | DestinationExistsError
  | ParentDirectoryMissingError
  | DirectoryNotEmptyError
  | PathError
  | KeyError
  | ValueError
  | AttributeError
  | TypeError
  | AssertionError
  | DanglingReference.

Global Instance exn_eq_dec : EqDecision exn.
Proof. solve_decision. Defined.

Inductive result (A : Type) :=
  | Ok (a : A)
  | Raise (e : exn).
Arguments Ok {A} a.
Arguments Raise {A} e.

Definition M (A : Type) : Type := MemoryFS → result A * MemoryFS.

Definition ret {A} (a : A) : M A := λ s, (Ok a, s).
Definition raise {A} (e : exn) : M A := λ s, (Raise e, s).
Definition bind {A B} (m : M A) (k : A → M B) : M B :=
  λ s, match m s with
       | (Ok a, s') => k a s'
       | (Raise e, s') => (Raise e, s')
       end.

Notation "'let*' x := m 'in' k" := (bind m (λ x, k))
  (at level 10, x pattern, m at level 100, k at level 200).
Notation "m ;;; k" := (bind m (λ _, k))
  (at level 100, k at level 200, right associativity).

(** A [for] loop over a Python list. *)
Fixpoint for_each {A} (l : list A) (body : A → M unit) : M unit :=
  match l with
  | [] => ret tt
  | x :: l => body x ;;; for_each l body
  end.

(** Access to the stores. *)

Definition gets {A} (f : MemoryFS → A) : M A := λ s, (Ok (f s), s).

Definition load (r : ref) : M DirEntry :=
  λ s, match entries s !! r with
       | Some e => (Ok e, s)
       | None => (Raise DanglingReference, s)
       end.

Definition update (r : ref) (f : DirEntry → DirEntry) : M unit :=
  let* e := load r in
  λ s, (Ok tt, set_entries (<[r := f e]> (entries s)) s).

Definition alloc (e : DirEntry) : M ref :=
  λ s, let r := fresh (dom (entries s)) in
       (Ok r, set_entries (<[r := e]> (entries s)) s).

Definition load_file (h : ref) : M MemoryFile :=
  λ s, match files s !! h with
       | Some f => (Ok f, s)
       | None => (Raise DanglingReference, s)
       end.

Definition update_file (h : ref) (g : MemoryFile → MemoryFile) : M unit :=
  let* f := load_file h in
  λ s, (Ok tt, set_files (<[h := g f]> (files s)) s).

Definition alloc_file (f : MemoryFile) : M ref :=
  λ s, let h := fresh (dom (files s)) in
       (Ok h, set_files (<[h := f]> (files s)) s).

(** [datetime.datetime.now()] *)
Definition now : M nat :=
  λ s, (Ok (clock s), set_clock (S (clock s)) s).

(** ** [_check_mode] and the membership test on mode strings *)

(** [c in mode] for a one-character string [c]. *)
Fixpoint char_in (c : ascii) (mode : string) : bool :=
  match mode with
  | EmptyString => false
  | String c' mode => if decide (c = c') then true else char_in c mode
  end.

Fixpoint _check_mode (mode mode_chars : string) : bool :=
  match mode_chars with
  | EmptyString => true
  | String c mode_chars =>
      if negb (char_in c mode) then false else _check_mode mode mode_chars
  end.

(** ** [DirEntry] *)

(** [DirEntry.__init__(type, name)], given the time of the call; a
    directory gets an empty [contents], a file has none. *)
Definition DirEntry_init (ty : entry_type) (nm : Name) (t : nat) : DirEntry :=
  {| type := ty;
     name := nm;
     open_files := [];
     contents := match ty with dir => Some ∅ | file => None end;
     data := None;
     locks := 0;
     created_time := t;
     modified_time := t;
     accessed_time := t;
     xattrs := ∅ |}.

Definition isdir (e : DirEntry) : bool := bool_decide (type e = dir).
Definition isfile (e : DirEntry) : bool := bool_decide (type e = file).
Definition islocked (e : DirEntry) : bool := bool_decide (locks e > 0)%Z.

(** [lock] and [unlock], on the object [r]; the assertion of [unlock] is
    checked after the decrement. *)
Definition lock (r : ref) : M unit :=
  update r (λ e, set_locks (locks e + 1) e).

Definition unlock (r : ref) : M unit :=
  update r (λ e, set_locks (locks e - 1) e) ;;;
  let* e := load r in
  if bool_decide (locks e >= 0)%Z then ret tt else raise AssertionError.

(** ** [MemoryFS]: resolution of paths *)

(** The loop of [_get_dir_entry], from the entry [current_dir]: an entry
    without [contents] or without the child resolves to nothing, and so does
    a reference that the store does not hold. *)
Fixpoint walk (es : gmap ref DirEntry) (current_dir : ref)
    (components : list Name) : option ref :=
  match es !! current_dir with
  | None => None
  | Some e =>
      match components with
      | [] => Some current_dir
      | path_component :: components =>
          match contents e with
          | None => None
          | Some m =>
              match m !! path_component with
              | None => None
              | Some dir_entry => walk es dir_entry components
              end
          end
      end
  end.

Definition get_dir_entry (s : MemoryFS) (dirpath : Path) : option ref :=
  walk (entries s) (root s) (iteratepath dirpath).

Definition _get_dir_entry (dirpath : Path) : M (option ref) :=
  gets (λ s, get_dir_entry s dirpath).

Definition _dir_entry (p : Path) : M ref :=
  let* dir_entry := _get_dir_entry p in
  match dir_entry with
  | None => raise ResourceNotFoundError
  | Some r => ret r
  end.

(** The attribute access [dir_entry.attr] of a value that may be [None]. *)
Definition attr_of (dir_entry : option ref) : M ref :=
  match dir_entry with
  | None => raise AttributeError
  | Some r => ret r
  end.

Definition MemoryFS_isdir (p : Path) : M bool :=
  let* dir_item := _get_dir_entry (normpath p) in
  match dir_item with
  | None => ret false
  | Some r => let* e := load r in ret (isdir e)
  end.

Definition MemoryFS_isfile (p : Path) : M bool :=
  let* dir_item := _get_dir_entry (normpath p) in
  match dir_item with
  | None => ret false
  | Some r => let* e := load r in ret (isfile e)
  end.

Definition exists_ (p : Path) : M bool :=
  let* dir_entry := _get_dir_entry p in
  ret (bool_decide (is_Some dir_entry)).

(** [MemoryFS.__init__]: a root directory and nothing else. *)
Definition MemoryFS_init : MemoryFS :=
  {| root := 1%positive;
     entries := {[ 1%positive := DirEntry_init dir "root" 0 ]};
     files := ∅;
     clock := 1 |}.

Definition _make_dir_entry (ty : entry_type) (nm : Name) : M ref :=
  let* t := now in
  alloc (DirEntry_init ty nm t).

Definition _lock_dir_entry (p : Path) : M unit :=
  let* dir_entry := _get_dir_entry p in
  let* r := attr_of dir_entry in
  lock r.

Definition _unlock_dir_entry (p : Path) : M unit :=
  let* dir_entry := _get_dir_entry p in
  let* r := attr_of dir_entry in
  unlock r.

Definition _is_dir_locked (p : Path) : M bool :=
  let* dir_entry := _get_dir_entry p in
  let* r := attr_of dir_entry in
  let* e := load r in
  ret (islocked e).

(** ** [MemoryFS]: what a [MemoryFile] calls back *)

(** [list.remove(x)]: the first occurrence goes, [ValueError] without one. *)
Fixpoint list_remove (x : ref) (l : list ref) : option (list ref) :=
  match l with
  | [] => None
  | y :: l =>
      if decide (x = y) then Some l
      else match list_remove x l with
           | None => None
           | Some l' => Some (y :: l')
           end
  end.

Definition _on_close_memory_file (open_file : ref) (p : Path) (value : bytes)
    : M unit :=
  let* dir_entry := _get_dir_entry p in
  match dir_entry with
  | None => ret tt
  | Some r =>
      update r (set_data (Some value)) ;;;
      let* e := load r in
      match list_remove open_file (open_files e) with
      | None => raise ValueError
      | Some l =>
          update r (set_open_files l) ;;;
          _unlock_dir_entry p
      end
  end.

Definition _on_flush_memory_file (p : Path) (value : bytes) : M unit :=
  let* dir_entry := _get_dir_entry p in
  let* r := attr_of dir_entry in
  update r (set_data (Some value)).

Definition _on_modify_memory_file (p : Path) : M unit :=
  let* dir_entry := _get_dir_entry p in
  let* r := attr_of dir_entry in
  let* t := now in
  update r (set_modified_time t).

(** ** [MemoryFile] *)

(** [MemoryFile.__init__(path, memory_fs, value, mode)] *)
Definition MemoryFile_init (p : Path) (value : option bytes) (md : string)
    : MemoryFile :=
  let value := default [] value in
  let mem_file :=
    if char_in "+" md then
      StringIO.seek (StringIO.write StringIO.new value) 0 0
    else if _check_mode md "wa" then StringIO.write StringIO.new value
    else if _check_mode md "w" then StringIO.new
    else if _check_mode md "ra" then StringIO.write StringIO.new value
    else if _check_mode md "r" then
      StringIO.seek (StringIO.of_value value) 0 0
    else if _check_mode md "a" then StringIO.write StringIO.new value
    else match value with
         | [] => StringIO.new
         | _ => StringIO.of_value value
         end in
  {| closed := false; path := p; mode := md; mem_file := mem_file |}.

(** A method of [mem_file] on the handle [h]: [ValueError] once the buffer is
    closed. *)
Definition with_mem_file {A} (h : ref) (k : StringIO → M A) : M A :=
  let* f := load_file h in
  if sio_closed (mem_file f) then raise ValueError else k (mem_file f).

Definition MemoryFile_flush (h : ref) : M unit :=
  with_mem_file h (λ io,
    let value := StringIO.getvalue io in
    let* f := load_file h in
    _on_flush_memory_file (path f) value).

Definition MemoryFile_close (h : ref) : M unit :=
  let* f := load_file h in
  if negb (closed f) then
    with_mem_file h (λ io,
      let value := StringIO.getvalue io in
      _on_close_memory_file h (path f) value ;;;
      update_file h (λ f, set_mem_file (StringIO.close (mem_file f)) f) ;;;
      update_file h (set_closed true))
  else ret tt.

(** [read(size)], [None] standing for the default. *)
Definition MemoryFile_read (h : ref) (size : option Z) : M bytes :=
  let size := default (-1)%Z size in
  with_mem_file h (λ io,
    let '(r, io') := StringIO.read io size in
    update_file h (set_mem_file io') ;;;
    ret r).

Definition MemoryFile_seek (h : ref) (p : Z) (whence : Z) : M unit :=
  with_mem_file h (λ io, update_file h (set_mem_file (StringIO.seek io p whence))).

Definition MemoryFile_tell (h : ref) : M nat :=
  with_mem_file h (λ io, ret (StringIO.tell io)).

(** [write(data)]: after the call-back, [self.mem_file.write] is looked up,
    which a buffer made from a value does not have, closed or not. *)
Definition MemoryFile_write (h : ref) (d : bytes) : M unit :=
  let* f := load_file h in
  _on_modify_memory_file (path f) ;;;
  let* f := load_file h in
  if writable (mem_file f) then
    with_mem_file h (λ io, update_file h (set_mem_file (StringIO.write io d)))
  else raise AttributeError.

(** ** [MemoryFS]: the operations *)

(** [d.contents] used as a dictionary: a file has [None] there, and the
    statement raises the exception [e] of the operation tried on [None]. *)
Definition contents_of (r : ref) (e : exn) : M (gmap Name ref) :=
  let* d := load r in
  match contents d with
  | None => raise e
  | Some m => ret m
  end.

(** [d.contents[k] = v] *)
Definition contents_set (r : ref) (k : Name) (v : ref) : M unit :=
  let* m := contents_of r TypeError in
  update r (set_contents (Some (<[k := v]> m))).

(** [del d.contents[k]] *)
Definition contents_del (r : ref) (k : Name) : M unit :=
  let* m := contents_of r TypeError in
  match m !! k with
  | None => raise KeyError
  | Some _ => update r (set_contents (Some (delete k m)))
  end.

(** The first loop of the recursive [makedir]: it stops at the first missing
    component and refuses one that is not a directory. *)
Fixpoint makedir_check (components : list Name) (current_dir : ref) : M unit :=
  match components with
  | [] => ret tt
  | path_component :: components =>
      let* m := contents_of current_dir AttributeError in
      match m !! path_component with
      | None => ret tt
      | Some dir_item =>
          let* e := load dir_item in
          if negb (isdir e) then raise ResourceInvalidError
          else makedir_check components dir_item
      end
  end.

(** The second loop: it creates what is missing and returns the last entry. *)
Fixpoint makedir_create (components : list Name) (current_dir : ref) : M ref :=
  match components with
  | [] => ret current_dir
  | path_component :: components =>
      let* m := contents_of current_dir AttributeError in
      match m !! path_component with
      | None =>
          let* new_dir := _make_dir_entry dir path_component in
          contents_set current_dir path_component new_dir ;;;
          makedir_create components new_dir
      | Some dir_item => makedir_create components dir_item
      end
  end.

Definition makedir (dirname : Path) (recursive allow_recreate : bool) : M unit :=
  if bool_decide (dirname = []) then raise PathError else
  let '(dirpath, dirname) := pathsplit dirname in
  let* parent_dir :=
    if recursive then
      let* parent_dir := _get_dir_entry dirpath in
      match parent_dir with
      | Some parent_dir =>
          let* e := load parent_dir in
          if isfile e then raise ResourceInvalidError
          else if negb allow_recreate then
            let* m := contents_of parent_dir TypeError in
            if bool_decide (is_Some (m !! dirname))
            then raise DestinationExistsError else ret tt
          else ret tt
      | None => ret tt
      end ;;;
      let* r := gets root in
      makedir_check (removelast (iteratepath dirpath)) r ;;;
      makedir_create (iteratepath dirpath) r
    else
      let* parent_dir := _get_dir_entry dirpath in
      match parent_dir with
      | None => raise ParentDirectoryMissingError
      | Some parent_dir => ret parent_dir
      end in
  let* m := contents_of parent_dir AttributeError in
  let dir_item := m !! dirname in
  match dir_item with
  | Some r =>
      let* e := load r in
      if isdir e then
        if negb allow_recreate then raise DestinationExistsError else ret tt
      else raise ResourceInvalidError
  | None => ret tt
  end ;;;
  match dir_item with
  | None =>
      let* new_dir := _make_dir_entry dir dirname in
      contents_set parent_dir dirname new_dir
  | Some _ => ret tt
  end.

Definition _orphan_files (file_dir_entry : ref) : M unit :=
  let* e := load file_dir_entry in
  for_each (open_files e) MemoryFile_close.

(** What [open] does once it has the entry of the file: lock, make the
    [MemoryFile] from [value], register it. *)
Definition open_entry (p : Path) (md : string) (file_dir_entry : ref)
    (value : M (option bytes)) : M (option ref) :=
  let* t := now in
  update file_dir_entry (set_accessed_time t) ;;;
  _lock_dir_entry p ;;;
  let* v := value in
  let* mem_file := alloc_file (MemoryFile_init p v md) in
  update file_dir_entry (λ e, set_open_files (open_files e ++ [mem_file]) e) ;;;
  ret (Some mem_file).

(** [open(path, mode)]; the result is [None] when the mode has none of [r],
    [a] and [w], where the method ends without a [return]. *)
Definition open (p : Path) (md : string) : M (option ref) :=
  let '(filepath, filename) := pathsplit p in
  let* parent_dir_entry := _get_dir_entry filepath in
  match parent_dir_entry with
  | None => raise ResourceNotFoundError
  | Some parent_dir_entry =>
      let* pe := load parent_dir_entry in
      if negb (isdir pe) then raise ResourceNotFoundError
      else if char_in "r" md || char_in "a" md then
        let* m := contents_of parent_dir_entry TypeError in
        match m !! filename with
        | None => raise ResourceNotFoundError
        | Some file_dir_entry =>
            (if char_in "a" md then
               let* e := load file_dir_entry in
               if islocked e then raise ResourceLockedError else ret tt
             else ret tt) ;;;
            open_entry p md file_dir_entry
              (let* e := load file_dir_entry in ret (data e))
        end
      else if char_in "w" md then
        let* m := contents_of parent_dir_entry TypeError in
        let* file_dir_entry :=
          match m !! filename with
          | None =>
              let* file_dir_entry := _make_dir_entry file filename in
              contents_set parent_dir_entry filename file_dir_entry ;;;
              ret file_dir_entry
          | Some file_dir_entry => ret file_dir_entry
          end in
        let* e := load file_dir_entry in
        if islocked e then raise ResourceLockedError
        else open_entry p md file_dir_entry (ret None)
      else ret None
  end.

Definition remove (p : Path) : M unit :=
  let* dir_entry := _get_dir_entry p in
  match dir_entry with
  | None => raise ResourceNotFoundError
  | Some dir_entry =>
      let* e := load dir_entry in
      (if islocked e then _orphan_files dir_entry else ret tt) ;;;
      let* e := load dir_entry in
      if isdir e then raise ResourceInvalidError else
      let '(pathname, dirname) := pathsplit p in
      let* parent_dir := _get_dir_entry pathname in
      let* parent_dir := attr_of parent_dir in
      contents_del parent_dir dirname
  end.

(** The truth value of [d.contents]: a dictionary that is not empty. *)
Definition nonempty (c : option (gmap Name ref)) : bool :=
  match c with
  | Some m => negb (bool_decide (m = ∅))
  | None => false
  end.

(** The loop of the recursive [removedir]; [fuel] bounds the number of
    rounds, and the length of the path is enough (see [removedir_loop_fuel]
    below). *)
Fixpoint removedir_loop (fuel : nat) (rpathname : Path) : M unit :=
  match rpathname with
  | [] => ret tt
  | _ =>
      match fuel with
      | 0 => ret tt
      | S fuel =>
          let '(rpathname, dirname) := pathsplit rpathname in
          let* parent_dir := _get_dir_entry rpathname in
          let* parent_dir := attr_of parent_dir in
          contents_del parent_dir dirname ;;;
          removedir_loop fuel rpathname
      end
  end.

Definition removedir (p : Path) (recursive force : bool) : M unit :=
  let* dir_entry := _get_dir_entry p in
  match dir_entry with
  | None => raise ResourceNotFoundError
  | Some dir_entry =>
      let* e := load dir_entry in
      if islocked e then raise ResourceLockedError
      else if negb (isdir e) then raise ResourceInvalidError
      else
        if nonempty (contents e) && negb force
        then raise DirectoryNotEmptyError
        else if recursive then removedir_loop (length p) p
        else
          let '(pathname, dirname) := pathsplit p in
          let* parent_dir := _get_dir_entry pathname in
          let* parent_dir := attr_of parent_dir in
          contents_del parent_dir dirname
  end.

(** The first loop of [rename]: every open file of the source is flushed and
    told its new path. *)
Definition rename_flush (open_files : list ref) (dst : Path) : M unit :=
  for_each open_files (λ f,
    MemoryFile_flush f ;;;
    update_file f (set_path dst)).

Definition rename (src dst : Path) : M unit :=
  let '(src_dir, src_name) := pathsplit src in
  let* src_entry := _get_dir_entry src in
  match src_entry with
  | None => raise ResourceNotFoundError
  | Some src_entry =>
      let* e := load src_entry in
      rename_flush (open_files e) dst ;;;
      let '(dst_dir, dst_name) := pathsplit dst in
      let* dst_entry := _get_dir_entry dst in
      match dst_entry with
      | Some _ => raise DestinationExistsError
      | None =>
          let* src_dir_entry := _get_dir_entry src_dir in
          let* src_dir_entry := attr_of src_dir_entry in
          let* sde := load src_dir_entry in
          let src_xattrs := xattrs sde in
          let* dst_dir_entry := _get_dir_entry dst_dir in
          match dst_dir_entry with
          | None => raise ParentDirectoryMissingError
          | Some dst_dir_entry =>
              let* sm := contents_of src_dir_entry TypeError in
              match sm !! src_name with
              | None => raise KeyError
              | Some moved =>
                  contents_set dst_dir_entry dst_name moved ;;;
                  let* dm := contents_of dst_dir_entry TypeError in
                  match dm !! dst_name with
                  | None => raise KeyError
                  | Some r => update r (set_name dst_name)
                  end ;;;
                  update dst_dir_entry
                    (λ e, set_xattrs (src_xattrs ∪ xattrs e) e) ;;;
                  contents_del src_dir_entry src_name
              end
          end
      end
  end.

(** [settimes], the times being given or [None]. *)
Definition settimes (p : Path) (accessed_time modified_time : option nat)
    : M bool :=
  let* t := now in
  let accessed_time := default t accessed_time in
  let modified_time := default t modified_time in
  let* dir_entry := _get_dir_entry p in
  match dir_entry with
  | Some r =>
      update r (set_accessed_time accessed_time) ;;;
      update r (set_modified_time modified_time) ;;;
      ret true
  | None => ret false
  end.

Definition setxattr (p : Path) (key value : string) : M unit :=
  let* r := _dir_entry p in
  update r (λ e, set_xattrs (<[key := value]> (xattrs e)) e).

Definition getxattr (p : Path) (key : string) (default_ : option string)
    : M (option string) :=
  let* r := _dir_entry p in
  let* e := load r in
  ret (match xattrs e !! key with Some v => Some v | None => default_ end).

Definition delxattr (p : Path) (key : string) : M unit :=
  let* r := _dir_entry p in
  update r (λ e, set_xattrs (delete key (xattrs e)) e).

Definition listxattrs (p : Path) : M (list string) :=
  let* r := _dir_entry p in
  let* e := load r in
  ret (map fst (map_to_list (xattrs e))).

(** The dictionary that [getinfo] returns: the three times and [st_mode],
    and [size] for an entry that is not a directory. *)
Record Info := mkInfo {
  info_created_time : nat;
  info_modified_time : nat;
  info_accessed_time : nat;
  info_st_mode : Z;
  info_size : option nat
}.

(** [getinfo]; [0755] and [0666] are octal numbers. *)
Definition getinfo (p : Path) : M Info :=
  let* dir_entry := _get_dir_entry p in
  match dir_entry with
  | None => raise ResourceNotFoundError
  | Some r =>
      let* e := load r in
      ret (if isdir e
           then mkInfo (created_time e) (modified_time e) (accessed_time e)
                  493 None
           else mkInfo (created_time e) (modified_time e) (accessed_time e)
                  438 (Some (length (default [] (data e)))))
  end.

Definition desc (p : Path) : M string :=
  let* d := MemoryFS_isdir p in
  if d then ret "Memory dir"%string
  else
    let* f := MemoryFS_isfile p in
    if f then ret "Memory file object"%string
    else ret "No description available"%string.

(** * Properties *)

(** ** Paths *)

Lemma pathsplit_snoc (q : Path) (c : Name) : pathsplit (q ++ [c]) = (q, c).
Proof.
  unfold pathsplit, normpath.
  by rewrite removelast_last, last_snoc.
Qed.

Lemma path_snoc (p : Path) :
  p ≠ [] → p = (pathsplit p).1 ++ [(pathsplit p).2].
Proof.
  intros Hp. destruct (exists_last Hp) as (q & c & ->).
  by rewrite pathsplit_snoc.
Qed.

(** ** Running a computation *)

Lemma bind_ok {A B} (m : M A) (k : A → M B) s a s' :
  m s = (Ok a, s') → bind m k s = k a s'.
Proof. unfold bind. by intros ->. Qed.

Lemma bind_raise {A B} (m : M A) (k : A → M B) s e s' :
  m s = (Raise e, s') → bind m k s = (Raise e, s').
Proof. unfold bind. by intros ->. Qed.

Lemma bind_inv {A B} (m : M A) (k : A → M B) s b s' :
  bind m k s = (Ok b, s') → ∃ a s1, m s = (Ok a, s1) ∧ k a s1 = (Ok b, s').
Proof.
  unfold bind. destruct (m s) as [[a|e] s1]; [eauto | discriminate].
Qed.

Lemma load_ok r s e : entries s !! r = Some e → load r s = (Ok e, s).
Proof. unfold load. by intros ->. Qed.

Lemma load_inv r s e s' :
  load r s = (Ok e, s') → s' = s ∧ entries s !! r = Some e.
Proof. unfold load. destruct (entries s !! r); naive_solver. Qed.

Lemma update_ok r f s e :
  entries s !! r = Some e →
  update r f s = (Ok tt, set_entries (<[r := f e]> (entries s)) s).
Proof. intros H. unfold update. by rewrite (bind_ok _ _ _ _ _ (load_ok _ _ _ H)). Qed.

Lemma update_inv r f s s' :
  update r f s = (Ok tt, s') →
  ∃ e, entries s !! r = Some e ∧ s' = set_entries (<[r := f e]> (entries s)) s.
Proof.
  unfold update. intros (e & s1 & H1 & H2)%bind_inv.
  apply load_inv in H1 as [-> H1]. exists e. split; [done | congruence].
Qed.

Lemma load_file_ok h s f : files s !! h = Some f → load_file h s = (Ok f, s).
Proof. unfold load_file. by intros ->. Qed.

Lemma update_file_ok h g s f :
  files s !! h = Some f →
  update_file h g s = (Ok tt, set_files (<[h := g f]> (files s)) s).
Proof.
  intros H. unfold update_file.
  by rewrite (bind_ok _ _ _ _ _ (load_file_ok _ _ _ H)).
Qed.

Lemma with_mem_file_ok {A} h (k : StringIO → M A) s f :
  files s !! h = Some f → sio_closed (mem_file f) = false →
  with_mem_file h k s = k (mem_file f) s.
Proof.
  intros H Hc. unfold with_mem_file.
  rewrite (bind_ok _ _ _ _ _ (load_file_ok _ _ _ H)). by rewrite Hc.
Qed.

(** ** Resolution follows the edges of the store *)

(** The edge named [c] out of the entry [y], when its target is allocated. *)
Definition edge (es : gmap ref DirEntry) (y : ref) (c : Name) : option ref :=
  e ← es !! y; m ← contents e; x ← m !! c;
  if decide (is_Some (es !! x)) then Some x else None.

Lemma walk_nil es r :
  walk es r [] = if decide (is_Some (es !! r)) then Some r else None.
Proof.
  simpl. destruct (es !! r) eqn:E.
  - by rewrite decide_True by eauto.
  - rewrite decide_False; [done|]. by intros [? ?].
Qed.

Lemma walk_cons es r c p :
  walk es r (c :: p) = edge es r c ≫= λ x, walk es x p.
Proof.
  unfold edge. simpl. destruct (es !! r) as [e|]; simpl; [|done].
  destruct (contents e) as [m|]; simpl; [|done].
  destruct (m !! c) as [x|]; simpl; [|done].
  case_decide as H; simpl; [done|].
  destruct p; simpl; destruct (es !! x) eqn:E; try done; destruct H; eauto.
Qed.

Lemma walk_allocated es r p n : walk es r p = Some n → is_Some (es !! n).
Proof.
  revert r. induction p as [|c p IH]; intros r.
  - rewrite walk_nil. case_decide; naive_solver.
  - rewrite walk_cons. destruct (edge es r c); simpl; [apply IH | done].
Qed.

Lemma walk_app es r p q :
  walk es r (p ++ q) = walk es r p ≫= λ x, walk es x q.
Proof.
  revert r. induction p as [|c p IH]; intros r.
  - rewrite walk_nil. simpl app. case_decide as H; simpl; [done|].
    destruct q; simpl; destruct (es !! r) eqn:E; try done; destruct H; eauto.
  - simpl app. rewrite !walk_cons. destruct (edge es r c); simpl; [apply IH | done].
Qed.

Lemma edge_allocated es y c x : edge es y c = Some x → is_Some (es !! x).
Proof.
  unfold edge. destruct (es !! y) as [e|]; simpl; [|done].
  destruct (contents e); simpl; [|done].
  destruct (_ !! c); simpl; [|done]. case_decide; naive_solver.
Qed.

Lemma walk_snoc es r q c :
  walk es r (q ++ [c]) = walk es r q ≫= λ y, edge es y c.
Proof.
  rewrite walk_app. destruct (walk es r q) as [y|]; [|done].
  change (walk es y [c] = edge es y c).
  rewrite walk_cons. destruct (edge es y c) as [x|] eqn:E; [|done].
  change (walk es x [] = Some x). rewrite walk_nil.
  rewrite decide_True; [done|]. by eapply edge_allocated.
Qed.

Lemma edge_Some es y c x :
  edge es y c = Some x ↔
  ∃ e m, es !! y = Some e ∧ contents e = Some m ∧ m !! c = Some x
         ∧ is_Some (es !! x).
Proof.
  unfold edge. split.
  - destruct (es !! y) as [e|]; simpl; [|done].
    destruct (contents e) as [m|] eqn:Em; simpl; [|done].
    destruct (m !! c) as [z|] eqn:E; simpl; [|done].
    case_decide; [|done]. intros [= ->]. by exists e, m.
  - intros (e & m & -> & Hm & Hc & Hx). simpl. rewrite Hm. simpl.
    rewrite Hc. simpl. by rewrite decide_True.
Qed.

(** Resolution is the same in two stores with the same edges. *)
Lemma walk_ext es es' :
  (∀ r, is_Some (es' !! r) ↔ is_Some (es !! r)) →
  (∀ y c, edge es' y c = edge es y c) →
  ∀ p r, walk es' r p = walk es r p.
Proof.
  intros Hdom Hedge. induction p as [|c p IH]; intros r.
  - rewrite !walk_nil. apply decide_ext, Hdom.
  - rewrite !walk_cons, Hedge. destruct (edge es r c); simpl; auto.
Qed.

(** A store with fewer edges resolves fewer paths, to the same entries. *)
Lemma walk_sub es es' :
  (∀ r, is_Some (es' !! r) → is_Some (es !! r)) →
  (∀ y c x, edge es' y c = Some x → edge es y c = Some x) →
  ∀ p r n, walk es' r p = Some n → walk es r p = Some n.
Proof.
  intros Hdom Hedge. induction p as [|c p IH]; intros r n.
  - rewrite !walk_nil. repeat case_decide; intros; eauto; try done; exfalso; eauto.
  - rewrite !walk_cons. destruct (edge es' r c) as [x|] eqn:E; simpl; [|done].
    rewrite (Hedge _ _ _ E). simpl. apply IH.
Qed.

(** When every edge either stays, or goes, or is new, a path that resolved
    resolves to the same entry or not at all. *)
Lemma walk_same_or_fail es es' :
  (∀ r, is_Some (es !! r) → is_Some (es' !! r)) →
  (∀ y c, edge es' y c = edge es y c ∨ edge es' y c = None ∨ edge es y c = None) →
  ∀ p r n, walk es r p = Some n → walk es' r p = Some n ∨ walk es' r p = None.
Proof.
  intros Hdom Hedge. induction p as [|c p IH]; intros r n.
  - rewrite !walk_nil. repeat case_decide; intros; eauto; try done; exfalso; eauto.
  - rewrite !walk_cons. destruct (edge es r c) as [x|] eqn:E; simpl; [|done].
    intros Hw. destruct (Hedge r c) as [H|[H|H]].
    + rewrite H, E. simpl. by apply IH.
    + rewrite H. by right.
    + congruence.
Qed.

(** A path resolves to the same entry when the edges it takes are kept. *)
Lemma walk_along es es' :
  (∀ r, is_Some (es !! r) → is_Some (es' !! r)) →
  ∀ p r n,
    walk es r p = Some n →
    (∀ q y c x, walk es r q = Some y → edge es y c = Some x →
                (q ++ [c]) `prefix_of` p → edge es' y c = Some x) →
    walk es' r p = Some n.
Proof.
  intros Hdom. induction p as [|c p IH]; intros r n.
  - rewrite !walk_nil. repeat case_decide; intros; eauto; try done; exfalso; eauto.
  - rewrite !walk_cons. destruct (edge es r c) as [x|] eqn:E; simpl; [|done].
    intros Hw Hkeep.
    assert (is_Some (es !! r)) as Hr.
    { apply edge_Some in E as (? & ? & -> & _). eauto. }
    rewrite (Hkeep [] r c x).
    + simpl. apply IH; [done|]. intros q y c' x' Hq He Hpre.
      apply (Hkeep (c :: q) y c' x'); [| done |].
      * rewrite walk_cons, E. done.
      * simpl. by apply prefix_cons.
    + rewrite walk_nil. by rewrite decide_True.
    + done.
    + simpl. apply prefix_cons, prefix_nil.
Qed.

(** ** Assignments that keep the tree *)

(** Two versions of an entry with the same type and the same children. *)
Definition same_node (e e' : DirEntry) : Prop :=
  type e' = type e ∧ contents e' = contents e.

Lemma is_Some_insert_same (es : gmap ref DirEntry) n e e' r :
  es !! n = Some e → is_Some (<[n := e']> es !! r) ↔ is_Some (es !! r).
Proof.
  intros Hn. destruct (decide (n = r)) as [->|Hne].
  - rewrite lookup_insert_eq, Hn. split; eauto.
  - by rewrite lookup_insert_ne.
Qed.

Lemma edge_insert_same (es : gmap ref DirEntry) n e e' y c :
  es !! n = Some e → contents e' = contents e →
  edge (<[n := e']> es) y c = edge es y c.
Proof.
  intros Hn Hc. apply option_eq. intros x. rewrite !edge_Some.
  setoid_rewrite (is_Some_insert_same es n e e' x Hn).
  destruct (decide (n = y)) as [->|Hne].
  - rewrite lookup_insert_eq, Hn. split.
    + intros (? & m & [= <-] & ? & ?). exists e, m. by rewrite <- Hc.
    + intros (? & m & [= <-] & ? & ?). exists e', m. by rewrite Hc.
  - by rewrite lookup_insert_ne.
Qed.

Lemma walk_insert_same (es : gmap ref DirEntry) n e e' :
  es !! n = Some e → contents e' = contents e →
  ∀ p r, walk (<[n := e']> es) r p = walk es r p.
Proof.
  intros Hn Hc. apply walk_ext.
  - intros r. by apply is_Some_insert_same with e.
  - intros y c. by apply edge_insert_same with e.
Qed.

(** ** One file and its handles *)

(** The entry [n] is the child named by the last component of [p] in the
    directory that the rest of [p] resolves to; its committed data is [d],
    its lock count [k] and its list of open files [l]. *)
Definition file_state (s : MemoryFS) (p : Path) (n : ref)
    (d : option bytes) (k : Z) (l : list ref) : Prop :=
  ∃ pr pe m e,
    get_dir_entry s (pathsplit p).1 = Some pr ∧
    entries s !! pr = Some pe ∧ type pe = dir ∧ contents pe = Some m ∧
    m !! (pathsplit p).2 = Some n ∧
    entries s !! n = Some e ∧ data e = d ∧ locks e = k ∧ open_files e = l.

Lemma file_state_resolves s p n d k l :
  p ≠ [] → file_state s p n d k l → get_dir_entry s p = Some n.
Proof.
  intros Hp (pr & pe & m & e & Hpr & Hpe & _ & Hm & Hc & He & _).
  unfold get_dir_entry, iteratepath, normpath in *.
  rewrite (path_snoc p Hp) at 1. rewrite walk_snoc, Hpr. simpl.
  apply edge_Some. exists pe, m. eauto.
Qed.

Lemma file_state_entry s p n d k l :
  file_state s p n d k l →
  ∃ e, entries s !! n = Some e ∧ data e = d ∧ locks e = k ∧ open_files e = l.
Proof. intros (pr & pe & m & e & H). exists e. tauto. Qed.

(** An assignment to attributes of [n] other than its type and children. *)
Lemma file_state_update s s' p n d k l e e' :
  file_state s p n d k l →
  entries s !! n = Some e → same_node e e' →
  root s' = root s → entries s' = <[n := e']> (entries s) →
  file_state s' p n (data e') (locks e') (open_files e').
Proof.
  intros (pr & pe & m & e0 & Hpr & Hpe & Hty & Hm & Hc & He & _) Hn [Ht Hcs] Hr Hes.
  destruct (decide (n = pr)) as [->|Hne].
  - exists pr, e', m, e'. unfold get_dir_entry in *.
    rewrite Hes, Hr, (walk_insert_same _ _ _ _ Hn Hcs), lookup_insert_eq.
    assert (pe = e) as -> by congruence.
    rewrite Ht, Hcs. tauto.
  - exists pr, pe, m, e'. unfold get_dir_entry in *.
    rewrite Hes, Hr, (walk_insert_same _ _ _ _ Hn Hcs), lookup_insert_eq.
    rewrite lookup_insert_ne by done. tauto.
Qed.

(** Nothing but the root and the entries matters. *)
Lemma file_state_frame s s' p n d k l :
  file_state s p n d k l →
  root s' = root s → entries s' = entries s →
  file_state s' p n d k l.
Proof.
  unfold file_state, get_dir_entry. intros H -> ->. exact H.
Qed.

(** ** Weakest preconditions *)

(** [wp m Q E s]: run from [s], the computation [m] either returns [a] in a
    state [s'] with [Q a s'], or raises [e] in a state [s'] with [E e s']. *)
Definition wp {A} (m : M A) (Q : A → MemoryFS → Prop)
    (E : exn → MemoryFS → Prop) (s : MemoryFS) : Prop :=
  match m s with
  | (Ok a, s') => Q a s'
  | (Raise e, s') => E e s'
  end.
Global Arguments wp : simpl never.

(** The two postconditions used below: [m] does not raise, and nothing is
    asked of [m] when it raises. *)
Definition no_exn : exn → MemoryFS → Prop := λ _ _, False.
Definition any_exn : exn → MemoryFS → Prop := λ _ _, True.

Lemma wp_returns {A} (m : M A) Q s :
  wp m Q no_exn s ↔ ∃ a s', m s = (Ok a, s') ∧ Q a s'.
Proof.
  unfold wp, no_exn. destruct (m s) as [[a|e] s']; split.
  - eauto.
  - by intros (? & ? & [= <- <-] & ?).
  - done.
  - by intros (? & ? & [=] & ?).
Qed.

Lemma wp_returns_unit (m : M unit) (Q : MemoryFS → Prop) s :
  wp m (λ _, Q) no_exn s → ∃ s', m s = (Ok tt, s') ∧ Q s'.
Proof. intros ([] & s' & H)%wp_returns. by exists s'. Qed.

Lemma wp_raises {A} (m : M A) (P : exn → MemoryFS → Prop) s :
  wp m (λ _ _, False) P s ↔ ∃ e s', m s = (Raise e, s') ∧ P e s'.
Proof.
  unfold wp. destruct (m s) as [[a|e] s']; split.
  - done.
  - by intros (? & ? & [=] & ?).
  - eauto.
  - by intros (? & ? & [= <- <-] & ?).
Qed.

Lemma wp_returned {A} (m : M A) Q s a s' :
  wp m Q any_exn s → m s = (Ok a, s') → Q a s'.
Proof. unfold wp. intros H Hm. by rewrite Hm in H. Qed.

Lemma wp_conseq {A} (m : M A) (Q Q' : A → MemoryFS → Prop) (E E' : exn → MemoryFS → Prop) s :
  wp m Q E s →
  (∀ a s', Q a s' → Q' a s') → (∀ e s', E e s' → E' e s') →
  wp m Q' E' s.
Proof. unfold wp. destruct (m s) as [[a|e] s']; eauto. Qed.

Lemma wp_ret {A} (a : A) Q E s : Q a s → wp (ret a) Q E s.
Proof. done. Qed.

Lemma wp_raise {A} e (Q : A → MemoryFS → Prop) E s : E e s → wp (raise e) Q E s.
Proof. done. Qed.

Lemma wp_bind {A B} (m : M A) (k : A → M B) Q E s :
  wp m (λ a s', wp (k a) Q E s') E s → wp (bind m k) Q E s.
Proof. unfold wp, bind. by destruct (m s) as [[a|e] s']. Qed.

Lemma wp_gets {A} (f : MemoryFS → A) Q E s : Q (f s) s → wp (gets f) Q E s.
Proof. done. Qed.

Lemma wp_now Q E s : Q (clock s) (set_clock (S (clock s)) s) → wp now Q E s.
Proof. done. Qed.

Lemma wp_load r Q E s e :
  entries s !! r = Some e → Q e s → wp (load r) Q E s.
Proof. unfold wp, load. by intros ->. Qed.

Lemma wp_update r f Q E s e :
  entries s !! r = Some e →
  Q tt (set_entries (<[r := f e]> (entries s)) s) →
  wp (update r f) Q E s.
Proof. intros H HQ. unfold wp. by rewrite (update_ok _ _ _ _ H). Qed.

Lemma wp_alloc e Q E s :
  Q (fresh (dom (entries s)))
    (set_entries (<[fresh (dom (entries s)) := e]> (entries s)) s) →
  wp (alloc e) Q E s.
Proof. done. Qed.

Lemma wp_load_file h Q E s f :
  files s !! h = Some f → Q f s → wp (load_file h) Q E s.
Proof. unfold wp, load_file. by intros ->. Qed.

Lemma wp_update_file h g Q E s f :
  files s !! h = Some f →
  Q tt (set_files (<[h := g f]> (files s)) s) →
  wp (update_file h g) Q E s.
Proof. intros H HQ. unfold wp. by rewrite (update_file_ok _ _ _ _ H). Qed.

Lemma wp_alloc_file f Q E s :
  Q (fresh (dom (files s)))
    (set_files (<[fresh (dom (files s)) := f]> (files s)) s) →
  wp (alloc_file f) Q E s.
Proof. done. Qed.

Lemma wp_with_mem_file {A} h (k : StringIO → M A) Q E s f :
  files s !! h = Some f → sio_closed (mem_file f) = false →
  wp (k (mem_file f)) Q E s →
  wp (with_mem_file h k) Q E s.
Proof. intros H Hc. unfold wp. by rewrite (with_mem_file_ok _ _ _ _ H Hc). Qed.

Lemma wp_get_dir_entry p Q E s :
  Q (get_dir_entry s p) s → wp (_get_dir_entry p) Q E s.
Proof. done. Qed.

(** The rule of [for] loops: [I] holds of what is left of the list. *)
Lemma wp_for_each {A} (body : A → M unit) (I : list A → MemoryFS → Prop) E l s :
  I l s →
  (∀ x l' s', I (x :: l') s' → wp (body x) (λ _ s'', I l' s'') E s') →
  wp (for_each l body) (λ _ s', I [] s') E s.
Proof.
  intros HI Hbody. revert s HI. induction l as [|x l IH]; intros s HI.
  - by apply wp_ret.
  - simpl. apply wp_bind. eapply wp_conseq; [by apply Hbody | | done].
    intros [] s' HI'. by apply IH.
Qed.

(** ** Modes *)

(** A mode with [w] and none of [r], [a], [+]; one with [r] only; one with
    [a] only. *)
Definition write_mode (md : string) : bool :=
  char_in "w" md && negb (char_in "r" md) && negb (char_in "a" md)
  && negb (char_in "+" md).
Definition read_mode (md : string) : bool :=
  char_in "r" md && negb (char_in "w" md) && negb (char_in "a" md)
  && negb (char_in "+" md).

Lemma write_mode_chars md :
  write_mode md = true →
  char_in "w" md = true ∧ char_in "r" md = false ∧ char_in "a" md = false
  ∧ char_in "+" md = false.
Proof.
  unfold write_mode. rewrite !andb_true_iff, !negb_true_iff. tauto.
Qed.

Lemma read_mode_chars md :
  read_mode md = true →
  char_in "r" md = true ∧ char_in "w" md = false ∧ char_in "a" md = false
  ∧ char_in "+" md = false.
Proof.
  unfold read_mode. rewrite !andb_true_iff, !negb_true_iff. tauto.
Qed.


Lemma MemoryFile_init_write p v md :
  write_mode md = true →
  MemoryFile_init p v md = mkMemoryFile false p md StringIO.new.
Proof.
  intros (Hw & Hr & Ha & Hp)%write_mode_chars.
  unfold MemoryFile_init. simpl. by rewrite Hp, Hw, Ha.
Qed.

Lemma MemoryFile_init_read p v md :
  read_mode md = true →
  MemoryFile_init p v md
  = mkMemoryFile false p md (mkStringIO (default [] v) 0 false false).
Proof.
  intros (Hr & Hw & Ha & Hp)%read_mode_chars.
  unfold MemoryFile_init. simpl. by rewrite Hp, Hw, Hr, Ha.
Qed.


(** ** [open], [write], [close], [read] on one file *)

Lemma wp_open_entry s p md n d k l (value : M (option bytes)) v :
  p ≠ [] → file_state s p n d k l →
  (∀ s0, file_state s0 p n d (k + 1) l →
         wp value (λ a s1, a = v ∧ s1 = s0) no_exn s0) →
  wp (open_entry p md n value)
     (λ oh s', ∃ h, oh = Some h ∧ file_state s' p n d (k + 1) (l ++ [h])
                    ∧ files s' !! h = Some (MemoryFile_init p v md))
     no_exn s.
Proof.
  intros Hp Hfs Hval. unfold open_entry.
  destruct (file_state_entry _ _ _ _ _ _ Hfs) as (e & He & Hd & Hk & Hl).
  apply wp_bind, wp_now. set (s1 := set_clock _ s).
  assert (file_state s1 p n d k l) as Hfs1 by (eapply file_state_frame; done).
  apply wp_bind. eapply wp_update; [exact He|]. set (s2 := set_entries _ s1).
  assert (file_state s2 p n d k l) as Hfs2.
  { subst d k l.
    by eapply (file_state_update s1 s2 p n _ _ _ e (set_accessed_time _ e)). }
  destruct (file_state_entry _ _ _ _ _ _ Hfs2) as (e2 & He2 & Hd2 & Hk2 & Hl2).
  apply wp_bind. unfold _lock_dir_entry.
  apply wp_bind, wp_get_dir_entry. rewrite (file_state_resolves _ _ _ _ _ _ Hp Hfs2).
  apply wp_bind, wp_ret. unfold lock.
  eapply wp_update; [exact He2|]. set (s3 := set_entries _ s2).
  assert (file_state s3 p n d (k + 1) l) as Hfs3.
  { rewrite <- Hd2, <- Hk2, <- Hl2.
    by eapply (file_state_update s2 s3 p n _ _ _ e2 (set_locks _ e2)). }
  destruct (file_state_entry _ _ _ _ _ _ Hfs3) as (e3 & He3 & Hd3 & Hk3 & Hl3).
  apply wp_bind. eapply wp_conseq; [by apply Hval | | done].
  intros a ? [-> ->]. simpl.
  apply wp_bind, wp_alloc_file. set (h := fresh _). set (s4 := set_files _ s3).
  apply wp_bind. eapply wp_update; [exact He3|]. set (s5 := set_entries _ s4).
  apply wp_ret. exists h. split; [done|]. split.
  - rewrite <- Hd3, <- Hk3, <- Hl3.
    by eapply (file_state_update s3 s5 p n _ _ _ e3 (set_open_files _ e3)).
  - simpl. apply lookup_insert_eq.
Qed.

(** [open] in a mode with [r] or [a] on an existing entry. *)
Lemma wp_open_existing s p md n d k l :
  p ≠ [] → file_state s p n d k l →
  char_in "r" md || char_in "a" md = true →
  (char_in "a" md = true → ¬ (k > 0)%Z) →
  wp (open p md)
     (λ oh s', ∃ h, oh = Some h ∧ file_state s' p n d (k + 1) (l ++ [h])
                    ∧ files s' !! h = Some (MemoryFile_init p d md))
     no_exn s.
Proof.
  intros Hp Hfs Hmd Hlock. unfold open.
  destruct (pathsplit p) as [filepath filename] eqn:Hsplit.
  pose proof Hfs as (pr & pe & m & e & Hpr & Hpe & Hty & Hm & Hc & He & Hd & Hk & Hl).
  rewrite Hsplit in Hpr, Hc. simpl in Hpr, Hc.
  apply wp_bind, wp_get_dir_entry. rewrite Hpr.
  apply wp_bind. eapply wp_load; [exact Hpe|].
  unfold isdir. rewrite bool_decide_eq_true_2 by done. simpl. rewrite Hmd.
  apply wp_bind. unfold contents_of. apply wp_bind. eapply wp_load; [exact Hpe|].
  rewrite Hm. apply wp_ret. rewrite Hc.
  apply wp_bind.
  assert (wp (if char_in "a" md
              then let* e := load n in
                   if islocked e then raise ResourceLockedError else ret tt
              else ret tt) (λ _ s', s' = s) no_exn s) as Hcheck.
  { destruct (char_in "a" md) eqn:Ha; [|by apply wp_ret].
    apply wp_bind. eapply wp_load; [exact He|].
    unfold islocked. rewrite bool_decide_eq_false_2; [by apply wp_ret|].
    rewrite Hk. by apply Hlock. }
  eapply wp_conseq; [exact Hcheck | | done]. intros [] ? ->.
  apply wp_open_entry; [done..|].
  intros s0 Hs0. destruct (file_state_entry _ _ _ _ _ _ Hs0) as (e0 & He0 & Hd0 & _).
  apply wp_bind. eapply wp_load; [exact He0|]. by apply wp_ret.
Qed.

(** [open] in a mode with [w] and without [r] and [a], on an existing entry
    that is not locked. *)
Lemma wp_open_truncate s p md n d k l :
  p ≠ [] → file_state s p n d k l →
  char_in "r" md || char_in "a" md = false → char_in "w" md = true →
  ¬ (k > 0)%Z →
  wp (open p md)
     (λ oh s', ∃ h, oh = Some h ∧ file_state s' p n d (k + 1) (l ++ [h])
                    ∧ files s' !! h = Some (MemoryFile_init p None md))
     no_exn s.
Proof.
  intros Hp Hfs Hmd Hw Hlock. unfold open.
  destruct (pathsplit p) as [filepath filename] eqn:Hsplit.
  pose proof Hfs as (pr & pe & m & e & Hpr & Hpe & Hty & Hm & Hc & He & Hd & Hk & Hl).
  rewrite Hsplit in Hpr, Hc. simpl in Hpr, Hc.
  apply wp_bind, wp_get_dir_entry. rewrite Hpr.
  apply wp_bind. eapply wp_load; [exact Hpe|].
  unfold isdir. rewrite bool_decide_eq_true_2 by done. simpl. rewrite Hmd, Hw.
  apply wp_bind. unfold contents_of. apply wp_bind. eapply wp_load; [exact Hpe|].
  rewrite Hm. apply wp_ret. rewrite Hc.
  apply wp_bind, wp_ret. apply wp_bind. eapply wp_load; [exact He|].
  unfold islocked. rewrite bool_decide_eq_false_2 by (by rewrite Hk).
  apply wp_open_entry; [done..|].
  intros s0 _. by apply wp_ret.
Qed.

(** A store with more entries and more edges resolves more paths. *)
Lemma walk_mono es es' :
  (∀ r, is_Some (es !! r) → is_Some (es' !! r)) →
  (∀ y c x, edge es y c = Some x → edge es' y c = Some x) →
  ∀ p r n, walk es r p = Some n → walk es' r p = Some n.
Proof.
  intros Hdom Hedge p r n Hw. apply (walk_along es es' Hdom p r n Hw).
  intros q y c x _ He _. by apply Hedge.
Qed.

(** The state of a file just made: a new entry [e0], entered in its
    directory under the last component of [p]. *)
Lemma file_state_created s s' p pr pe m e0 :
  get_dir_entry s (pathsplit p).1 = Some pr →
  entries s !! pr = Some pe → type pe = dir → contents pe = Some m →
  m !! (pathsplit p).2 = None →
  root s' = root s →
  entries s' =
    <[pr := set_contents
              (Some (<[(pathsplit p).2 := fresh (dom (entries s))]> m)) pe]>
      (<[fresh (dom (entries s)) := e0]> (entries s)) →
  file_state s' p (fresh (dom (entries s)))
    (data e0) (locks e0) (open_files e0).
Proof.
  intros Hpr Hpe Hty Hm Hc Hroot Hes. unfold file_state.
  destruct (pathsplit p) as [filepath filename]. simpl in *.
  set (n := fresh (dom (entries s))) in *.
  set (pe' := set_contents (Some (<[filename := n]> m)) pe) in *.
  assert (entries s !! n = None) as Hfresh.
  { apply not_elem_of_dom. apply is_fresh. }
  assert (n ≠ pr) as Hne by congruence.
  assert (∀ x, is_Some (entries s !! x) → is_Some (entries s' !! x)) as Hdom.
  { intros x Hx. rewrite Hes.
    destruct (decide (pr = x)) as [->|]; [rewrite lookup_insert_eq; eauto|].
    rewrite lookup_insert_ne by done.
    destruct (decide (n = x)) as [->|]; [rewrite lookup_insert_eq; eauto|].
    by rewrite lookup_insert_ne. }
  exists pr, pe', (<[filename := n]> m), e0. split_and!; try done.
  - unfold get_dir_entry in *. rewrite Hroot.
    eapply walk_mono; [exact Hdom | | exact Hpr].
    intros y c x (ey & my & Hy & Hmy & Hcy & Hx)%edge_Some.
    apply edge_Some. apply Hdom in Hx. rewrite Hes.
    destruct (decide (pr = y)) as [->|Hy'].
    + rewrite lookup_insert_eq. exists pe', (<[filename := n]> m).
      rewrite <- Hes. split_and!; try done.
      assert (my = m) as -> by congruence.
      rewrite lookup_insert_ne; [done|]. congruence.
    + rewrite lookup_insert_ne by done.
      rewrite lookup_insert_ne by congruence. rewrite <- Hes. eauto 10.
  - rewrite Hes. apply lookup_insert_eq.
  - apply lookup_insert_eq.
  - rewrite Hes, lookup_insert_ne, lookup_insert_eq; done.
Qed.

(** [open] in a mode with [w] and without [r] and [a], where the directory
    has no child of that name: the file is created. *)
Lemma wp_open_create s p md pr pe m :
  p ≠ [] →
  get_dir_entry s (pathsplit p).1 = Some pr →
  entries s !! pr = Some pe → type pe = dir → contents pe = Some m →
  m !! (pathsplit p).2 = None →
  char_in "r" md || char_in "a" md = false → char_in "w" md = true →
  wp (open p md)
     (λ oh s', ∃ h n, oh = Some h ∧ file_state s' p n None 1 [h]
                      ∧ files s' !! h = Some (MemoryFile_init p None md))
     no_exn s.
Proof.
  intros Hp Hpr Hpe Hty Hm Hc Hmd Hw.
  pose proof (λ s' e0, file_state_created s s' p pr pe m e0 Hpr Hpe Hty Hm Hc)
    as Hcreated.
  unfold open.
  destruct (pathsplit p) as [filepath filename] eqn:Hsplit. simpl in *.
  apply wp_bind, wp_get_dir_entry. rewrite Hpr.
  apply wp_bind. eapply wp_load; [exact Hpe|].
  unfold isdir. rewrite bool_decide_eq_true_2 by done. simpl. rewrite Hmd, Hw.
  apply wp_bind. unfold contents_of. apply wp_bind. eapply wp_load; [exact Hpe|].
  rewrite Hm. apply wp_ret. rewrite Hc.
  apply wp_bind, wp_bind. unfold _make_dir_entry.
  apply wp_bind, wp_now. set (s1 := set_clock _ s).
  apply wp_alloc. set (n := fresh _). set (s2 := set_entries _ s1).
  assert (entries s !! n = None) as Hfresh.
  { apply not_elem_of_dom. apply is_fresh. }
  assert (n ≠ pr) as Hne by congruence.
  apply wp_bind. unfold contents_set. apply wp_bind. unfold contents_of.
  apply wp_bind. eapply wp_load.
  { simpl. rewrite lookup_insert_ne by done. exact Hpe. }
  rewrite Hm. apply wp_ret. eapply wp_update.
  { simpl. rewrite lookup_insert_ne by done. exact Hpe. }
  set (s3 := set_entries _ s2). apply wp_ret.
  set (e0 := DirEntry_init file filename (clock s)).
  assert (file_state s3 p n None 0 []) as Hfs3.
  { by apply (Hcreated s3 e0). }
  apply wp_bind. eapply wp_load.
  { simpl. rewrite lookup_insert_ne by done. apply lookup_insert_eq. }
  simpl.
  eapply wp_conseq; [apply (wp_open_entry s3 p md n None 0 [] (ret None) None) | | done].
  - done.
  - done.
  - intros s0 _. by apply wp_ret.
  - intros oh s' (h & -> & Hfs & Hh). by exists h, n.
Qed.

(** The exact effect of the methods of a handle whose path resolves. *)

Lemma wp_write_at s h f n e b :
  files s !! h = Some f → sio_closed (mem_file f) = false →
  writable (mem_file f) = true →
  get_dir_entry s (path f) = Some n → entries s !! n = Some e →
  wp (MemoryFile_write h b)
     (λ _ s', s' = mkMemoryFS (root s)
                     (<[n := set_modified_time (clock s) e]> (entries s))
                     (<[h := set_mem_file (StringIO.write (mem_file f) b) f]> (files s))
                     (S (clock s)))
     no_exn s.
Proof.
  intros Hf Hc Hw Hn He. unfold MemoryFile_write.
  apply wp_bind. eapply wp_load_file; [exact Hf|].
  apply wp_bind. unfold _on_modify_memory_file.
  apply wp_bind, wp_get_dir_entry. rewrite Hn. apply wp_bind, wp_ret.
  apply wp_bind, wp_now. eapply wp_update; [exact He|].
  apply wp_bind. eapply wp_load_file; [exact Hf|]. rewrite Hw.
  eapply wp_with_mem_file; [exact Hf | exact Hc |].
  eapply wp_update_file; [exact Hf|]. done.
Qed.

Lemma wp_flush_at s h f n e :
  files s !! h = Some f → sio_closed (mem_file f) = false →
  get_dir_entry s (path f) = Some n → entries s !! n = Some e →
  wp (MemoryFile_flush h)
     (λ _ s', s' = set_entries
                     (<[n := set_data (Some (buf (mem_file f))) e]> (entries s)) s)
     no_exn s.
Proof.
  intros Hf Hc Hn He. unfold MemoryFile_flush.
  eapply wp_with_mem_file; [exact Hf | exact Hc |].
  apply wp_bind. eapply wp_load_file; [exact Hf|].
  unfold _on_flush_memory_file.
  apply wp_bind, wp_get_dir_entry. rewrite Hn. apply wp_bind, wp_ret.
  eapply wp_update; [exact He|]. done.
Qed.

Lemma list_remove_length h l l' :
  list_remove h l = Some l' → length l = S (length l').
Proof.
  revert l'. induction l as [|y l IH]; intros l'; simpl; [done|].
  case_decide; [by intros [= ->]|].
  destruct (list_remove h l) as [l0|]; [|done].
  intros [= <-]. simpl. by rewrite (IH l0).
Qed.

Lemma list_remove_elem h l : h ∈ l → is_Some (list_remove h l).
Proof.
  induction l as [|y l IH]; simpl; [by intros ?%elem_of_nil|].
  intros [->|Hin]%elem_of_cons; case_decide; eauto; try done.
  destruct (IH Hin) as [l' ->]. eauto.
Qed.

Lemma wp_close_at s h f n e l' :
  files s !! h = Some f → closed f = false → sio_closed (mem_file f) = false →
  get_dir_entry s (path f) = Some n → entries s !! n = Some e →
  list_remove h (open_files e) = Some l' → (1 ≤ locks e)%Z →
  wp (MemoryFile_close h)
     (λ _ s', s' = mkMemoryFS (root s)
                     (<[n := set_locks (locks e - 1)
                               (set_open_files l'
                                  (set_data (Some (buf (mem_file f))) e))]>
                        (entries s))
                     (<[h := set_closed true
                               (set_mem_file (StringIO.close (mem_file f)) f)]>
                        (files s))
                     (clock s))
     no_exn s.
Proof.
  intros Hf Hcl Hc Hn He Hrm Hk. unfold MemoryFile_close.
  apply wp_bind. eapply wp_load_file; [exact Hf|]. rewrite Hcl. simpl.
  eapply wp_with_mem_file; [exact Hf | exact Hc |].
  apply wp_bind. unfold _on_close_memory_file.
  apply wp_bind, wp_get_dir_entry. rewrite Hn.
  apply wp_bind. eapply wp_update; [exact He|]. set (s1 := set_entries _ s).
  apply wp_bind. eapply wp_load; [apply lookup_insert_eq|]. simpl. rewrite Hrm.
  apply wp_bind. eapply wp_update; [apply lookup_insert_eq|].
  set (s2 := set_entries _ s1). unfold _unlock_dir_entry.
  apply wp_bind, wp_get_dir_entry.
  assert (get_dir_entry s2 (path f) = Some n) as ->.
  { unfold get_dir_entry in *. simpl. rewrite insert_insert_eq.
    by rewrite (walk_insert_same _ _ e). }
  apply wp_bind, wp_ret. unfold unlock.
  apply wp_bind. eapply wp_update; [apply lookup_insert_eq|].
  set (s3 := set_entries _ s2).
  apply wp_bind. eapply wp_load; [apply lookup_insert_eq|]. simpl.
  rewrite bool_decide_eq_true_2 by lia. apply wp_ret.
  apply wp_bind. eapply wp_update_file; [exact Hf|].
  eapply wp_update_file; [apply lookup_insert_eq|].
  subst s1 s2 s3. unfold set_files, set_entries. simpl.
  by rewrite !insert_insert_eq.
Qed.

Lemma wp_read_all s h f :
  files s !! h = Some f → sio_closed (mem_file f) = false →
  wp (MemoryFile_read h None)
     (λ r s', r = drop (pos (mem_file f)) (buf (mem_file f)))
     no_exn s.
Proof.
  intros Hf Hc. unfold MemoryFile_read.
  eapply wp_with_mem_file; [exact Hf | exact Hc |]. simpl.
  apply wp_bind. eapply wp_update_file; [exact Hf|]. apply wp_ret.
  by rewrite firstn_all.
Qed.

(** ** Sessions: open, write, close; open, read *)

(** [session p md b s s']: from [s], opening [p] in the mode [md], writing
    [b] to the handle and closing it all return, and leave the state [s']. *)
Definition session (p : Path) (md : string) (b : bytes) (s s' : MemoryFS) : Prop :=
  ∃ h s1 s2,
    open p md s = (Ok (Some h), s1) ∧
    MemoryFile_write h b s1 = (Ok tt, s2) ∧
    MemoryFile_close h s2 = (Ok tt, s').

(** [reads_back p md b s]: from [s], opening [p] in the mode [md] returns a
    handle, and reading it to the end returns [b]. *)
Definition reads_back (p : Path) (md : string) (b : bytes) (s : MemoryFS) : Prop :=
  ∃ h s1 s2,
    open p md s = (Ok (Some h), s1) ∧
    MemoryFile_read h None s1 = (Ok b, s2).

(** [p] resolves to a directory whose children are [m]. *)
Definition directory_at (s : MemoryFS) (p : Path) (m : gmap Name ref) : Prop :=
  ∃ r e, get_dir_entry s p = Some r ∧ entries s !! r = Some e
         ∧ type e = dir ∧ contents e = Some m.

(** No child, or one whose lock count is zero. *)
Definition free_leaf (s : MemoryFS) (child : option ref) : Prop :=
  match child with
  | None => True
  | Some n => ∃ e, entries s !! n = Some e ∧ locks e = 0%Z
  end.

Lemma buf_write_new b : buf (StringIO.write StringIO.new b) = b.
Proof. destruct b; [done|]. simpl. by rewrite app_nil_r. Qed.


(** Writing to an open handle of the file and closing it commits the
    buffer and gives the lock back. *)
Lemma write_close s p n d k l h f b :
  p ≠ [] → file_state s p n d k l →
  files s !! h = Some f → path f = p → closed f = false →
  sio_closed (mem_file f) = false → writable (mem_file f) = true →
  h ∈ l → (1 ≤ k)%Z →
  ∃ s2 s3 l',
    MemoryFile_write h b s = (Ok tt, s2) ∧
    MemoryFile_close h s2 = (Ok tt, s3) ∧
    file_state s3 p n (Some (buf (StringIO.write (mem_file f) b))) (k - 1) l'.
Proof.
  intros Hp Hfs Hf Hpath Hcl Hc Hwr Hin Hk.
  destruct (file_state_entry _ _ _ _ _ _ Hfs) as (e & He & Hd & Hke & Hl).
  pose proof (file_state_resolves _ _ _ _ _ _ Hp Hfs) as Hn. rewrite <- Hpath in Hn.
  destruct (proj1 (wp_returns _ _ _) (wp_write_at s h f n e b Hf Hc Hwr Hn He))
    as ([] & s2 & Hwrite & Hs2).
  assert (file_state s2 p n d k l) as Hfs2.
  { rewrite <- Hd, <- Hke, <- Hl.
    eapply (file_state_update s s2 p n _ _ _ e (set_modified_time _ e));
      [done.. | by rewrite Hs2 | by rewrite Hs2]. }
  set (f2 := set_mem_file (StringIO.write (mem_file f) b) f).
  assert (files s2 !! h = Some f2) as Hf2.
  { rewrite Hs2. simpl. apply lookup_insert_eq. }
  destruct (file_state_entry _ _ _ _ _ _ Hfs2) as (e2 & He2 & Hd2 & Hke2 & Hl2).
  pose proof (file_state_resolves _ _ _ _ _ _ Hp Hfs2) as Hn2.
  destruct (list_remove_elem h l Hin) as [l' Hl'].
  assert (sio_closed (mem_file f2) = false) as Hc2.
  { simpl. unfold StringIO.write. by destruct b. }
  destruct (proj1 (wp_returns _ _ _)
              (wp_close_at s2 h f2 n e2 l' Hf2 Hcl Hc2
                 ltac:(by rewrite <- Hpath in Hn2) He2
                 ltac:(by rewrite Hl2) ltac:(by rewrite Hke2)))
    as ([] & s3 & Hclose & Hs3).
  exists s2, s3, l'. split_and!; [done..|].
  rewrite <- Hke2.
  eapply (file_state_update s2 s3 p n _ _ _ e2
            (set_locks (locks e2 - 1)
               (set_open_files l' (set_data (Some (buf (mem_file f2))) e2))));
    [done.. | by rewrite Hs3 | by rewrite Hs3].
Qed.

(** A session in write mode on a free leaf commits what was written. *)
Lemma write_session s p md b m :
  p ≠ [] → write_mode md = true →
  directory_at s (pathsplit p).1 m → free_leaf s (m !! (pathsplit p).2) →
  ∃ s' n l, session p md b s s' ∧ file_state s' p n (Some b) 0 l.
Proof.
  intros Hp (Hw & Hr & Ha & Hplus)%write_mode_chars (pr & pe & Hpr & Hpe & Hty & Hm) Hleaf.
  assert (wp (open p md)
            (λ oh s1, ∃ h n d l, oh = Some h ∧ file_state s1 p n d 1 (l ++ [h])
               ∧ files s1 !! h = Some (mkMemoryFile false p md StringIO.new))
            no_exn s) as Hopen.
  { destruct (m !! (pathsplit p).2) as [n|] eqn:Hc.
    - destruct Hleaf as (e & He & Hk).
      eapply wp_conseq;
        [apply (wp_open_truncate s p md n (data e) 0 (open_files e)) | | done].
      + done.
      + by exists pr, pe, m, e.
      + by rewrite Hr, Ha.
      + done.
      + lia.
      + intros oh s1 (h & -> & Hfs & Hh). exists h, n, (data e), (open_files e).
        rewrite MemoryFile_init_write in Hh by (unfold write_mode; by rewrite Hw, Hr, Ha, Hplus).
        done.
    - eapply wp_conseq;
        [apply (wp_open_create s p md pr pe m) | | done]; try done.
      + by rewrite Hr, Ha.
      + intros oh s1 (h & n & -> & Hfs & Hh). exists h, n, None, [].
        rewrite MemoryFile_init_write in Hh by (unfold write_mode; by rewrite Hw, Hr, Ha, Hplus).
        done. }
  apply wp_returns in Hopen as (oh & s1 & Hopen & h & n & d & l & -> & Hfs1 & Hh).
  destruct (write_close s1 p n d 1 (l ++ [h]) h _ b Hp Hfs1 Hh)
    as (s2 & s3 & l' & Hwrite & Hclose & Hfs3); try done.
  { apply elem_of_app. right. by apply list_elem_of_singleton. }
  exists s3, n, l'. split; [by exists h, s1, s2|].
  simpl in Hfs3. by rewrite buf_write_new in Hfs3.
Qed.


(** Reading a file in read mode gives its committed data. *)
Lemma read_session s p md n v k l :
  p ≠ [] → read_mode md = true →
  file_state s p n (Some v) k l →
  reads_back p md v s.
Proof.
  intros Hp Hmd Hfs.
  pose proof Hmd as (Hr & Hw & Ha & Hplus)%read_mode_chars.
  destruct (proj1 (wp_returns _ _ _)
              (wp_open_existing s p md n (Some v) k l Hp Hfs
                 ltac:(by rewrite Hr) ltac:(by rewrite Ha)))
    as (oh & s1 & Hopen & h & -> & Hfs1 & Hh).
  rewrite MemoryFile_init_read in Hh by done.
  destruct (proj1 (wp_returns _ _ _) (wp_read_all s1 h _ Hh eq_refl))
    as (r & s2 & Hread & ->).
  by exists h, s1, s2.
Qed.

(** ** Round trips *)

(** Claim C4, as amended: for every path [p] with a last component whose
    parent resolves to a directory, and that names either no child of it or
    a child whose lock count is zero, and for every byte string [b]: opening
    [p] in write mode, writing [b] and closing, then opening [p] in read
    mode and reading to the end, all return, and the read returns exactly
    [b]. *)
Theorem write_read_roundtrip s p wmd rmd b m :
  p ≠ [] → write_mode wmd = true → read_mode rmd = true →
  directory_at s (pathsplit p).1 m → free_leaf s (m !! (pathsplit p).2) →
  ∃ s', session p wmd b s s' ∧ reads_back p rmd b s'.
Proof.
  intros Hp Hw Hr Hdir Hleaf.
  destruct (write_session s p wmd b m Hp Hw Hdir Hleaf) as (s' & n & l & Hs & Hfs).
  exists s'. split; [done|]. by eapply read_session.
Qed.

(** The fresh filesystem, and the one where [f] is open for writing. *)
Definition fs_f_open : MemoryFS := (open ["f"] "w" MemoryFS_init).2.

Lemma write_read_roundtrip_witness :
  ∃ s', session ["f"] "w" [x68; x69] MemoryFS_init s'
        ∧ reads_back ["f"] "r" [x68; x69] s'.
Proof.
  apply (write_read_roundtrip MemoryFS_init ["f"] "w" "r" [x68; x69] ∅).
  - done.
  - reflexivity.
  - reflexivity.
  - exists 1%positive, (DirEntry_init dir "root" 0). by vm_compute.
  - by vm_compute.
Defined.

(** Claim C4 as it is stated fails on a file that is open: the parent of
    [f] is the root directory, and opening [f] in write mode raises
    [ResourceLockedError], so that no session takes place. *)
Lemma write_read_roundtrip_locked :
  (∃ m, directory_at fs_f_open (pathsplit ["f"]).1 m) ∧
  (open ["f"] "w" fs_f_open).1 = Raise ResourceLockedError ∧
  ¬ ∃ s', session ["f"] "w" [x68; x69] fs_f_open s'
          ∧ reads_back ["f"] "r" [x68; x69] s'.
Proof.
  split_and!.
  - eexists. eexists 1%positive, _. by vm_compute.
  - by vm_compute.
  - intros (s' & (h & s1 & s2 & Hopen & _) & _).
    assert ((open ["f"] "w" fs_f_open).1 = Ok (Some h)) as H by (by rewrite Hopen).
    vm_compute in H. discriminate.
Qed.

(** ** [open] on a directory *)

(** The fresh filesystem with one directory [d]. *)
Definition fs_with_dir : MemoryFS := (makedir ["d"] false false MemoryFS_init).2.

(** Claim C1 fails: [d] resolves to a directory, and [open] on it returns a
    handle in each of the modes [r], [a] and [w], where the claim has it
    fail.  [open] checks that the parent is a directory and never looks at
    the type of the entry itself. *)
Theorem open_directory_returns_handle :
  (∃ n e, get_dir_entry fs_with_dir ["d"] = Some n
          ∧ entries fs_with_dir !! n = Some e ∧ type e = dir) ∧
  (open ["d"] "r" fs_with_dir).1 = Ok (Some 1%positive) ∧
  (open ["d"] "a" fs_with_dir).1 = Ok (Some 1%positive) ∧
  (open ["d"] "w" fs_with_dir).1 = Ok (Some 1%positive).
Proof.
  split_and!; try by vm_compute.
  eexists 2%positive, _. by vm_compute.
Qed.

(** This is so of every entry, whatever its type: in a mode with [r] and
    without [a], [open] returns a handle for any child of a directory. *)
Lemma open_any_entry s p md n d k l :
  p ≠ [] → file_state s p n d k l →
  char_in "r" md = true → char_in "a" md = false →
  ∃ h s', open p md s = (Ok (Some h), s').
Proof.
  intros Hp Hfs Hr Ha.
  destruct (proj1 (wp_returns _ _ _)
              (wp_open_existing s p md n d k l Hp Hfs
                 ltac:(by rewrite Hr) ltac:(by rewrite Ha)))
    as (oh & s1 & Hopen & h & -> & _).
  eauto.
Qed.

(** ** [makedir] below a file *)

(** The fresh filesystem with one file [f], written and closed. *)
Definition fs_with_file : MemoryFS :=
  (MemoryFile_close 1%positive (open ["f"] "w" MemoryFS_init).2).2.

(** Claim C6 fails for the non-recursive [makedir]: with [f] a file, the
    parent of [f/x] resolves to a file, and [makedir] raises
    [AttributeError], from [parent_dir.contents.get] on the [None] contents
    of a file, and not the "resource invalid" error.  The recursive branch
    has the test [parent_dir.isfile()] that the other branch lacks, and
    raises [ResourceInvalidError] on the same path. *)
Theorem makedir_below_file_nonrecursive :
  (∃ n e, get_dir_entry fs_with_file ["f"] = Some n
          ∧ entries fs_with_file !! n = Some e ∧ type e = file) ∧
  (makedir ["f"; "x"] false false fs_with_file).1 = Raise AttributeError ∧
  (makedir ["f"; "x"] false true fs_with_file).1 = Raise AttributeError ∧
  (makedir ["f"; "x"] true false fs_with_file).1 = Raise ResourceInvalidError.
Proof.
  split_and!; try by vm_compute.
  eexists 2%positive, _. by vm_compute.
Qed.

(** ** Lock counts and the root path *)

(** The fresh filesystem after [open] of the root path in write mode. *)
Definition fs_root_opened : MemoryFS := (open [] "w" MemoryFS_init).2.

(** Claim C3 fails: [open] of the root path in write mode returns a handle;
    it has made a file named by the empty string in the root directory and
    registered the handle there, but has locked the entry that the path
    resolves to, which is the root.  The file has one open handle and a
    lock count of 0, the root a lock count of 1 and no open handle. *)
Theorem open_root_lock_mismatch :
  (open [] "w" MemoryFS_init).1 = Ok (Some 1%positive) ∧
  ∃ r n er en m,
    root fs_root_opened = r ∧
    entries fs_root_opened !! r = Some er ∧ contents er = Some m ∧
    m !! ""%string = Some n ∧
    entries fs_root_opened !! n = Some en ∧ type en = file ∧
    locks en = 0%Z ∧ open_files en = [1%positive] ∧
    locks er = 1%Z ∧ open_files er = [].
Proof.
  split; [by vm_compute|].
  eexists 1%positive, 2%positive, _, _, _. by vm_compute.
Qed.

(** ** Handles registered on an entry *)

(** The handle [h] is a [MemoryFile] whose buffer is not closed and whose
    recorded path resolves to the entry [n]. *)
Definition registered (s : MemoryFS) (n : ref) (h : ref) : Prop :=
  ∃ f, files s !! h = Some f ∧ sio_closed (mem_file f) = false
       ∧ get_dir_entry s (path f) = Some n.

(** One round of the first loop of [rename] on a registered handle: its
    buffer becomes the data of [n], its path becomes [dst]. *)
Definition flushed_to (n : ref) (dst : Path) (s : MemoryFS) (h : ref) : MemoryFS :=
  match files s !! h, entries s !! n with
  | Some f, Some e =>
      mkMemoryFS (root s)
        (<[n := set_data (Some (buf (mem_file f))) e]> (entries s))
        (<[h := set_path dst f]> (files s))
        (clock s)
  | _, _ => s
  end.

Lemma get_dir_entry_insert_same s s' n e e' p :
  entries s !! n = Some e → contents e' = contents e →
  root s' = root s → entries s' = <[n := e']> (entries s) →
  get_dir_entry s' p = get_dir_entry s p.
Proof.
  intros Hn Hc Hr Hes. unfold get_dir_entry.
  rewrite Hr, Hes. by apply walk_insert_same with e.
Qed.

Lemma rename_flush_spec n dst l :
  ∀ s e,
    NoDup l → entries s !! n = Some e →
    (∀ h, h ∈ l → registered s n h) →
    wp (rename_flush l dst)
       (λ _ s',
          s' = foldl (flushed_to n dst) s l ∧
          root s' = root s ∧
          (∃ e', entries s' = <[n := e']> (entries s)
                 ∧ e' = set_data (data e') e
                 ∧ (l = [] → e' = e)
                 ∧ (∀ h f, last l = Some h → files s !! h = Some f →
                           data e' = Some (buf (mem_file f)))) ∧
          (∀ h, h ∈ l → ∃ f, files s !! h = Some f
                             ∧ files s' !! h = Some (set_path dst f)) ∧
          (∀ h, h ∉ l → files s' !! h = files s !! h))
       no_exn s.
Proof.
  unfold rename_flush. induction l as [|h l IH]; intros s e Hnd He Hreg.
  - apply wp_ret. split_and!; try done.
    + exists e. split_and!; try done.
      * by rewrite insert_id.
      * by destruct e.
    + by intros h ?%elem_of_nil.
  - simpl. apply NoDup_cons in Hnd as [Hh Hnd].
    destruct (Hreg h) as (f & Hf & Hc & Hp); [by left|].
    apply wp_bind, wp_bind.
    eapply wp_conseq; [by apply (wp_flush_at s h f n e) | | done].
    intros [] ? ->. set (e1 := set_data _ e). set (s1 := set_entries _ s).
    eapply wp_update_file; [exact Hf|]. set (s2 := set_files _ s1).
    assert (s2 = flushed_to n dst s h) as Hs2.
    { unfold flushed_to. by rewrite Hf, He. }
    assert (entries s2 !! n = Some e1) as He1 by apply lookup_insert_eq.
    eapply wp_conseq; [apply (IH s2 e1 Hnd He1) | | done].
    + intros h' Hh'. destruct (Hreg h') as (f' & Hf' & Hc' & Hp'); [by right|].
      exists f'. split_and!; [|done|].
      * simpl. rewrite lookup_insert_ne; [done|]. by intros ->.
      * rewrite <- Hp'. by apply (get_dir_entry_insert_same s s2 n e e1).
    + intros [] s' (Hs' & Hroot & (e' & Hes' & He' & Hnil & Hlast) & Hin & Hout).
      split_and!.
      * by rewrite Hs', Hs2.
      * done.
      * exists e'. split_and!.
        -- rewrite Hes'. simpl. by rewrite insert_insert_eq.
        -- rewrite He'. by destruct e.
        -- done.
        -- intros h' f' Hl' Hf'. destruct l as [|h0 l0].
           ++ simpl in Hl'. injection Hl' as <-. rewrite (Hnil eq_refl).
              simpl. congruence.
           ++ apply (Hlast h' f'); [done|]. simpl.
              rewrite lookup_insert_ne; [done|]. intros ->.
              apply Hh. change (last (h0 :: l0) = Some h') in Hl'.
              by apply last_Some_elem_of.
      * intros h' [->|Hh']%elem_of_cons.
        -- exists f. split; [done|]. rewrite Hout by done. apply lookup_insert_eq.
        -- destruct (Hin h' Hh') as (f' & Hf' & Hf''). exists f'. split; [|done].
           simpl in Hf'. rewrite lookup_insert_ne in Hf'; [done|]. by intros ->.
      * intros h' Hh'. apply not_elem_of_cons in Hh' as [Hne Hh'].
        rewrite Hout by done. simpl. by rewrite lookup_insert_ne.
Qed.

(** X29, the part of claim C10 that holds: when [src] resolves to an entry
    whose open files are distinct handles, each with an open buffer and a
    recorded path that resolves to that entry, and [dst] resolves too,
    [rename src dst] raises [DestinationExistsError], in the state reached
    from the initial one by committing, for each of these handles in turn,
    its buffer as the data of the entry and [dst] as its path: every handle
    has then [dst] as path, and the data of the entry is the buffer of the
    last handle. *)
Theorem rename_onto_existing s src dst n e m :
  get_dir_entry s src = Some n → entries s !! n = Some e →
  get_dir_entry s dst = Some m →
  NoDup (open_files e) → (∀ h, h ∈ open_files e → registered s n h) →
  ∃ s', rename src dst s = (Raise DestinationExistsError, s') ∧
        s' = foldl (flushed_to n dst) s (open_files e) ∧
        (∀ h, h ∈ open_files e →
              ∃ f, files s !! h = Some f
                   ∧ files s' !! h = Some (set_path dst f)) ∧
        (∀ h f, last (open_files e) = Some h → files s !! h = Some f →
                ∃ e', entries s' !! n = Some e'
                      ∧ data e' = Some (buf (mem_file f))).
Proof.
  intros Hsrc He Hdst Hnd Hreg.
  cut (wp (rename src dst) (λ _ _, False)
         (λ x s', x = DestinationExistsError ∧
            s' = foldl (flushed_to n dst) s (open_files e) ∧
            (∀ h, h ∈ open_files e →
                  ∃ f, files s !! h = Some f
                       ∧ files s' !! h = Some (set_path dst f)) ∧
            (∀ h f, last (open_files e) = Some h → files s !! h = Some f →
                    ∃ e', entries s' !! n = Some e'
                          ∧ data e' = Some (buf (mem_file f)))) s).
  { intros (x & s' & Hrun & -> & H)%wp_raises. by exists s'. }
  unfold rename. destruct (pathsplit src) as [src_dir src_name].
  apply wp_bind, wp_get_dir_entry. rewrite Hsrc.
  apply wp_bind. eapply wp_load; [exact He|].
  apply wp_bind.
  eapply wp_conseq; [by apply (rename_flush_spec n dst (open_files e) s e) | | done].
  intros [] s' (Hs' & Hroot & (e' & Hes' & He' & _ & Hlast) & Hin & _).
  destruct (pathsplit dst) as [dst_dir dst_name].
  apply wp_bind, wp_get_dir_entry.
  assert (get_dir_entry s' dst = Some m) as ->.
  { rewrite <- Hdst. apply (get_dir_entry_insert_same s s' n e e'); try done.
    by rewrite He'. }
  apply wp_raise. split_and!; try done.
  intros h f Hl Hf. exists e'. split; [|by eapply Hlast].
  rewrite Hes'. apply lookup_insert_eq.
Qed.

(** Two files [a] and [b]; [a] is open for writing with [hi] in the buffer
    of its handle and nothing committed. *)
Definition fs_two_files : MemoryFS :=
  let s := (open ["a"] "w" MemoryFS_init).2 in
  let s := (MemoryFile_write 1%positive [x68; x69] s).2 in
  let s := (open ["b"] "w" s).2 in
  (MemoryFile_close 2%positive s).2.

Lemma rename_onto_existing_witness :
  ∃ s', rename ["a"] ["b"] fs_two_files = (Raise DestinationExistsError, s') ∧
        (∃ f, files s' !! 1%positive = Some f ∧ path f = ["b"]) ∧
        (∃ e e', entries fs_two_files !! 2%positive = Some e ∧ data e = None ∧
                 entries s' !! 2%positive = Some e' ∧ data e' = Some [x68; x69]).
Proof.
  destruct (rename_onto_existing fs_two_files ["a"] ["b"] 2%positive
              (mkDirEntry file "a" [1%positive] None None 1 1 3 2 ∅) 3%positive)
    as (s' & Hrun & _ & Hpaths & Hdata).
  - vm_compute. reflexivity.
  - vm_compute. reflexivity.
  - vm_compute. reflexivity.
  - apply NoDup_singleton.
  - intros h ->%list_elem_of_singleton. eexists.
    vm_compute. split_and!; reflexivity.
  - exists s'. split; [exact Hrun|]. clear Hrun. split.
    + destruct (Hpaths 1%positive) as (f & _ & Hf'); [left|].
      exists (set_path ["b"] f). split; [exact Hf' | reflexivity].
    + destruct (Hdata 1%positive
                  (mkMemoryFile false ["a"] "w" (mkStringIO [x68; x69] 2 false true)))
        as (e' & He' & Hd'); [vm_compute; reflexivity..|].
      eexists _, e'. split; [vm_compute; reflexivity|].
      split; [reflexivity|]. split; [exact He' | exact Hd'].
Defined.

(** A directory [d] with a file [f] open for writing is renamed to [e], which
    leaves the old path in the handle; then a file [x] is made. *)
Definition fs_stale_handle : MemoryFS :=
  let s := (makedir ["d"] false false MemoryFS_init).2 in
  let s := (open ["d"; "f"] "w" s).2 in
  let s := (rename ["d"] ["e"] s).2 in
  (open ["x"] "w" s).2.

(** Claim C10 fails: [e/f] and [x] both resolve, and [rename] of [e/f]
    onto [x] raises [AttributeError] where the claim has the "destination
    exists" error.  [rename] flushes the handles of the source before it
    looks at the destination.  The handle of [e/f] has the path [d/f]
    still, which the [rename] of the directory has left as it was and which
    resolves to nothing, and [_on_flush_memory_file] assigns the data to
    what the path resolves to without the test for [None] that
    [_on_close_memory_file] has. *)
Theorem rename_onto_existing_stale :
  is_Some (get_dir_entry fs_stale_handle ["e"; "f"]) ∧
  is_Some (get_dir_entry fs_stale_handle ["x"]) ∧
  (rename ["e"; "f"] ["x"] fs_stale_handle).1 = Raise AttributeError ∧
  (∃ n e f,
     get_dir_entry fs_stale_handle ["e"; "f"] = Some n ∧
     entries fs_stale_handle !! n = Some e ∧ open_files e = [1%positive] ∧
     files fs_stale_handle !! 1%positive = Some f ∧ path f = ["d"; "f"] ∧
     get_dir_entry fs_stale_handle (path f) = None).
Proof.
  split_and!.
  - exists 3%positive. vm_compute. reflexivity.
  - exists 4%positive. vm_compute. reflexivity.
  - vm_compute. reflexivity.
  - eexists 3%positive, _, _. vm_compute. split_and!; reflexivity.
Qed.

(** ** Deleting a child *)

Lemma edge_delete_sub (es : gmap ref DirEntry) pr pe m c y c' x :
  es !! pr = Some pe → contents pe = Some m →
  edge (<[pr := set_contents (Some (delete c m)) pe]> es) y c' = Some x →
  edge es y c' = Some x.
Proof.
  intros Hpr Hm. rewrite !edge_Some.
  intros (ey & my & Hy & Hmy & Hc & Hx).
  rewrite (is_Some_insert_same es pr pe _ x Hpr) in Hx.
  destruct (decide (pr = y)) as [->|Hne].
  - rewrite lookup_insert_eq in Hy. injection Hy as <-. simpl in Hmy.
    injection Hmy as <-. exists pe, m. split_and!; try done.
    apply lookup_delete_Some in Hc. tauto.
  - rewrite lookup_insert_ne in Hy by done. by exists ey, my.
Qed.

Lemma edge_delete_gone (es : gmap ref DirEntry) pr pe m c :
  edge (<[pr := set_contents (Some (delete c m)) pe]> es) pr c = None.
Proof.
  unfold edge. rewrite lookup_insert_eq. simpl. by rewrite lookup_delete_eq.
Qed.

(** The effect of [del d.contents[k]] on an entry with that child. *)
Lemma wp_contents_del s r e m k x :
  entries s !! r = Some e → contents e = Some m → m !! k = Some x →
  wp (contents_del r k)
     (λ _ s', s' = set_entries
                     (<[r := set_contents (Some (delete k m)) e]> (entries s)) s)
     no_exn s.
Proof.
  intros He Hm Hk. unfold contents_del, contents_of.
  apply wp_bind, wp_bind. eapply wp_load; [exact He|]. rewrite Hm.
  apply wp_ret. rewrite Hk. eapply wp_update; [exact He|]. done.
Qed.

(** A path whose last edge is deleted resolves no more. *)
Lemma get_dir_entry_deleted s s' q c pr pe m :
  get_dir_entry s q = Some pr →
  entries s !! pr = Some pe → contents pe = Some m →
  root s' = root s →
  entries s' = <[pr := set_contents (Some (delete c m)) pe]> (entries s) →
  get_dir_entry s' (q ++ [c]) = None.
Proof.
  intros Hq Hpe Hm Hr Hes. unfold get_dir_entry, iteratepath, normpath in *.
  rewrite walk_snoc, Hr, Hes.
  destruct (walk (<[pr := _]> (entries s)) (root s) q) as [y|] eqn:Hy; [|done].
  simpl. assert (y = pr) as ->.
  { apply (walk_sub (entries s)
             (<[pr := set_contents (Some (delete c m)) pe]> (entries s))) in Hy.
    - congruence.
    - intros r. by rewrite (is_Some_insert_same _ pr pe).
    - intros ???. by apply edge_delete_sub. }
  apply edge_delete_gone.
Qed.

(** ** [remove] of a file with open handles *)

(** The handle [h] is open, with an open buffer and a recorded path that
    resolves to the entry [n]. *)
Definition open_on (s : MemoryFS) (n : ref) (h : ref) : Prop :=
  ∃ f, files s !! h = Some f ∧ closed f = false
       ∧ sio_closed (mem_file f) = false
       ∧ get_dir_entry s (path f) = Some n.

(** The handle after [close]. *)
Definition closed_file (f : MemoryFile) : MemoryFile :=
  set_closed true (set_mem_file (StringIO.close (mem_file f)) f).

Lemma orphan_files_spec n l :
  ∀ s e,
    NoDup l → entries s !! n = Some e → open_files e = l →
    (Z.of_nat (length l) ≤ locks e)%Z →
    (∀ h, h ∈ l → open_on s n h) →
    wp (for_each l MemoryFile_close)
       (λ _ s',
          root s' = root s ∧
          (∃ e', entries s' = <[n := e']> (entries s)
                 ∧ e' = set_locks (locks e - Z.of_nat (length l))
                          (set_open_files [] (set_data (data e') e))
                 ∧ (l = [] → data e' = data e)
                 ∧ (∀ h f, last l = Some h → files s !! h = Some f →
                           data e' = Some (buf (mem_file f)))) ∧
          (∀ h, h ∈ l → ∃ f, files s !! h = Some f
                             ∧ files s' !! h = Some (closed_file f)) ∧
          (∀ h, h ∉ l → files s' !! h = files s !! h))
       no_exn s.
Proof.
  induction l as [|h l IH]; intros s e Hnd He Hl Hk Hreg.
  - apply wp_ret. split_and!; try done.
    + exists e. split_and!; try done.
      * by rewrite insert_id.
      * destruct e. simpl in *. subst.
        unfold set_locks, set_open_files, set_data. simpl. f_equal. lia.
    + by intros h ?%elem_of_nil.
  - simpl. apply NoDup_cons in Hnd as [Hh Hnd].
    destruct (Hreg h) as (f & Hf & Hcl & Hc & Hp); [by left|].
    apply wp_bind.
    eapply wp_conseq;
      [apply (wp_close_at s h f n e l Hf Hcl Hc Hp He) | | done].
    { rewrite Hl. simpl. by rewrite decide_True. }
    { simpl in Hk. lia. }
    intros [] ? ->.
    set (e1 := set_locks _ _). set (s1 := mkMemoryFS _ _ _ _).
    assert (entries s1 !! n = Some e1) as He1 by apply lookup_insert_eq.
    eapply wp_conseq; [apply (IH s1 e1 Hnd He1) | | done].
    + done.
    + simpl in *. lia.
    + intros h' Hh'. destruct (Hreg h') as (f' & Hf' & Hcl' & Hc' & Hp'); [by right|].
      exists f'. split_and!; [|done|done|].
      * simpl. rewrite lookup_insert_ne; [done|]. by intros ->.
      * rewrite <- Hp'. by apply (get_dir_entry_insert_same s s1 n e e1).
    + intros [] s' (Hroot & (e' & Hes' & He' & Hnil & Hlast) & Hin & Hout).
      split_and!.
      * done.
      * exists e'. split_and!.
        -- rewrite Hes'. simpl. by rewrite insert_insert_eq.
        -- rewrite He'. destruct e. simpl in *.
           unfold set_locks, set_open_files, set_data. simpl. f_equal. lia.
        -- done.
        -- intros h' f' Hl' Hf'. destruct l as [|h0 l0].
           ++ simpl in Hl'. injection Hl' as <-. rewrite (Hnil eq_refl).
              simpl. congruence.
           ++ apply (Hlast h' f'); [done|]. simpl.
              rewrite lookup_insert_ne; [done|]. intros ->.
              apply Hh. change (last (h0 :: l0) = Some h') in Hl'.
              by apply last_Some_elem_of.
      * intros h' [->|Hh']%elem_of_cons.
        -- exists f. split; [done|]. rewrite Hout by done. apply lookup_insert_eq.
        -- destruct (Hin h' Hh') as (f' & Hf' & Hf''). exists f'. split; [|done].
           simpl in Hf'. rewrite lookup_insert_ne in Hf'; [done|]. by intros ->.
      * intros h' Hh'. apply not_elem_of_cons in Hh' as [Hne Hh'].
        rewrite Hout by done. simpl. by rewrite lookup_insert_ne.
Qed.

(** X28, the part of claim C2 that holds: for every file entry at a path
    [p] with a last component, with a lock count above 0 and no less than
    the number of its open files, whose open files are distinct open
    handles with recorded paths that resolve to that entry: [remove p]
    returns; every one of these handles is closed afterwards; the data of
    the entry is the buffer of the last of them, committed by its [close],
    and the entry has no open file left; the parent directory has lost the
    child named by the last component of [p], and [p] resolves no more. *)
Theorem remove_locked_file s p n e :
  p ≠ [] → get_dir_entry s p = Some n → entries s !! n = Some e →
  type e = file → (locks e > 0)%Z →
  NoDup (open_files e) → (Z.of_nat (length (open_files e)) ≤ locks e)%Z →
  (∀ h, h ∈ open_files e → open_on s n h) →
  ∃ s', remove p s = (Ok tt, s') ∧
    (∀ h, h ∈ open_files e →
          ∃ f, files s !! h = Some f ∧ files s' !! h = Some (closed_file f)) ∧
    (∀ h f, last (open_files e) = Some h → files s !! h = Some f →
            ∃ e', entries s' !! n = Some e'
                  ∧ data e' = Some (buf (mem_file f)) ∧ open_files e' = []) ∧
    (∃ pr pe pe' m,
        get_dir_entry s (pathsplit p).1 = Some pr ∧
        entries s !! pr = Some pe ∧ contents pe = Some m ∧
        entries s' !! pr = Some pe' ∧
        contents pe' = Some (delete (pathsplit p).2 m)) ∧
    get_dir_entry s' p = None.
Proof.
  intros Hp Hn He Hty Hk Hnd Hlen Hopen.
  destruct (exists_last Hp) as (q & c & ->). rewrite pathsplit_snoc. simpl.
  pose proof Hn as Hn'. unfold get_dir_entry, iteratepath, normpath in Hn'.
  rewrite walk_snoc in Hn'.
  destruct (walk (entries s) (root s) q) as [pr|] eqn:Hq; [|done].
  simpl in Hn'. apply edge_Some in Hn' as (pe & m & Hpe & Hm & Hc & _).
  apply wp_returns_unit. unfold remove.
  apply wp_bind, wp_get_dir_entry. rewrite Hn.
  apply wp_bind. eapply wp_load; [exact He|].
  unfold islocked. rewrite bool_decide_eq_true_2 by done.
  apply wp_bind. unfold _orphan_files. apply wp_bind. eapply wp_load; [exact He|].
  eapply wp_conseq;
    [by apply (orphan_files_spec n (open_files e) s e) | | done].
  intros [] s1 (Hroot & (e1 & Hes1 & He1 & _ & Hlast) & Hin & _).
  assert (entries s1 !! n = Some e1) as Hn1.
  { rewrite Hes1. apply lookup_insert_eq. }
  assert (type e1 = type e ∧ contents e1 = contents e ∧ open_files e1 = []) as (Hty1 & Hc1 & Hof1).
  { by rewrite He1. }
  apply wp_bind. eapply wp_load; [exact Hn1|].
  unfold isdir. rewrite bool_decide_eq_false_2 by (by rewrite Hty1, Hty).
  rewrite pathsplit_snoc.
  apply wp_bind, wp_get_dir_entry.
  assert (get_dir_entry s1 q = Some pr) as Hq1.
  { rewrite (get_dir_entry_insert_same s s1 n e e1); done. }
  rewrite Hq1. apply wp_bind, wp_ret.
  assert (∃ pe1, entries s1 !! pr = Some pe1 ∧ contents pe1 = Some m
                 ∧ data pe1 = (if decide (n = pr) then data e1 else data pe)
                 ∧ (n = pr → open_files pe1 = [])) as (pe1 & Hpe1 & Hm1 & Hd1 & Ho1).
  { rewrite Hes1. destruct (decide (n = pr)) as [->|Hne].
    - exists e1. rewrite lookup_insert_eq. split_and!; try done.
      rewrite Hc1. congruence.
    - exists pe. rewrite lookup_insert_ne by done. done. }
  eapply wp_conseq; [by apply (wp_contents_del s1 pr pe1 m c n) | | done].
  intros [] s' ->. split_and!.
  - done.
  - intros h f Hl Hf. destruct (decide (n = pr)) as [->|Hne].
    + eexists. simpl. rewrite lookup_insert_eq. split; [done|]. simpl.
      rewrite Hd1. split; [by eapply Hlast | by apply Ho1].
    + exists e1. simpl. rewrite lookup_insert_ne by done.
      split; [done|]. split; [by eapply Hlast | done].
  - exists pr, pe, (set_contents (Some (delete c m)) pe1), m.
    split_and!; try done. simpl. apply lookup_insert_eq.
  - by apply (get_dir_entry_deleted s1 _ q c pr pe1 m).
Qed.

Lemma remove_locked_file_witness :
  ∃ s', remove ["a"] fs_two_files = (Ok tt, s') ∧
        (∃ f, files s' !! 1%positive = Some f ∧ closed f = true) ∧
        (∃ e', entries s' !! 2%positive = Some e'
               ∧ data e' = Some [x68; x69] ∧ open_files e' = []) ∧
        get_dir_entry s' ["a"] = None.
Proof.
  destruct (remove_locked_file fs_two_files ["a"] 2%positive
              (mkDirEntry file "a" [1%positive] None None 1 1 3 2 ∅))
    as (s' & Hrun & Hclosed & Hdata & _ & Hgone).
  - discriminate.
  - vm_compute. reflexivity.
  - vm_compute. reflexivity.
  - reflexivity.
  - reflexivity.
  - apply NoDup_singleton.
  - simpl. lia.
  - intros h ->%list_elem_of_singleton. eexists.
    vm_compute. split_and!; reflexivity.
  - exists s'. split; [exact Hrun|]. clear Hrun. split_and!.
    + destruct (Hclosed 1%positive) as (f & _ & Hf'); [left|].
      exists (closed_file f). split; [exact Hf' | reflexivity].
    + apply (Hdata 1%positive
               (mkMemoryFile false ["a"] "w" (mkStringIO [x68; x69] 2 false true)));
        vm_compute; reflexivity.
    + exact Hgone.
Defined.

(** The state after the refused [rename] of [a] onto [b]: the handle of [a]
    has the path [b]. *)
Definition fs_retargeted : MemoryFS := (rename ["a"] ["b"] fs_two_files).2.

(** Claim C2 fails: [a] is a file with a lock count of 1 and one open
    handle, in a state that public calls lead to (the [rename] of [a] onto
    [b] has been refused), and [remove] of [a] raises [ValueError] where the
    claim has it return.  [remove] closes the handles of the entry, and the
    close of a handle commits to the entry that the path of the handle
    resolves to.  The refused [rename] has left the path [b] in the handle:
    the buffer becomes the data of [b], and [open_files.remove] finds no
    such handle on [b].  The file [a] is still there, and its handle is
    not closed. *)
Theorem remove_locked_file_retargeted :
  (∃ n e, get_dir_entry fs_retargeted ["a"] = Some n
          ∧ entries fs_retargeted !! n = Some e
          ∧ type e = file ∧ locks e = 1%Z ∧ open_files e = [1%positive]) ∧
  (remove ["a"] fs_retargeted).1 = Raise ValueError ∧
  (rename ["a"] ["b"] fs_two_files).1 = Raise DestinationExistsError ∧
  (∃ f, files fs_retargeted !! 1%positive = Some f ∧ path f = ["b"]) ∧
  (∃ m eb eb',
     get_dir_entry fs_retargeted ["b"] = Some m ∧
     entries fs_retargeted !! m = Some eb ∧ data eb = Some [] ∧
     entries (remove ["a"] fs_retargeted).2 !! m = Some eb' ∧
     data eb' = Some [x68; x69]) ∧
  is_Some (get_dir_entry (remove ["a"] fs_retargeted).2 ["a"]) ∧
  (∃ f', files (remove ["a"] fs_retargeted).2 !! 1%positive = Some f'
         ∧ closed f' = false).
Proof.
  split_and!.
  - eexists 2%positive, _. vm_compute. split_and!; reflexivity.
  - vm_compute. reflexivity.
  - vm_compute. reflexivity.
  - eexists. vm_compute. split_and!; reflexivity.
  - eexists 3%positive, _, _. vm_compute. split_and!; reflexivity.
  - exists 2%positive. vm_compute. reflexivity.
  - eexists. vm_compute. split_and!; reflexivity.
Qed.

(** ** Rules for computations that may raise *)

Lemma wp_load_any r (Q : DirEntry → MemoryFS → Prop) s :
  (∀ e, entries s !! r = Some e → Q e s) → wp (load r) Q any_exn s.
Proof. unfold wp, load. destruct (entries s !! r); [auto | done]. Qed.

Lemma wp_update_any r f (Q : unit → MemoryFS → Prop) s :
  (∀ e, entries s !! r = Some e →
        Q tt (set_entries (<[r := f e]> (entries s)) s)) →
  wp (update r f) Q any_exn s.
Proof.
  intros H. unfold update. apply wp_bind, wp_load_any. intros e He.
  by apply H.
Qed.

Lemma wp_load_file_any h (Q : MemoryFile → MemoryFS → Prop) s :
  (∀ f, files s !! h = Some f → Q f s) → wp (load_file h) Q any_exn s.
Proof. unfold wp, load_file. destruct (files s !! h); [auto | done]. Qed.

Lemma wp_update_file_any h g (Q : unit → MemoryFS → Prop) s :
  (∀ f, files s !! h = Some f →
        Q tt (set_files (<[h := g f]> (files s)) s)) →
  wp (update_file h g) Q any_exn s.
Proof.
  intros H. unfold update_file. apply wp_bind, wp_load_file_any. intros f Hf.
  by apply H.
Qed.

Lemma wp_with_mem_file_any {A} h (k : StringIO → M A) (Q : A → MemoryFS → Prop) s :
  (∀ f, files s !! h = Some f → sio_closed (mem_file f) = false →
        wp (k (mem_file f)) Q any_exn s) →
  wp (with_mem_file h k) Q any_exn s.
Proof.
  intros H. unfold with_mem_file. apply wp_bind, wp_load_file_any.
  intros f Hf. destruct (sio_closed (mem_file f)) eqn:Hc; [done|]. by apply H.
Qed.

Lemma wp_attr_of_any o (Q : ref → MemoryFS → Prop) s :
  (∀ r, o = Some r → Q r s) → wp (attr_of o) Q any_exn s.
Proof. destruct o; simpl; [intros H; by apply wp_ret, H | done]. Qed.

Lemma wp_contents_of_any r x (Q : gmap Name ref → MemoryFS → Prop) s :
  (∀ e m, entries s !! r = Some e → contents e = Some m → Q m s) →
  wp (contents_of r x) Q any_exn s.
Proof.
  intros H. unfold contents_of. apply wp_bind, wp_load_any. intros e He.
  destruct (contents e) as [m|] eqn:Hm; [|done]. apply wp_ret. by eapply H.
Qed.

Lemma wp_contents_set_any r k v (Q : unit → MemoryFS → Prop) s :
  (∀ e m, entries s !! r = Some e → contents e = Some m →
          Q tt (set_entries
                  (<[r := set_contents (Some (<[k := v]> m)) e]> (entries s)) s)) →
  wp (contents_set r k v) Q any_exn s.
Proof.
  intros H. unfold contents_set. apply wp_bind, wp_contents_of_any.
  intros e m He Hm. apply wp_update_any. intros e' He'.
  assert (e' = e) as -> by congruence. by apply H.
Qed.

Lemma wp_contents_del_any r k (Q : unit → MemoryFS → Prop) s :
  (∀ e m x, entries s !! r = Some e → contents e = Some m → m !! k = Some x →
            Q tt (set_entries
                    (<[r := set_contents (Some (delete k m)) e]> (entries s)) s)) →
  wp (contents_del r k) Q any_exn s.
Proof.
  intros H. unfold contents_del. apply wp_bind, wp_contents_of_any.
  intros e m He Hm. destruct (m !! k) as [x|] eqn:Hk; [|done].
  apply wp_update_any. intros e' He'.
  assert (e' = e) as -> by congruence. by eapply H.
Qed.

(** The loop rule when raising is allowed. *)
Lemma wp_for_each_any {A} (body : A → M unit) (I : MemoryFS → Prop) l s :
  I s →
  (∀ x s', I s' → wp (body x) (λ _ s'', I s'') any_exn s') →
  wp (for_each l body) (λ _ s', I s') any_exn s.
Proof.
  intros HI Hbody. revert s HI. induction l as [|x l IH]; intros s HI.
  - by apply wp_ret.
  - simpl. apply wp_bind. eapply wp_conseq; [by apply Hbody | | done].
    intros [] s' HI'. by apply IH.
Qed.

(** ** What the first loop of [rename] keeps *)

(** Two states with the same root and the same entries up to their data. *)
Definition same_but_data (s s' : MemoryFS) : Prop :=
  root s' = root s ∧
  ∀ r, set_data None <$> entries s' !! r = set_data None <$> entries s !! r.

Lemma same_but_data_refl s : same_but_data s s.
Proof. done. Qed.

Lemma same_but_data_trans s1 s2 s3 :
  same_but_data s1 s2 → same_but_data s2 s3 → same_but_data s1 s3.
Proof.
  intros [Hr1 H1] [Hr2 H2]. split; [congruence|].
  intros r. by rewrite H2, H1.
Qed.

Lemma same_but_data_lookup s s' r e' :
  same_but_data s s' → entries s' !! r = Some e' →
  ∃ e, entries s !! r = Some e ∧ e' = set_data (data e') e.
Proof.
  intros [_ H] He'. specialize (H r). rewrite He' in H.
  destruct (entries s !! r) as [e|]; [|done]. exists e. split; [done|].
  simpl in H. injection H as H. destruct e, e'. unfold set_data in *.
  simpl in *. congruence.
Qed.

Lemma same_but_data_get_dir_entry s s' p :
  same_but_data s s' → get_dir_entry s' p = get_dir_entry s p.
Proof.
  intros [Hr H]. unfold get_dir_entry. rewrite Hr.
  assert (∀ r, contents <$> entries s' !! r = contents <$> entries s !! r) as Hc.
  { intros r. specialize (H r).
    destruct (entries s' !! r) as [e'|], (entries s !! r) as [e|];
      simpl in *; try done.
    injection H as H. f_equal. destruct e, e'. unfold set_data in H. simpl in *.
    congruence. }
  apply walk_ext.
  - intros r. specialize (Hc r). rewrite <- !fmap_is_Some with (f := contents).
    by rewrite Hc.
  - intros y c. apply option_eq. intros x. rewrite !edge_Some.
    pose proof (Hc y) as Hy. pose proof (Hc x) as Hx.
    assert (is_Some (entries s' !! x) ↔ is_Some (entries s !! x)) as Hxx.
    { rewrite <- !fmap_is_Some with (f := contents). by rewrite Hx. }
    destruct (entries s' !! y) as [e'|], (entries s !! y) as [e|];
      simpl in *; try done.
    + injection Hy as Hy. split.
      * intros (? & m & [= <-] & Hm & Hl & Ha). exists e, m.
        rewrite <- Hy, <- Hxx. done.
      * intros (? & m & [= <-] & Hm & Hl & Ha). exists e', m.
        rewrite Hy, Hxx. done.
    + split; by intros (? & ? & [=] & _).
Qed.

Lemma rename_flush_same_but_data l dst s :
  wp (rename_flush l dst)
     (λ _ s', same_but_data s s' ∧ (l = [] → s' = s)) any_exn s.
Proof.
  unfold rename_flush. destruct l as [|h0 l0]; [by apply wp_ret|].
  eapply wp_conseq;
    [apply (wp_for_each_any _ (same_but_data s)) | | done].
  - done.
  - intros h s' Hs'. apply wp_bind. unfold MemoryFile_flush.
    apply wp_with_mem_file_any. intros f Hf Hc.
    apply wp_bind, wp_load_file_any. intros f' Hf'.
    unfold _on_flush_memory_file.
    apply wp_bind, wp_get_dir_entry, wp_bind, wp_attr_of_any. intros r Hr.
    apply wp_update_any. intros e He.
    apply wp_update_file_any. intros f'' Hf''.
    eapply same_but_data_trans; [exact Hs'|]. split; [done|]. intros r'. simpl.
    destruct (decide (r = r')) as [->|Hne].
    + by rewrite lookup_insert_eq, He.
    + by rewrite lookup_insert_ne.
  - intros [] s' Hs'. split; [done | discriminate].
Qed.

(** ** The effect of a [rename] that returns *)

Lemma wp_run {A} (m : M A) (Q : A → MemoryFS → Prop) (E : exn → MemoryFS → Prop) s :
  (∀ a s', m s = (Ok a, s') → Q a s') →
  (∀ e s', m s = (Raise e, s') → E e s') →
  wp m Q E s.
Proof. unfold wp. destruct (m s) as [[a|e] s']; auto. Qed.

(** The last four statements of [rename] seen from one entry [y]: [dd] is
    the destination directory, [sd] the source directory, [moved] the entry
    found under the source name. *)
Definition renamed_entry (sd dd moved : ref) (src_name dst_name : Name)
    (src_xattrs : gmap string string) (y : ref) (e : DirEntry) : DirEntry :=
  let e := if decide (y = dd)
           then set_contents (insert dst_name moved <$> contents e) e else e in
  let e := if decide (y = moved) then set_name dst_name e else e in
  let e := if decide (y = dd)
           then set_xattrs (src_xattrs ∪ xattrs e) e else e in
  if decide (y = sd)
  then set_contents (delete src_name <$> contents e) e else e.

Lemma lookup_insert_step (es : gmap ref DirEntry) r e (g : DirEntry → DirEntry) v y :
  es !! r = Some e → v = g e →
  <[r := v]> es !! y = (λ e0, if decide (y = r) then g e0 else e0) <$> es !! y.
Proof.
  intros He ->. destruct (decide (y = r)) as [->|Hne].
  - by rewrite lookup_insert_eq, He.
  - rewrite lookup_insert_ne by done. by destruct (es !! y).
Qed.

Lemma wp_rename s src dst :
  wp (rename src dst)
     (λ _ s', ∃ n e s1 sd dd sde moved,
        get_dir_entry s src = Some n ∧ entries s !! n = Some e ∧
        rename_flush (open_files e) dst s = (Ok tt, s1) ∧
        same_but_data s s1 ∧ (open_files e = [] → s1 = s) ∧
        get_dir_entry s1 dst = None ∧
        get_dir_entry s1 (pathsplit src).1 = Some sd ∧
        get_dir_entry s1 (pathsplit dst).1 = Some dd ∧
        entries s1 !! sd = Some sde ∧
        (∃ sm, contents sde = Some sm ∧ sm !! (pathsplit src).2 = Some moved) ∧
        (∃ dde dm, entries s1 !! dd = Some dde ∧ contents dde = Some dm) ∧
        is_Some (entries s1 !! moved) ∧
        root s' = root s1 ∧ files s' = files s1 ∧
        ∀ y, entries s' !! y =
             renamed_entry sd dd moved (pathsplit src).2 (pathsplit dst).2
               (xattrs sde) y <$> entries s1 !! y)
     any_exn s.
Proof.
  unfold rename.
  destruct (pathsplit src) as [src_dir src_name].
  apply wp_bind, wp_get_dir_entry.
  destruct (get_dir_entry s src) as [n|] eqn:Hn; [|done].
  apply wp_bind, wp_load_any. intros e He.
  apply wp_bind, wp_run; [|done]. intros [] s1 Hflush.
  pose proof (wp_returned _ _ _ _ _ (rename_flush_same_but_data _ _ _) Hflush)
    as [Hsame Hnil].
  destruct (pathsplit dst) as [dst_dir dst_name].
  apply wp_bind, wp_get_dir_entry.
  destruct (get_dir_entry s1 dst) as [?|] eqn:Hdst; [done|].
  apply wp_bind, wp_get_dir_entry, wp_bind, wp_attr_of_any. intros sd Hsd.
  apply wp_bind, wp_load_any. intros sde Hsde.
  apply wp_bind, wp_get_dir_entry.
  destruct (get_dir_entry s1 dst_dir) as [dd|] eqn:Hdd; [|done].
  apply wp_bind, wp_contents_of_any. intros sde' sm Hsde' Hsm.
  assert (sde' = sde) as -> by congruence.
  destruct (sm !! src_name) as [moved|] eqn:Hmoved; [|done].
  apply wp_bind, wp_contents_set_any. intros dde dm Hdde Hdm.
  set (s2 := set_entries _ s1).
  assert (∀ y, entries s2 !! y =
               (λ e0, if decide (y = dd)
                      then set_contents (insert dst_name moved <$> contents e0) e0
                      else e0) <$> entries s1 !! y) as H2.
  { intros y. apply lookup_insert_step with dde; [done|]. by rewrite Hdm. }
  apply wp_bind, wp_contents_of_any. intros dde2 dm2 Hdde2 Hdm2.
  assert (dm2 !! dst_name = Some moved) as ->.
  { simpl in Hdde2. rewrite lookup_insert_eq in Hdde2. injection Hdde2 as <-.
    simpl in Hdm2. injection Hdm2 as <-. apply lookup_insert_eq. }
  apply wp_bind, wp_update_any. intros me Hme. set (s3 := set_entries _ s2).
  assert (∀ y, entries s3 !! y =
               (λ e0, if decide (y = moved) then set_name dst_name e0 else e0)
                 <$> entries s2 !! y) as H3.
  { intros y. by apply lookup_insert_step with me. }
  apply wp_bind, wp_update_any. intros dde3 Hdde3. set (s4 := set_entries _ s3).
  assert (∀ y, entries s4 !! y =
               (λ e0, if decide (y = dd)
                      then set_xattrs (xattrs sde ∪ xattrs e0) e0 else e0)
                 <$> entries s3 !! y) as H4.
  { intros y. by apply lookup_insert_step with dde3. }
  apply wp_contents_del_any. intros sde5 sm5 x Hsde5 Hsm5 Hx.
  set (s5 := set_entries _ s4).
  assert (∀ y, entries s5 !! y =
               (λ e0, if decide (y = sd)
                      then set_contents (delete src_name <$> contents e0) e0
                      else e0) <$> entries s4 !! y) as H5.
  { intros y. apply lookup_insert_step with sde5; [done|]. by rewrite Hsm5. }
  exists n, e, s1, sd, dd, sde, moved. simpl.
  split_and!; try done.
  - by exists sm.
  - by exists dde, dm.
  - specialize (H2 moved). rewrite Hme in H2.
    destruct (entries s1 !! moved); [eauto | done].
  - intros y. rewrite H5, H4, H3, H2. unfold renamed_entry.
    by destruct (entries s1 !! y).
Qed.

Lemma renamed_entry_contents sd dd moved sn dn sx y e :
  contents (renamed_entry sd dd moved sn dn sx y e) =
  (if decide (y = sd) then fmap (delete sn) else id)
    ((if decide (y = dd) then fmap (insert dn moved) else id) (contents e)).
Proof. unfold renamed_entry. by repeat case_decide. Qed.

Lemma renamed_entry_xattrs sd dd moved sn dn sx y e :
  xattrs (renamed_entry sd dd moved sn dn sx y e) =
  if decide (y = dd) then sx ∪ xattrs e else xattrs e.
Proof. unfold renamed_entry. by repeat case_decide. Qed.

Lemma renamed_entry_name sd dd moved sn dn sx y e :
  name (renamed_entry sd dd moved sn dn sx y e) =
  if decide (y = moved) then dn else name e.
Proof. unfold renamed_entry. by repeat case_decide. Qed.

Lemma renamed_entry_rest sd dd moved sn dn sx y e :
  let e' := renamed_entry sd dd moved sn dn sx y e in
  type e' = type e ∧ data e' = data e ∧ locks e' = locks e
  ∧ open_files e' = open_files e.
Proof. unfold renamed_entry. by repeat case_decide. Qed.

(** Claim C8: after every [rename src dst] that returns, the extended
    attributes of the directory of [dst] are the union of those that the
    directory of [src] had with those that it had itself, the value of the
    source directory standing for a key that both had. *)
Theorem rename_merges_xattrs s src dst s' :
  rename src dst s = (Ok tt, s') →
  ∃ sd dd sde dde dde',
    get_dir_entry s (pathsplit src).1 = Some sd ∧
    get_dir_entry s (pathsplit dst).1 = Some dd ∧
    entries s !! sd = Some sde ∧ entries s !! dd = Some dde ∧
    entries s' !! dd = Some dde' ∧
    xattrs dde' = xattrs sde ∪ xattrs dde ∧
    ∀ k, xattrs dde' !! k =
         match xattrs sde !! k with
         | Some v => Some v
         | None => xattrs dde !! k
         end.
Proof.
  intros Hrun.
  destruct (wp_returned _ _ _ _ _ (wp_rename s src dst) Hrun)
    as (n & e & s1 & sd & dd & sde1 & moved & Hn & He & Hflush & Hsame & _ & Hdst
        & Hsd & Hdd & Hsde1 & _ & (dde1 & dm & Hdde1 & _) & _ & _ & _ & Hfinal).
  destruct (same_but_data_lookup _ _ _ _ Hsame Hsde1) as (sde & Hsde & Hsde_eq).
  destruct (same_but_data_lookup _ _ _ _ Hsame Hdde1) as (dde & Hdde & Hdde_eq).
  rewrite (same_but_data_get_dir_entry s s1 _ Hsame) in Hsd.
  rewrite (same_but_data_get_dir_entry s s1 _ Hsame) in Hdd.
  assert (xattrs sde1 = xattrs sde) as Hxs by (by rewrite Hsde_eq).
  assert (xattrs dde1 = xattrs dde) as Hxd by (by rewrite Hdde_eq).
  eexists sd, dd, sde, dde, _. split_and!; try done.
  - rewrite Hfinal, Hdde1. done.
  - rewrite renamed_entry_xattrs, decide_True by done. by rewrite Hxs, Hxd.
  - intros k. rewrite renamed_entry_xattrs, decide_True by done.
    rewrite Hxs, Hxd, lookup_union.
    by destruct (xattrs sde !! k), (xattrs dde !! k).
Qed.

(** The directory [d] has the attributes [k1 = src] and [k2 = src]; the
    root has [k1 = dst]; [d] holds one file [f]. *)
Definition fs_with_xattrs : MemoryFS :=
  let s := (makedir ["d"] false false MemoryFS_init).2 in
  let s := (setxattr ["d"] "k1" "src" s).2 in
  let s := (setxattr ["d"] "k2" "src" s).2 in
  let s := (setxattr [] "k1" "dst" s).2 in
  let s := (open ["d"; "f"] "w" s).2 in
  (MemoryFile_close 1%positive s).2.

Lemma rename_merges_xattrs_witness :
  ∃ s' er,
    rename ["d"; "f"] ["g"] fs_with_xattrs = (Ok tt, s') ∧
    entries s' !! 1%positive = Some er ∧
    xattrs er !! "k1"%string = Some "src"%string ∧
    xattrs er !! "k2"%string = Some "src"%string.
Proof.
  destruct (rename_merges_xattrs fs_with_xattrs ["d"; "f"] ["g"]
              (rename ["d"; "f"] ["g"] fs_with_xattrs).2)
    as (sd & dd & sde & dde & dde' & Hsd & Hdd & Hsde & Hdde & Hdde' & _ & Hk).
  - vm_compute. reflexivity.
  - vm_compute in Hsd, Hdd. injection Hsd as <-. injection Hdd as <-.
    vm_compute in Hsde, Hdde. injection Hsde as <-. injection Hdde as <-.
    exists (rename ["d"; "f"] ["g"] fs_with_xattrs).2, dde'.
    split; [vm_compute; reflexivity|]. split; [exact Hdde'|].
    split; [exact (Hk "k1"%string) | exact (Hk "k2"%string)].
Defined.

(** The edges after a [rename]: the one of the source is gone, the one of
    the destination leads to the moved entry, the others are as before. *)
Lemma edge_renamed (es1 es' : gmap ref DirEntry) sd dd moved sn dn sx :
  (∀ y, es' !! y = renamed_entry sd dd moved sn dn sx y <$> es1 !! y) →
  is_Some (es1 !! moved) →
  (∃ e m, es1 !! dd = Some e ∧ contents e = Some m) →
  ∀ y c, edge es' y c =
         if decide (y = sd ∧ c = sn) then None
         else if decide (y = dd ∧ c = dn) then Some moved
         else edge es1 y c.
Proof.
  intros Hfinal Hmoved (dde & dm & Hdde & Hdm) y c.
  assert (∀ x, is_Some (es' !! x) ↔ is_Some (es1 !! x)) as Hdom.
  { intros x. by rewrite Hfinal, fmap_is_Some. }
  unfold edge. rewrite Hfinal.
  destruct (es1 !! y) as [ey|] eqn:Hy; simpl.
  - rewrite renamed_entry_contents.
    destruct (decide (y = dd)) as [->|Hydd].
    + assert (ey = dde) as -> by congruence. rewrite Hdm. simpl.
      destruct (decide (dd = sd)) as [<-|Hsd]; simpl.
      * destruct (decide (c = sn)) as [->|Hcsn].
        -- rewrite lookup_delete_eq. simpl. by rewrite decide_True.
        -- rewrite lookup_delete_ne by done.
           rewrite (decide_False (P := dd = dd ∧ c = sn)) by tauto.
           destruct (decide (c = dn)) as [->|Hcdn].
           ++ rewrite lookup_insert_eq. simpl.
              rewrite (decide_True (P := dd = dd ∧ dn = dn)) by done.
              rewrite decide_True; [done|]. by apply Hdom.
           ++ rewrite lookup_insert_ne by done.
              rewrite (decide_False (P := dd = dd ∧ c = dn)) by tauto.
              destruct (dm !! c) as [x|]; simpl; [|done].
              by apply decide_ext.
      * rewrite (decide_False (P := dd = sd ∧ c = sn)) by tauto.
        destruct (decide (c = dn)) as [->|Hcdn].
        -- rewrite lookup_insert_eq. simpl.
           rewrite (decide_True (P := dd = dd ∧ dn = dn)) by done.
           rewrite decide_True; [done|]. by apply Hdom.
        -- rewrite lookup_insert_ne by done.
           rewrite (decide_False (P := dd = dd ∧ c = dn)) by tauto.
           destruct (dm !! c) as [x|]; simpl; [|done].
           by apply decide_ext.
    + rewrite (decide_False (P := y = dd ∧ c = dn)) by tauto. simpl.
      destruct (decide (y = sd)) as [->|Hysd]; simpl.
      * destruct (contents ey) as [m|]; simpl.
        -- destruct (decide (c = sn)) as [->|Hcsn].
           ++ rewrite lookup_delete_eq. simpl. by rewrite decide_True.
           ++ rewrite lookup_delete_ne by done.
              rewrite (decide_False (P := sd = sd ∧ c = sn)) by tauto.
              destruct (m !! c) as [x|]; simpl; [|done].
              by apply decide_ext.
        -- by case_decide.
      * rewrite (decide_False (P := y = sd ∧ c = sn)) by tauto.
        destruct (contents ey) as [m|]; simpl; [|done].
        destruct (m !! c) as [x|]; simpl; [|done].
        by apply decide_ext.
  - case_decide; [done|]. rewrite decide_False; [done|].
    intros [-> _]. congruence.
Qed.

Lemma walk_prefix_resolves es r p q n :
  walk es r p = Some n → q `prefix_of` p → is_Some (walk es r q).
Proof.
  intros Hw [k ->]. rewrite walk_app in Hw.
  destruct (walk es r q); [eauto | done].
Qed.

(** Claim C7, as amended: for every [src] with a last component that
    resolves to an entry [n], and every [dst] that does not resolve and of
    which no prefix resolves to [n] (so that [dst] is not inside [src]):
    after a [rename src dst] that returns, [src] resolves no more, [dst]
    resolves to the same entry [n], whose name is the last component of
    [dst], whose extended attributes are unchanged, and whose data is the
    data that the flush of its open files left, which is its former data
    when it has no open file. *)
Theorem rename_moves_node s src dst n e s' :
  src ≠ [] → get_dir_entry s src = Some n → entries s !! n = Some e →
  get_dir_entry s dst = None →
  (∀ q, q `prefix_of` dst → get_dir_entry s q ≠ Some n) →
  rename src dst s = (Ok tt, s') →
  get_dir_entry s' src = None ∧ get_dir_entry s' dst = Some n ∧
  ∃ s1 e1 e',
    rename_flush (open_files e) dst s = (Ok tt, s1) ∧
    entries s1 !! n = Some e1 ∧ entries s' !! n = Some e' ∧
    name e' = (pathsplit dst).2 ∧ xattrs e' = xattrs e ∧
    data e' = data e1 ∧ (open_files e = [] → data e' = data e).
Proof.
  intros Hsrc Hn He Hdst Hout Hrun.
  destruct (wp_returned _ _ _ _ _ (wp_rename s src dst) Hrun)
    as (n0 & e0 & s1 & sd & dd & sde & moved & Hn0 & He0 & Hflush & Hsame & Hnil
        & Hdst1 & Hsd & Hdd & Hsde & (sm & Hsm & Hmoved) & Hdde & Hmv & Hroot
        & _ & Hfinal).
  assert (n0 = n) as -> by congruence. assert (e0 = e) as -> by congruence.
  assert (∀ p, get_dir_entry s1 p = get_dir_entry s p) as Hgde.
  { intros p. by apply same_but_data_get_dir_entry. }
  assert (dst ≠ []) as Hdne.
  { intros ->. unfold get_dir_entry, iteratepath, normpath in *.
    change src with ([] ++ src) in Hn.
    rewrite walk_app, Hdst in Hn. done. }
  destruct (exists_last Hsrc) as (sq & sn & ->).
  destruct (exists_last Hdne) as (dq & dn & ->).
  rewrite !pathsplit_snoc in *. cbn [fst snd] in *.
  pose proof (edge_renamed (entries s1) (entries s') sd dd moved sn dn
                (xattrs sde) Hfinal Hmv Hdde) as Hedge.
  assert (∀ x, is_Some (entries s' !! x) ↔ is_Some (entries s1 !! x)) as Hdom.
  { intros x. by rewrite Hfinal, fmap_is_Some. }
  unfold get_dir_entry, iteratepath, normpath in *. rewrite Hroot.
  assert (edge (entries s1) sd sn = Some n) as Hsrc_edge.
  { specialize (Hgde (sq ++ [sn])). rewrite Hn, walk_snoc, Hsd in Hgde. done. }
  assert (moved = n) as ->.
  { apply edge_Some in Hsrc_edge as (? & ? & ? & ? & ? & _). congruence. }
  assert (edge (entries s1) dd dn = None) as Hdst_edge.
  { rewrite walk_snoc, Hdd in Hdst1. done. }
  assert (¬ (dd = sd ∧ dn = sn)) as Hdiff.
  { intros [-> ->]. congruence. }
  split_and!.
  - rewrite walk_snoc.
    destruct (walk (entries s') (root s1) sq) as [y|] eqn:Hy; [|done]. simpl.
    destruct (walk_same_or_fail (entries s1) (entries s')
                ltac:(intros x; by apply Hdom)
                ltac:(intros y' c'; rewrite Hedge; repeat case_decide;
                      destruct_and?; subst; auto)
                sq (root s1) sd Hsd) as [Hw|Hw]; [|congruence].
    assert (y = sd) as -> by congruence.
    rewrite Hedge. by rewrite decide_True.
  - rewrite walk_snoc.
    assert (walk (entries s') (root s1) dq = Some dd) as ->.
    { apply (walk_along (entries s1) (entries s')
               ltac:(intros x; by apply Hdom) dq (root s1) dd Hdd).
      intros q y c x Hq Hyc Hpre. rewrite Hedge.
      rewrite decide_False.
      - rewrite decide_False; [done|]. intros [-> ->]. congruence.
      - intros [-> ->]. apply (Hout (q ++ [sn])).
        + by apply prefix_app_r.
        + rewrite <- Hgde, walk_snoc, Hq. simpl. congruence. }
    simpl. rewrite Hedge.
    rewrite decide_False by done. by rewrite decide_True.
  - destruct Hmv as [e1 He1].
    exists s1, e1, (renamed_entry sd dd n sn dn (xattrs sde) n e1).
    destruct (same_but_data_lookup _ _ _ _ Hsame He1) as (e' & He' & He1_eq).
    assert (e' = e) as -> by congruence.
    assert (n ≠ dd) as Hndd.
    { intros ->. apply (Hout dq).
      - by apply prefix_app_r.
      - by rewrite <- Hgde. }
    split_and!; try done.
    + by rewrite Hfinal, He1.
    + rewrite renamed_entry_name. by rewrite decide_True.
    + rewrite renamed_entry_xattrs, decide_False by done. by rewrite He1_eq.
    + apply renamed_entry_rest.
    + intros Hnone. rewrite (Hnil Hnone) in He1.
      assert (e1 = e) as -> by congruence. apply renamed_entry_rest.
Qed.

Lemma rename_moves_node_witness :
  ∃ s' e',
    rename ["d"; "f"] ["g"] fs_with_xattrs = (Ok tt, s') ∧
    get_dir_entry s' ["d"; "f"] = None ∧
    get_dir_entry s' ["g"] = Some 3%positive ∧
    entries s' !! 3%positive = Some e' ∧ name e' = "g"%string ∧
    data e' = Some [].
Proof.
  destruct (rename_moves_node fs_with_xattrs ["d"; "f"] ["g"] 3%positive
              (mkDirEntry file "f" [] None (Some []) 0 2 2 3 ∅)
              (rename ["d"; "f"] ["g"] fs_with_xattrs).2)
    as (Hsrc & Hdst & s1 & e1 & e' & _ & _ & He' & Hname & _ & _ & Hdata).
  - discriminate.
  - vm_compute. reflexivity.
  - vm_compute. reflexivity.
  - vm_compute. reflexivity.
  - intros q [k Hk]. destruct q as [|a [|b q]].
    + vm_compute. discriminate.
    + injection Hk as <- _. vm_compute. discriminate.
    + exfalso. simpl in Hk. discriminate Hk.
  - vm_compute. reflexivity.
  - exists (rename ["d"; "f"] ["g"] fs_with_xattrs).2, e'.
    split; [vm_compute; reflexivity|].
    split; [exact Hsrc|]. split; [exact Hdst|]. split; [exact He'|].
    split; [exact Hname | exact (Hdata eq_refl)].
Defined.

(** Claim C7 as it is stated fails on the data: [a] has no data and a handle
    with [hi] in its buffer; [rename] to [c], which does not resolve,
    returns, and the entry, now at [c], has the data [hi] that the flush of
    the handle committed. *)
Lemma rename_moves_node_pending :
  get_dir_entry fs_two_files ["a"] = Some 2%positive ∧
  get_dir_entry fs_two_files ["c"] = None ∧
  (∃ e, entries fs_two_files !! 2%positive = Some e ∧ data e = None) ∧
  (rename ["a"] ["c"] fs_two_files).1 = Ok tt ∧
  get_dir_entry (rename ["a"] ["c"] fs_two_files).2 ["c"] = Some 2%positive ∧
  (∃ e', entries (rename ["a"] ["c"] fs_two_files).2 !! 2%positive = Some e'
         ∧ data e' = Some [x68; x69]).
Proof.
  split_and!; try (vm_compute; reflexivity).
  - eexists. vm_compute. split; reflexivity.
  - eexists. vm_compute. split; reflexivity.
Qed.

(** A [rename] of a directory to a path inside itself returns, and leaves
    neither path resolving: the directory has become its own child and has
    left the tree.  This is the case that the statement on the moved entry
    leaves out, with its hypothesis on the prefixes of [dst]. *)
Example rename_into_itself :
  (rename ["d"] ["d"; "x"] fs_with_dir).1 = Ok tt ∧
  get_dir_entry (rename ["d"] ["d"; "x"] fs_with_dir).2 ["d"] = None ∧
  get_dir_entry (rename ["d"] ["d"; "x"] fs_with_dir).2 ["d"; "x"] = None.
Proof. split_and!; vm_compute; reflexivity. Qed.

(** ** The recursive [removedir] *)

Lemma removedir_loop_snoc fuel q c :
  removedir_loop (S fuel) (q ++ [c]) =
  let* parent_dir := _get_dir_entry q in
  let* parent_dir := attr_of parent_dir in
  contents_del parent_dir c ;;; removedir_loop fuel q.
Proof.
  destruct (q ++ [c]) as [|c0 q0] eqn:E; [by destruct q|].
  cbn [removedir_loop]. by rewrite <- E, pathsplit_snoc.
Qed.

(** The fuel of the loop is of no account once it is the length of the
    path: every round takes one component away. *)
Lemma removedir_loop_fuel fuel fuel' q s :
  length q ≤ fuel → length q ≤ fuel' →
  removedir_loop fuel q s = removedir_loop fuel' q s.
Proof.
  revert fuel' q s. induction fuel as [|fuel IH]; intros fuel' q s Hf Hf'.
  - destruct q; [by destruct fuel' | simpl in Hf; lia].
  - destruct fuel' as [|fuel'].
    { destruct q; [done | simpl in Hf'; lia]. }
    destruct q as [|c0 q0] eqn:Hq; [done|]. rewrite <- Hq in *.
    assert (q ≠ []) as Hne by (by rewrite Hq).
    destruct (exists_last Hne) as (q' & c & Hq'). rewrite Hq' in *.
    rewrite !removedir_loop_snoc. rewrite length_app in Hf, Hf'.
    simpl in Hf, Hf'.
    unfold bind. destruct (_get_dir_entry q' s) as [[o|x] s1]; [|done].
    destruct (attr_of o s1) as [[r|x] s2]; [|done].
    destruct (contents_del r c s2) as [[[]|x] s3]; [|done].
    apply IH; lia.
Qed.

(** The entries of [es'] are those of [es] with some children taken away. *)
Definition pruned (es es' : gmap ref DirEntry) : Prop :=
  ∀ r, option_Forall2
         (λ e e', option_Forall2 (λ m m' : gmap Name ref, m' ⊆ m)
                    (contents e) (contents e'))
         (es !! r) (es' !! r).

Lemma pruned_refl es : pruned es es.
Proof.
  intros r. destruct (es !! r) as [e|]; constructor.
  destruct (contents e); by constructor.
Qed.

Lemma pruned_trans es1 es2 es3 :
  pruned es1 es2 → pruned es2 es3 → pruned es1 es3.
Proof.
  intros H12 H23 r. specialize (H12 r). specialize (H23 r).
  destruct H12 as [e1 e2 H12|]; inversion H23 as [? e3 H23'|]; subst;
    constructor.
  destruct H12 as [m1 m2 H12|]; inversion H23' as [? m3 H23''|]; subst;
    constructor.
  by etrans.
Qed.

Lemma pruned_delete (es : gmap ref DirEntry) r e m k :
  es !! r = Some e → contents e = Some m →
  pruned es (<[r := set_contents (Some (delete k m)) e]> es).
Proof.
  intros He Hm r'. destruct (decide (r = r')) as [<-|Hne].
  - rewrite lookup_insert_eq, He. constructor. simpl. rewrite Hm.
    constructor. apply delete_subseteq.
  - rewrite lookup_insert_ne by done. apply pruned_refl.
Qed.

Lemma pruned_lookup es es' r e m :
  pruned es es' → es !! r = Some e → contents e = Some m →
  ∃ e' m', es' !! r = Some e' ∧ contents e' = Some m' ∧ m' ⊆ m.
Proof.
  intros H He Hm. specialize (H r). rewrite He in H.
  inversion H as [? e' Hc|]; subst. rewrite Hm in Hc.
  inversion Hc as [? m' Hsub|]; subst. by exists e', m'.
Qed.

Lemma pruned_dom es es' r : pruned es es' → is_Some (es' !! r) → is_Some (es !! r).
Proof.
  intros H Hr. specialize (H r). destruct Hr as [e' He']. rewrite He' in H.
  inversion H. eauto.
Qed.

Lemma pruned_edge es es' y c x :
  pruned es es' → edge es' y c = Some x → edge es y c = Some x.
Proof.
  intros H (e' & m' & Hy & Hm' & Hc & Hx)%edge_Some. apply edge_Some.
  pose proof (H y) as Hy'. rewrite Hy in Hy'.
  inversion Hy' as [e ? Hcs|]; subst. rewrite Hm' in Hcs.
  inversion Hcs as [m ? Hsub|]; subst.
  exists e, m. split_and!; try done.
  - by eapply lookup_weaken.
  - by eapply pruned_dom.
Qed.

Lemma pruned_get_dir_entry s s' p n :
  root s' = root s → pruned (entries s) (entries s') →
  get_dir_entry s' p = Some n → get_dir_entry s p = Some n.
Proof.
  intros Hr H. unfold get_dir_entry. rewrite Hr. apply walk_sub.
  - intros r. by apply pruned_dom.
  - intros y c x. by apply pruned_edge.
Qed.

Lemma removedir_loop_spec fuel :
  ∀ q s, length q ≤ fuel →
    wp (removedir_loop fuel q)
       (λ _ s',
          root s' = root s ∧ pruned (entries s) (entries s') ∧
          ∀ k c, q !! k = Some c →
                 ∃ d e' m', get_dir_entry s (take k q) = Some d
                            ∧ entries s' !! d = Some e'
                            ∧ contents e' = Some m' ∧ m' !! c = None)
       any_exn s.
Proof.
  induction fuel as [|fuel IH]; intros q s Hlen.
  - destruct q; [|simpl in Hlen; lia]. apply wp_ret.
    split_and!; [done | apply pruned_refl | done].
  - destruct (decide (q = [])) as [->|Hne].
    { apply wp_ret. split_and!; [done | apply pruned_refl | done]. }
    destruct (exists_last Hne) as (q' & c & ->).
    rewrite removedir_loop_snoc. rewrite length_app in Hlen. simpl in Hlen.
    apply wp_bind, wp_get_dir_entry, wp_bind, wp_attr_of_any. intros d Hd.
    apply wp_bind, wp_contents_del_any. intros e m x He Hm Hx.
    set (s1 := set_entries _ s).
    assert (pruned (entries s) (entries s1)) as Hp1 by (by apply pruned_delete).
    eapply wp_conseq; [apply (IH q' s1); lia | | done].
    intros [] s' (Hroot & Hp & Hchain). split_and!.
    + done.
    + by eapply pruned_trans.
    + intros k c' Hk. destruct (decide (k < length q')) as [Hlt|Hge].
      * rewrite lookup_app_l in Hk by done.
        destruct (Hchain k c' Hk) as (d' & e' & m' & Hd' & He' & Hm' & Hc').
        exists d', e', m'. split_and!; try done.
        rewrite take_app_le by lia.
        by apply (pruned_get_dir_entry s s1).
      * assert (k = length q') as ->.
        { apply lookup_lt_Some in Hk. rewrite length_app in Hk. simpl in Hk. lia. }
        rewrite list_lookup_middle in Hk by done. injection Hk as <-.
        rewrite take_app_length.
        destruct (pruned_lookup (entries s1) (entries s') d
                    (set_contents (Some (delete c m)) e) (delete c m))
          as (e' & m' & He' & Hm' & Hsub); [done | apply lookup_insert_eq | done |].
        exists d, e', m'. split_and!; try done.
        eapply lookup_weaken_None; [|exact Hsub]. apply lookup_delete_eq.
Qed.

(** Claim C9: after every [removedir p] with [recursive] set that returns,
    for each component [c] of [p], the entry that the components before [c]
    resolved to has lost its child [c]: every directory along [p], and not
    only the last, has been removed from its own parent, up to the first,
    removed from the root; no prefix of [p] but the root path resolves. *)
Theorem removedir_recursive_removes_chain s p force s' :
  removedir p true force s = (Ok tt, s') →
  ∀ k c, p !! k = Some c →
    (∃ d e' m', get_dir_entry s (take k p) = Some d
                ∧ entries s' !! d = Some e'
                ∧ contents e' = Some m' ∧ m' !! c = None) ∧
    get_dir_entry s' (take (S k) p) = None.
Proof.
  intros Hrun.
  cut (root s' = root s ∧ pruned (entries s) (entries s') ∧
       ∀ k c, p !! k = Some c →
              ∃ d e' m', get_dir_entry s (take k p) = Some d
                         ∧ entries s' !! d = Some e'
                         ∧ contents e' = Some m' ∧ m' !! c = None).
  { intros (Hroot & Hp & Hchain) k c Hk.
    destruct (Hchain k c Hk) as (d & e' & m' & Hd & He' & Hm' & Hc).
    split; [by exists d, e', m'|].
    rewrite (take_S_r _ _ _ Hk).
    destruct (get_dir_entry s' (take k p ++ [c])) as [x|] eqn:Hx; [|done].
    exfalso. unfold get_dir_entry, iteratepath, normpath in Hx.
    rewrite walk_snoc in Hx.
    destruct (walk (entries s') (root s') (take k p)) as [y|] eqn:Hy; [|done].
    simpl in Hx.
    assert (y = d) as ->.
    { apply (pruned_get_dir_entry s s' _ _ Hroot Hp) in Hy. congruence. }
    apply edge_Some in Hx as (? & ? & ? & ? & ? & _). congruence. }
  apply (wp_returned (removedir p true force)
           (λ _ s', root s' = root s ∧ pruned (entries s) (entries s') ∧
              ∀ k c, p !! k = Some c →
                     ∃ d e' m', get_dir_entry s (take k p) = Some d
                                ∧ entries s' !! d = Some e'
                                ∧ contents e' = Some m' ∧ m' !! c = None)
           s tt s'); [|exact Hrun].
  unfold removedir. apply wp_bind, wp_get_dir_entry.
  destruct (get_dir_entry s p) as [dir_entry|]; [|done].
  apply wp_bind, wp_load_any. intros e He.
  destruct (islocked e); [done|]. destruct (negb (isdir e)); [done|].
  destruct (nonempty (contents e) && negb force); [done|].
  by apply removedir_loop_spec.
Qed.

(** The directories [a], [a/b] and [a/b/c]. *)
Definition fs_nested : MemoryFS :=
  (makedir ["a"; "b"; "c"] true false MemoryFS_init).2.

Lemma removedir_recursive_removes_chain_witness :
  ∃ s', removedir ["a"; "b"; "c"] true false fs_nested = (Ok tt, s') ∧
        get_dir_entry fs_nested ["a"; "b"; "c"] = Some 4%positive ∧
        get_dir_entry s' ["a"] = None ∧
        (∃ d e' m', get_dir_entry fs_nested ["a"] = Some d
                    ∧ entries s' !! d = Some e'
                    ∧ contents e' = Some m' ∧ m' !! "b"%string = None).
Proof.
  exists (removedir ["a"; "b"; "c"] true false fs_nested).2.
  split; [vm_compute; reflexivity|]. split; [vm_compute; reflexivity|].
  split.
  - apply (removedir_recursive_removes_chain fs_nested ["a"; "b"; "c"] false
             _ ltac:(vm_compute; reflexivity) 0 "a"%string eq_refl).
  - apply (removedir_recursive_removes_chain fs_nested ["a"; "b"; "c"] false
             _ ltac:(vm_compute; reflexivity) 1 "b"%string eq_refl).
Defined.

(** ** The lock count and the list of open files *)

(** Every entry of the store, in the tree or out of it, has as many locks as
    open files. *)
Definition lock_discipline (s : MemoryFS) : Prop :=
  ∀ r e, entries s !! r = Some e → locks e = Z.of_nat (length (open_files e)).

(** A computation that keeps the discipline, whether it returns or raises. *)
Definition neutral {A} (m : M A) : Prop :=
  ∀ s, lock_discipline s →
       wp m (λ _ s', lock_discipline s') (λ _ s', lock_discipline s') s.

Lemma neutral_ret {A} (a : A) : neutral (ret a).
Proof. intros s Hs. by apply wp_ret. Qed.

Lemma neutral_raise {A} x : neutral (raise (A := A) x).
Proof. intros s Hs. by apply wp_raise. Qed.

Lemma neutral_bind {A B} (m : M A) (k : A → M B) :
  neutral m → (∀ a, neutral (k a)) → neutral (bind m k).
Proof.
  intros Hm Hk s Hs. apply wp_bind.
  eapply wp_conseq; [by apply Hm | | done].
  intros a s' Hs'. by apply Hk.
Qed.

Lemma neutral_gets {A} (f : MemoryFS → A) : neutral (gets f).
Proof. intros s Hs. by apply wp_gets. Qed.

Lemma neutral_now : neutral now.
Proof. intros s Hs. by apply wp_now. Qed.

Lemma neutral_load r : neutral (load r).
Proof. intros s Hs. unfold wp, load. by destruct (entries s !! r). Qed.

Lemma neutral_load_file h : neutral (load_file h).
Proof. intros s Hs. unfold wp, load_file. by destruct (files s !! h). Qed.

Lemma lock_discipline_insert s r e :
  lock_discipline s → locks e = Z.of_nat (length (open_files e)) →
  lock_discipline (set_entries (<[r := e]> (entries s)) s).
Proof.
  intros Hs He r' e'. simpl. destruct (decide (r = r')) as [->|Hne].
  - rewrite lookup_insert_eq. by intros [= <-].
  - rewrite lookup_insert_ne by done. apply Hs.
Qed.

Lemma neutral_update r f :
  (∀ e, locks (f e) = locks e ∧ open_files (f e) = open_files e) →
  neutral (update r f).
Proof.
  intros Hf s Hs. unfold wp. destruct (entries s !! r) as [e|] eqn:He.
  - rewrite (update_ok _ _ _ _ He). apply lock_discipline_insert; [done|].
    destruct (Hf e) as [-> ->]. by apply Hs with r.
  - unfold update, bind, load. by rewrite He.
Qed.

Lemma neutral_alloc e :
  locks e = Z.of_nat (length (open_files e)) → neutral (alloc e).
Proof. intros He s Hs. apply wp_alloc. by apply lock_discipline_insert. Qed.

Lemma neutral_update_file h g : neutral (update_file h g).
Proof.
  intros s Hs. unfold wp, update_file, bind, load_file.
  by destruct (files s !! h).
Qed.

Lemma neutral_alloc_file f : neutral (alloc_file f).
Proof. intros s Hs. by apply wp_alloc_file. Qed.

Lemma neutral_for_each {A} (body : A → M unit) l :
  (∀ x, neutral (body x)) → neutral (for_each l body).
Proof.
  intros Hbody. induction l as [|x l IH]; simpl.
  - apply neutral_ret.
  - apply neutral_bind; [apply Hbody | by intros _].
Qed.

Lemma neutral_attr_of o : neutral (attr_of o).
Proof. destruct o; [apply neutral_ret | apply neutral_raise]. Qed.

Lemma neutral_get_dir_entry p : neutral (_get_dir_entry p).
Proof. apply neutral_gets. Qed.

Lemma neutral_dir_entry p : neutral (_dir_entry p).
Proof.
  apply neutral_bind; [apply neutral_get_dir_entry|].
  intros [r|]; [apply neutral_ret | apply neutral_raise].
Qed.

Lemma neutral_contents_of r x : neutral (contents_of r x).
Proof.
  apply neutral_bind; [apply neutral_load|]. intros e.
  destruct (contents e); [apply neutral_ret | apply neutral_raise].
Qed.

Lemma neutral_contents_set r k v : neutral (contents_set r k v).
Proof.
  apply neutral_bind; [apply neutral_contents_of|]. intros m.
  by apply neutral_update.
Qed.

Lemma neutral_contents_del r k : neutral (contents_del r k).
Proof.
  apply neutral_bind; [apply neutral_contents_of|]. intros m.
  destruct (m !! k); [by apply neutral_update | apply neutral_raise].
Qed.

Lemma neutral_make_dir_entry ty nm : neutral (_make_dir_entry ty nm).
Proof.
  apply neutral_bind; [apply neutral_now|]. intros t. by apply neutral_alloc.
Qed.

Lemma neutral_with_mem_file {A} h (k : StringIO → M A) :
  (∀ io, neutral (k io)) → neutral (with_mem_file h k).
Proof.
  intros Hk. apply neutral_bind; [apply neutral_load_file|]. intros f.
  destruct (sio_closed (mem_file f)); [apply neutral_raise | apply Hk].
Qed.

Create HintDb neutral.

Global Hint Resolve neutral_ret neutral_raise neutral_gets neutral_now
  neutral_load neutral_load_file neutral_update_file neutral_alloc_file
  neutral_attr_of neutral_get_dir_entry neutral_dir_entry neutral_contents_of
  neutral_contents_set neutral_contents_del neutral_make_dir_entry : neutral.

(** The pieces of a computation are examined one after the other. *)
Ltac neutral_steps :=
  repeat first
    [ progress auto with neutral
    | match goal with
      | |- neutral (bind _ _) => apply neutral_bind; [|intros ?]
      | |- neutral (with_mem_file _ _) => apply neutral_with_mem_file; intros ?
      | |- neutral (for_each _ _) => apply neutral_for_each; intros ?
      | |- neutral (update _ _) => apply neutral_update; done
      | |- neutral (match ?x with _ => _ end) => destruct x
      | |- neutral (let '(_, _) := ?x in _) => destruct x
      end ].

Lemma neutral_flush h : neutral (MemoryFile_flush h).
Proof. unfold MemoryFile_flush, _on_flush_memory_file. neutral_steps. Qed.

Lemma neutral_write h d : neutral (MemoryFile_write h d).
Proof. unfold MemoryFile_write, _on_modify_memory_file. neutral_steps. Qed.

Lemma neutral_read h size : neutral (MemoryFile_read h size).
Proof. unfold MemoryFile_read. neutral_steps. Qed.

Lemma neutral_seek h p whence : neutral (MemoryFile_seek h p whence).
Proof. unfold MemoryFile_seek. neutral_steps. Qed.

Lemma neutral_settimes p a m : neutral (settimes p a m).
Proof. unfold settimes. neutral_steps. Qed.

Lemma neutral_setxattr p k v : neutral (setxattr p k v).
Proof. unfold setxattr. neutral_steps. Qed.

Lemma neutral_delxattr p k : neutral (delxattr p k).
Proof. unfold delxattr. neutral_steps. Qed.

Lemma neutral_makedir_check cs : ∀ r, neutral (makedir_check cs r).
Proof. induction cs as [|c cs IH]; intros r; simpl; neutral_steps. Qed.

Lemma neutral_makedir_create cs : ∀ r, neutral (makedir_create cs r).
Proof. induction cs as [|c cs IH]; intros r; simpl; neutral_steps. Qed.

Lemma neutral_makedir p recursive allow_recreate :
  neutral (makedir p recursive allow_recreate).
Proof.
  unfold makedir.
  pose proof neutral_makedir_check. pose proof neutral_makedir_create.
  neutral_steps.
Qed.

Lemma neutral_removedir_loop fuel : ∀ q, neutral (removedir_loop fuel q).
Proof.
  induction fuel as [|fuel IH]; intros q; destruct q; simpl; neutral_steps.
Qed.

Lemma neutral_removedir p recursive force : neutral (removedir p recursive force).
Proof. unfold removedir. pose proof neutral_removedir_loop. neutral_steps. Qed.

Lemma neutral_rename src dst : neutral (rename src dst).
Proof.
  unfold rename, rename_flush. pose proof neutral_flush. neutral_steps.
Qed.

Lemma lock_discipline_update s s' r e :
  lock_discipline s → entries s' = <[r := e]> (entries s) →
  locks e = Z.of_nat (length (open_files e)) →
  lock_discipline s'.
Proof.
  intros Hs Hes He r' e'. rewrite Hes.
  destruct (decide (r = r')) as [->|Hne].
  - rewrite lookup_insert_eq. by intros [= <-].
  - rewrite lookup_insert_ne by done. apply Hs.
Qed.

Lemma wp_of_run {A} (m : M A) Q E s a s' :
  m s = (Ok a, s') → Q a s' → wp m Q E s.
Proof. unfold wp. by intros ->. Qed.

(** [close] takes the handle off the list and unlocks the entry that the
    same path resolves to: the same entry. *)
Lemma neutral_on_close h p value : neutral (_on_close_memory_file h p value).
Proof.
  intros s Hs. unfold _on_close_memory_file.
  apply wp_bind, wp_get_dir_entry.
  destruct (get_dir_entry s p) as [r|] eqn:Hr; [|by apply wp_ret].
  destruct (walk_allocated _ _ _ _ Hr) as [e He].
  apply wp_bind. eapply wp_update; [exact He|]. set (s1 := set_entries _ s).
  assert (lock_discipline s1) as Hs1.
  { apply lock_discipline_insert; [done|]. simpl. by apply Hs with r. }
  apply wp_bind. eapply wp_load; [apply lookup_insert_eq|]. simpl.
  destruct (list_remove h (open_files e)) as [l|] eqn:Hl; [|by apply wp_raise].
  apply wp_bind. eapply wp_update; [apply lookup_insert_eq|].
  set (s2 := set_entries _ s1). unfold _unlock_dir_entry.
  apply wp_bind, wp_get_dir_entry.
  assert (get_dir_entry s2 p = Some r) as ->.
  { unfold get_dir_entry in *. simpl. rewrite insert_insert_eq.
    by rewrite (walk_insert_same _ _ e). }
  apply wp_bind, wp_ret. unfold unlock.
  apply wp_bind. eapply wp_update; [apply lookup_insert_eq|].
  set (s3 := set_entries _ s2).
  assert (lock_discipline s3) as Hs3.
  { apply (lock_discipline_update s s3 r
             (set_locks (locks e - 1)
                (set_open_files l (set_data (Some value) e)))); [done | |].
    - simpl. by rewrite !insert_insert_eq.
    - simpl. rewrite (Hs r e He), (list_remove_length _ _ _ Hl). lia. }
  apply wp_bind. eapply wp_load; [apply lookup_insert_eq|].
  case_bool_decide; [by apply wp_ret | by apply wp_raise].
Qed.

Lemma neutral_close h : neutral (MemoryFile_close h).
Proof.
  unfold MemoryFile_close. pose proof neutral_on_close. neutral_steps.
Qed.

Lemma neutral_remove p : neutral (remove p).
Proof.
  unfold remove, _orphan_files. pose proof neutral_close. neutral_steps.
Qed.

(** [open] locks the entry that the path resolves to and registers the
    handle on the entry [n] that it has found in the parent: when these are
    the same entry the discipline is kept. *)
Lemma open_entry_discipline p md n value s :
  lock_discipline s → get_dir_entry s p = Some n →
  (∀ s0, is_Some (entries s0 !! n) → ∃ v, value s0 = (Ok v, s0)) →
  wp (open_entry p md n value)
     (λ _ s', lock_discipline s') (λ _ s', lock_discipline s') s.
Proof.
  intros Hs Hn Hval. unfold open_entry.
  destruct (walk_allocated _ _ _ _ Hn) as [e He].
  apply wp_bind, wp_now. set (s1 := set_clock _ s).
  apply wp_bind. eapply wp_update; [exact He|]. set (s2 := set_entries _ s1).
  apply wp_bind. unfold _lock_dir_entry. apply wp_bind, wp_get_dir_entry.
  assert (get_dir_entry s2 p = Some n) as ->.
  { rewrite <- Hn.
    by apply (get_dir_entry_insert_same s s2 n e
                (set_accessed_time (clock s) e)). }
  apply wp_bind, wp_ret. unfold lock.
  eapply wp_update; [apply lookup_insert_eq|]. set (s3 := set_entries _ s2).
  destruct (Hval s3) as [v Hv].
  { simpl. rewrite lookup_insert_eq. eauto. }
  apply wp_bind. eapply wp_of_run; [exact Hv|].
  apply wp_bind, wp_alloc_file. set (h := fresh _). set (s4 := set_files _ s3).
  apply wp_bind. eapply wp_update; [apply lookup_insert_eq|]. apply wp_ret.
  eapply (lock_discipline_update s _ n); [done | |].
  - simpl. by rewrite !insert_insert_eq.
  - simpl. rewrite (Hs n e He), length_app. simpl. lia.
Qed.

Lemma neutral_open p md : p ≠ [] → neutral (open p md).
Proof.
  intros Hp s Hs. destruct (exists_last Hp) as (q & c & ->).
  unfold open. rewrite pathsplit_snoc.
  apply wp_bind, wp_get_dir_entry.
  destruct (get_dir_entry s q) as [pr|] eqn:Hq; [|by apply wp_raise].
  destruct (walk_allocated _ _ _ _ Hq) as [pe Hpe].
  apply wp_bind. eapply wp_load; [exact Hpe|].
  destruct (isdir pe) eqn:Hdir; simpl; [|by apply wp_raise].
  apply bool_decide_eq_true in Hdir.
  assert (∀ Q, (∀ m, contents pe = Some m → Q m s) →
               wp (contents_of pr TypeError) Q
                  (λ _ s', lock_discipline s') s) as Hcontents.
  { intros Q HQ. unfold contents_of. apply wp_bind. eapply wp_load; [exact Hpe|].
    destruct (contents pe) as [m|]; [by apply wp_ret, HQ | by apply wp_raise]. }
  assert (∀ n m, contents pe = Some m → m !! c = Some n →
                 is_Some (entries s !! n) →
                 get_dir_entry s (q ++ [c]) = Some n) as Hres.
  { intros n m Hm Hc Ha. unfold get_dir_entry, iteratepath, normpath in *.
    rewrite walk_snoc, Hq. simpl. apply edge_Some. by exists pe, m. }
  destruct (char_in "r" md || char_in "a" md).
  - apply wp_bind, Hcontents. intros m Hm.
    destruct (m !! c) as [n|] eqn:Hc; [|by apply wp_raise].
    destruct (entries s !! n) as [e|] eqn:He.
    + apply wp_bind.
      apply wp_conseq with (Q := λ _ s', s' = s)
                           (E := λ _ s', lock_discipline s').
      * destruct (char_in "a" md); [|by apply wp_ret].
        apply wp_bind. eapply wp_load; [exact He|].
        destruct (islocked e); [by apply wp_raise | by apply wp_ret].
      * intros [] ? ->. apply open_entry_discipline; [done | eauto |].
        intros s0 [e0 He0]. exists (data e0). unfold bind.
        by rewrite (load_ok _ _ _ He0).
      * done.
    + apply wp_bind.
      destruct (char_in "a" md).
      * apply wp_bind. unfold wp, load. by rewrite He.
      * apply wp_ret. unfold open_entry. apply wp_bind, wp_now, wp_bind.
        unfold wp, update, bind, load. simpl. by rewrite He.
  - destruct (char_in "w" md); [|by apply wp_ret].
    apply wp_bind, Hcontents. intros m Hm.
    destruct (m !! c) as [n|] eqn:Hc.
    + apply wp_bind, wp_ret. apply wp_bind.
      destruct (entries s !! n) as [e|] eqn:He.
      * eapply wp_load; [exact He|].
        destruct (islocked e); [by apply wp_raise|].
        apply open_entry_discipline; [done | eauto |].
        intros s0 _. by exists None.
      * unfold wp, load. by rewrite He.
    + apply wp_bind, wp_bind. unfold _make_dir_entry.
      apply wp_bind, wp_now. set (s1 := set_clock _ s).
      apply wp_alloc. set (n := fresh _). set (s2 := set_entries _ s1).
      assert (entries s !! n = None) as Hfresh.
      { apply not_elem_of_dom. apply is_fresh. }
      assert (n ≠ pr) as Hne by congruence.
      apply wp_bind. unfold contents_set. apply wp_bind. unfold contents_of.
      apply wp_bind. eapply wp_load.
      { simpl. rewrite lookup_insert_ne by done. exact Hpe. }
      rewrite Hm. apply wp_ret. eapply wp_update.
      { simpl. rewrite lookup_insert_ne by done. exact Hpe. }
      set (s3 := set_entries _ s2). apply wp_ret.
      set (e0 := DirEntry_init file c (clock s)).
      assert (file_state s3 (q ++ [c]) n None 0 []) as Hfs.
      { apply (file_state_created s s3 (q ++ [c]) pr pe m e0);
          rewrite ?pathsplit_snoc; done. }
      assert (lock_discipline s3) as Hs3.
      { apply (lock_discipline_insert s2); [|simpl; by apply Hs with pr].
        by apply (lock_discipline_insert s1). }
      apply wp_bind. eapply wp_load.
      { simpl. rewrite lookup_insert_ne by done. apply lookup_insert_eq. }
      simpl. apply open_entry_discipline; [done | |].
      * by apply (file_state_resolves s3 _ n None 0 []).
      * intros s0 _. by exists None.
Qed.

(** The public operations that change the state, and the methods of a
    handle. *)
Inductive op :=
  | Makedir (p : Path) (recursive allow_recreate : bool)
  | Open (p : Path) (md : string)
  | Remove (p : Path)
  | Removedir (p : Path) (recursive force : bool)
  | Rename (src dst : Path)
  | Settimes (p : Path) (accessed_time modified_time : option nat)
  | Setxattr (p : Path) (key value : string)
  | Delxattr (p : Path) (key : string)
  | Write (h : ref) (d : bytes)
  | Flush (h : ref)
  | Read (h : ref) (size : option Z)
  | Seek (h : ref) (p whence : Z)
  | Close (h : ref).

Definition exec (o : op) : M unit :=
  match o with
  | Makedir p recursive allow_recreate => makedir p recursive allow_recreate
  | Open p md => open p md ;;; ret tt
  | Remove p => remove p
  | Removedir p recursive force => removedir p recursive force
  | Rename src dst => rename src dst
  | Settimes p a m => settimes p a m ;;; ret tt
  | Setxattr p k v => setxattr p k v
  | Delxattr p k => delxattr p k
  | Write h d => MemoryFile_write h d
  | Flush h => MemoryFile_flush h
  | Read h size => MemoryFile_read h size ;;; ret tt
  | Seek h p whence => MemoryFile_seek h p whence
  | Close h => MemoryFile_close h
  end.

(** Every operation but [open] of the root path. *)
Definition off_root (o : op) : Prop :=
  match o with
  | Open p _ => p ≠ []
  | _ => True
  end.

(** The states reached from a fresh filesystem by these operations, each
    of which may return or raise. *)
Inductive reached : MemoryFS → Prop :=
  | reached_init : reached MemoryFS_init
  | reached_step s o : reached s → off_root o → reached (exec o s).2.

Lemma neutral_exec o : off_root o → neutral (exec o).
Proof.
  pose proof neutral_makedir. pose proof neutral_open.
  pose proof neutral_remove. pose proof neutral_removedir.
  pose proof neutral_rename. pose proof neutral_settimes.
  pose proof neutral_setxattr. pose proof neutral_delxattr.
  pose proof neutral_write. pose proof neutral_flush.
  pose proof neutral_read. pose proof neutral_seek. pose proof neutral_close.
  destruct o; simpl; intros Ho; neutral_steps.
Qed.

(** X1, the part of claim C3 that holds: in every state reached from a fresh
    filesystem by operations other than [open] of the root path, every
    entry that a path resolves to has a lock count equal to the number of
    its open files, and so not negative. *)
Theorem lock_count_matches_open_files s :
  reached s →
  ∀ p n e, get_dir_entry s p = Some n → entries s !! n = Some e →
           locks e = Z.of_nat (length (open_files e)) ∧ (0 ≤ locks e)%Z.
Proof.
  intros Hs. assert (lock_discipline s) as Hld.
  { induction Hs as [|s o Hs IH Ho].
    - intros r e. unfold MemoryFS_init. simpl.
      intros [<- <-]%lookup_singleton_Some. done.
    - pose proof (neutral_exec o Ho s IH) as Hwp. unfold wp in Hwp.
      by destruct (exec o s) as [[[]|x] s']. }
  intros p n e _ He. rewrite (Hld n e He). split; [done | lia].
Qed.

Lemma lock_count_matches_open_files_witness :
  locks (mkDirEntry file "f" [1%positive] None None 1 1 1 2 ∅)
    = Z.of_nat (length (open_files (mkDirEntry file "f" [1%positive] None None 1 1 1 2 ∅)))
  ∧ (0 ≤ locks (mkDirEntry file "f" [1%positive] None None 1 1 1 2 ∅))%Z.
Proof.
  apply (lock_count_matches_open_files (exec (Open ["f"] "w") MemoryFS_init).2
           (reached_step _ (Open ["f"] "w") reached_init
              ltac:(simpl; discriminate))
           ["f"] 2%positive).
  - vm_compute. reflexivity.
  - vm_compute. reflexivity.
Defined.

(** ** The recursive [makedir] below a file *)

Lemma wp_raises_eq {A} (m : M A) s x s0 :
  wp m (λ _ _, False) (λ x' s', x' = x ∧ s' = s0) s → m s = (Raise x, s0).
Proof. intros (? & ? & -> & -> & ->)%wp_raises. done. Qed.

Lemma makedir_check_file cs :
  ∀ r n e cs' s,
    cs ≠ [] →
    walk (entries s) r cs = Some n → entries s !! n = Some e → type e = file →
    wp (makedir_check (cs ++ cs') r) (λ _ _, False)
       (λ x s', x = ResourceInvalidError ∧ s' = s) s.
Proof.
  induction cs as [|c cs IH]; intros r n e cs' s Hne Hw He Hty; [done|].
  rewrite walk_cons in Hw.
  destruct (edge (entries s) r c) as [x|] eqn:Hx; [|done]. simpl in Hw.
  pose proof Hx as (er & m & Her & Hm & Hc & [ex Hex])%edge_Some.
  simpl. unfold contents_of.
  apply wp_bind, wp_bind. eapply wp_load; [exact Her|]. rewrite Hm.
  apply wp_ret. rewrite Hc. apply wp_bind. eapply wp_load; [exact Hex|].
  destruct (isdir ex) eqn:Hdir; simpl; [|by apply wp_raise].
  destruct cs as [|c' cs].
  - rewrite walk_nil in Hw. case_decide; [|done]. injection Hw as ->.
    assert (ex = e) as -> by congruence.
    apply bool_decide_eq_true in Hdir. congruence.
  - by apply (IH x n e).
Qed.

(** X2, the part of claim C6 that holds: with [recursive] set, when a prefix of
    the parent path (the root path apart) resolves to a file, [makedir]
    raises [ResourceInvalidError], and changes nothing. *)
Theorem makedir_recursive_below_file s p q n e allow_recreate :
  p ≠ [] → q ≠ [] → q `prefix_of` (pathsplit p).1 →
  get_dir_entry s q = Some n → entries s !! n = Some e →
  type e = file → contents e = None →
  makedir p true allow_recreate s = (Raise ResourceInvalidError, s).
Proof.
  intros Hp Hq [rest Hrest] Hn He Hty Hc. apply wp_raises_eq. unfold makedir.
  rewrite bool_decide_eq_false_2 by done.
  destruct (pathsplit p) as [dirpath dirname]. simpl in Hrest. subst dirpath.
  unfold get_dir_entry, iteratepath, normpath in Hn.
  apply wp_bind, wp_bind, wp_get_dir_entry.
  destruct rest as [|c rest].
  - rewrite app_nil_r. unfold get_dir_entry, iteratepath, normpath. rewrite Hn.
    apply wp_bind, wp_bind. eapply wp_load; [exact He|].
    unfold isfile. rewrite bool_decide_eq_true_2 by done. by apply wp_raise.
  - assert (get_dir_entry s (q ++ c :: rest) = None) as ->.
    { unfold get_dir_entry, iteratepath, normpath.
      rewrite walk_app, Hn.
      change (walk (entries s) n (c :: rest) = None).
      rewrite walk_cons. unfold edge. rewrite He. simpl. by rewrite Hc. }
    apply wp_bind, wp_ret, wp_bind, wp_gets, wp_bind.
    unfold iteratepath, normpath.
    assert (removelast (q ++ c :: rest) = q ++ removelast (c :: rest)) as ->.
    { by apply removelast_app. }
    eapply wp_conseq; [by apply (makedir_check_file q (root s) n e) | done |].
    by intros ? ? [-> ->].
Qed.

Lemma makedir_recursive_below_file_witness :
  makedir ["f"; "x"; "y"] true false fs_with_file
  = (Raise ResourceInvalidError, fs_with_file).
Proof.
  apply (makedir_recursive_below_file fs_with_file ["f"; "x"; "y"] ["f"]
           2%positive (mkDirEntry file "f" [] None (Some []) 0 1 1 2 ∅)).
  - discriminate.
  - discriminate.
  - by exists ["x"].
  - vm_compute. reflexivity.
  - vm_compute. reflexivity.
  - reflexivity.
  - reflexivity.
Defined.

(** ** What a session in write mode that has taken place tells *)








(** The fresh filesystem after [hi] has been written to [f] in a session. *)
Definition fs_written : MemoryFS :=
  let s := (open ["f"] "w" MemoryFS_init).2 in
  let s := (MemoryFile_write 1%positive [x68; x69] s).2 in
  (MemoryFile_close 1%positive s).2.


(** ** What every step keeps

    A relation between the state before and the state after that holds
    across each assignment holds across each operation, whether it returns
    or raises.  The assignments are those the methods are made of: to the
    clock, to an attribute of an entry that is neither its type, its
    children nor its time of creation, to an attribute of a handle that is
    not its mode and does not reopen it, and the making of a handle. *)

Section keeps.

Context (R : MemoryFS → MemoryFS → Prop).
Hypothesis R_refl : ∀ s, R s s.
Hypothesis R_trans : ∀ s1 s2 s3, R s1 s2 → R s2 s3 → R s1 s3.
Hypothesis R_clock : ∀ s c, R s (set_clock c s).
Hypothesis R_attr : ∀ s r e e',
  entries s !! r = Some e →
  type e' = type e → contents e' = contents e →
  created_time e' = created_time e →
  R s (set_entries (<[r := e']> (entries s)) s).
Hypothesis R_file : ∀ s h f f',
  files s !! h = Some f →
  mode f' = mode f → (closed f = true → closed f' = true) →
  R s (set_files (<[h := f']> (files s)) s).
Hypothesis R_new_file : ∀ s f,
  R s (set_files (<[fresh (dom (files s)) := f]> (files s)) s).

Definition keeps {A} (m : M A) : Prop :=
  ∀ s, wp m (λ _ s', R s s') (λ _ s', R s s') s.

Lemma keeps_ret {A} (a : A) : keeps (ret a).
Proof using R_refl. intros s. by apply wp_ret. Qed.

Lemma keeps_raise {A} x : keeps (raise (A := A) x).
Proof using R_refl. intros s. by apply wp_raise. Qed.

Lemma keeps_bind {A B} (m : M A) (k : A → M B) :
  keeps m → (∀ a, keeps (k a)) → keeps (bind m k).
Proof using R_trans.
  intros Hm Hk s. apply wp_bind.
  eapply wp_conseq; [by apply Hm | | done].
  intros a s' Hs'. simpl.
  eapply wp_conseq; [by apply Hk | |]; intros ? ? ?; simpl in *; eauto.
Qed.

Lemma keeps_gets {A} (f : MemoryFS → A) : keeps (gets f).
Proof using R_refl. intros s. by apply wp_gets. Qed.

Lemma keeps_now : keeps now.
Proof using R_clock. intros s. by apply wp_now. Qed.

Lemma keeps_load r : keeps (load r).
Proof using R_refl. intros s. unfold wp, load. by destruct (entries s !! r). Qed.

Lemma keeps_load_file h : keeps (load_file h).
Proof using R_refl. intros s. unfold wp, load_file. by destruct (files s !! h). Qed.

Lemma keeps_update r f :
  (∀ e, type (f e) = type e ∧ contents (f e) = contents e
        ∧ created_time (f e) = created_time e) →
  keeps (update r f).
Proof using R_refl R_attr.
  intros Hf s. unfold wp. destruct (entries s !! r) as [e|] eqn:He.
  - rewrite (update_ok _ _ _ _ He). destruct (Hf e) as (? & ? & ?).
    by apply R_attr with e.
  - unfold update, bind, load. by rewrite He.
Qed.

Lemma keeps_update_file h g :
  (∀ f, mode (g f) = mode f ∧ (closed f = true → closed (g f) = true)) →
  keeps (update_file h g).
Proof using R_refl R_file.
  intros Hg s. unfold wp. destruct (files s !! h) as [f|] eqn:Hf.
  - rewrite (update_file_ok _ _ _ _ Hf). destruct (Hg f) as (? & ?).
    by apply R_file with f.
  - unfold update_file, bind, load_file. by rewrite Hf.
Qed.

Lemma keeps_alloc_file f : keeps (alloc_file f).
Proof using R_new_file. intros s. by apply wp_alloc_file. Qed.

Lemma keeps_for_each {A} (body : A → M unit) l :
  (∀ x, keeps (body x)) → keeps (for_each l body).
Proof using R_refl R_trans.
  intros Hbody. induction l as [|x l IH]; simpl.
  - apply keeps_ret.
  - apply keeps_bind; [apply Hbody | by intros _].
Qed.

Lemma keeps_attr_of o : keeps (attr_of o).
Proof using R_refl. destruct o; [apply keeps_ret | apply keeps_raise]. Qed.

Lemma keeps_get_dir_entry p : keeps (_get_dir_entry p).
Proof using R_refl. apply keeps_gets. Qed.

Lemma keeps_dir_entry p : keeps (_dir_entry p).
Proof using R_refl R_trans.
  apply keeps_bind; [apply keeps_get_dir_entry|].
  intros [r|]; [apply keeps_ret | apply keeps_raise].
Qed.

Lemma keeps_contents_of r x : keeps (contents_of r x).
Proof using R_refl R_trans.
  apply keeps_bind; [apply keeps_load|]. intros e.
  destruct (contents e); [apply keeps_ret | apply keeps_raise].
Qed.

Lemma keeps_with_mem_file {A} h (k : StringIO → M A) :
  (∀ io, keeps (k io)) → keeps (with_mem_file h k).
Proof using R_refl R_trans.
  intros Hk. apply keeps_bind; [apply keeps_load_file|]. intros f.
  destruct (sio_closed (mem_file f)); [apply keeps_raise | apply Hk].
Qed.

Local Hint Resolve keeps_ret keeps_raise keeps_gets keeps_now keeps_load
  keeps_load_file keeps_alloc_file keeps_attr_of keeps_get_dir_entry
  keeps_dir_entry keeps_contents_of : core.

(** The pieces of a computation are examined one after the other. *)
Ltac keeps_steps :=
  repeat first
    [ progress auto
    | match goal with
      | |- keeps (bind _ _) => apply keeps_bind; [|intros ?]
      | |- keeps (with_mem_file _ _) => apply keeps_with_mem_file; intros ?
      | |- keeps (for_each _ _) => apply keeps_for_each; intros ?
      | |- keeps (update _ _) => apply keeps_update; done
      | |- keeps (update_file _ _) => apply keeps_update_file; done
      | |- keeps (match ?x with _ => _ end) => destruct x
      | |- keeps (let '(_, _) := ?x in _) => destruct x
      end ].

Lemma keeps_flush h : keeps (MemoryFile_flush h).
Proof using All. unfold MemoryFile_flush, _on_flush_memory_file. keeps_steps. Qed.

Lemma keeps_write h d : keeps (MemoryFile_write h d).
Proof using All. unfold MemoryFile_write, _on_modify_memory_file. keeps_steps. Qed.

Lemma keeps_read h size : keeps (MemoryFile_read h size).
Proof using All. unfold MemoryFile_read. keeps_steps. Qed.

Lemma keeps_seek h p whence : keeps (MemoryFile_seek h p whence).
Proof using All. unfold MemoryFile_seek. keeps_steps. Qed.

Lemma keeps_tell h : keeps (MemoryFile_tell h).
Proof using All. unfold MemoryFile_tell. keeps_steps. Qed.

Lemma keeps_close h : keeps (MemoryFile_close h).
Proof using All.
  unfold MemoryFile_close, _on_close_memory_file, _unlock_dir_entry, unlock.
  keeps_steps.
Qed.

Lemma keeps_orphan_files r : keeps (_orphan_files r).
Proof using All. unfold _orphan_files. pose proof keeps_close. keeps_steps. Qed.

Lemma keeps_open_entry p md n (value : M (option bytes)) :
  keeps value → keeps (open_entry p md n value).
Proof using All.
  intros Hvalue. unfold open_entry, _lock_dir_entry, lock. keeps_steps.
Qed.

Lemma keeps_settimes p a m : keeps (settimes p a m).
Proof using All. unfold settimes. keeps_steps. Qed.

Lemma keeps_setxattr p k v : keeps (setxattr p k v).
Proof using All. unfold setxattr. keeps_steps. Qed.

Lemma keeps_delxattr p k : keeps (delxattr p k).
Proof using All. unfold delxattr. keeps_steps. Qed.

(** The assignments that change the tree: to the children of a directory,
    and the making of an entry. *)
Hypothesis R_contents : ∀ s r e m m',
  entries s !! r = Some e → contents e = Some m →
  R s (set_entries (<[r := set_contents (Some m') e]> (entries s)) s).
Hypothesis R_new_entry : ∀ s ty nm t,
  R s (set_entries
         (<[fresh (dom (entries s)) := DirEntry_init ty nm t]> (entries s)) s).

Lemma keeps_contents_set r k v : keeps (contents_set r k v).
Proof using R_refl R_contents.
  intros s. unfold contents_set. apply wp_bind. unfold contents_of.
  apply wp_bind. unfold wp at 1, load.
  destruct (entries s !! r) as [e|] eqn:He; [|done].
  destruct (contents e) as [m|] eqn:Hm; [|by apply wp_raise].
  apply wp_ret. eapply wp_update; [exact He|]. by apply R_contents with m.
Qed.

Lemma keeps_contents_del r k : keeps (contents_del r k).
Proof using R_refl R_contents.
  intros s. unfold contents_del. apply wp_bind. unfold contents_of.
  apply wp_bind. unfold wp at 1, load.
  destruct (entries s !! r) as [e|] eqn:He; [|done].
  destruct (contents e) as [m|] eqn:Hm; [|by apply wp_raise].
  apply wp_ret. destruct (m !! k); [|by apply wp_raise].
  eapply wp_update; [exact He|]. by apply R_contents with m.
Qed.

Lemma keeps_make_dir_entry ty nm : keeps (_make_dir_entry ty nm).
Proof using R_trans R_clock R_new_entry.
  apply keeps_bind; [apply keeps_now|]. intros t s. by apply wp_alloc.
Qed.

Local Hint Resolve keeps_contents_set keeps_contents_del
  keeps_make_dir_entry : core.

Lemma keeps_makedir_check cs : ∀ r, keeps (makedir_check cs r).
Proof using All. induction cs as [|c cs IH]; intros r; simpl; keeps_steps. Qed.

Lemma keeps_makedir_create cs : ∀ r, keeps (makedir_create cs r).
Proof using All. induction cs as [|c cs IH]; intros r; simpl; keeps_steps. Qed.

Lemma keeps_makedir p recursive allow_recreate :
  keeps (makedir p recursive allow_recreate).
Proof using All.
  unfold makedir.
  pose proof keeps_makedir_check. pose proof keeps_makedir_create.
  keeps_steps.
Qed.

Lemma keeps_open p md : keeps (open p md).
Proof using All.
  unfold open, open_entry, _lock_dir_entry, lock. keeps_steps.
Qed.

Lemma keeps_remove p : keeps (remove p).
Proof using All. unfold remove. pose proof keeps_orphan_files. keeps_steps. Qed.

Lemma keeps_removedir_loop fuel : ∀ q, keeps (removedir_loop fuel q).
Proof using All.
  induction fuel as [|fuel IH]; intros q; destruct q; simpl; keeps_steps.
Qed.

Lemma keeps_removedir p recursive force : keeps (removedir p recursive force).
Proof using All. unfold removedir. pose proof keeps_removedir_loop. keeps_steps. Qed.

Lemma keeps_rename src dst : keeps (rename src dst).
Proof using All.
  unfold rename, rename_flush. pose proof keeps_flush. keeps_steps.
Qed.

Lemma keeps_exec o : keeps (exec o).
Proof using All.
  pose proof keeps_makedir. pose proof keeps_open.
  pose proof keeps_remove. pose proof keeps_removedir.
  pose proof keeps_rename. pose proof keeps_settimes.
  pose proof keeps_setxattr. pose proof keeps_delxattr.
  pose proof keeps_write. pose proof keeps_flush.
  pose proof keeps_read. pose proof keeps_seek. pose proof keeps_close.
  destruct o; simpl; keeps_steps.
Qed.

End keeps.


(** ** Entries and handles are for ever

    No operation takes an entry out of the store, changes its type or its
    time of creation, or turns a directory into a file; no operation forgets
    a handle, changes its mode or reopens it. *)

(** A directory has children, a file has none. *)
Definition well_typed (e : DirEntry) : Prop :=
  type e = dir ↔ is_Some (contents e).

Definition evolves (s s' : MemoryFS) : Prop :=
  root s' = root s ∧
  (∀ r e, entries s !! r = Some e →
          ∃ e', entries s' !! r = Some e' ∧ type e' = type e
                ∧ created_time e' = created_time e
                ∧ (is_Some (contents e') ↔ is_Some (contents e))) ∧
  (∀ r e', entries s !! r = None → entries s' !! r = Some e' → well_typed e') ∧
  (∀ h f, files s !! h = Some f →
          ∃ f', files s' !! h = Some f' ∧ mode f' = mode f
                ∧ (closed f = true → closed f' = true)).

Lemma evolves_refl s : evolves s s.
Proof.
  split_and!; [done | | | ].
  - intros r e He. by exists e.
  - intros r e' Hn He. congruence.
  - intros h f Hf. by exists f.
Qed.

Lemma evolves_trans s1 s2 s3 : evolves s1 s2 → evolves s2 s3 → evolves s1 s3.
Proof.
  intros (Hr1 & He1 & Hn1 & Hf1) (Hr2 & He2 & Hn2 & Hf2).
  split_and!; [congruence | | |].
  - intros r e H1. destruct (He1 r e H1) as (e2 & H2 & Ht2 & Hc2 & Hk2).
    destruct (He2 r e2 H2) as (e3 & H3 & Ht3 & Hc3 & Hk3).
    exists e3. split_and!; [done | congruence | congruence |].
    by rewrite Hk3.
  - intros r e3 H1 H3. destruct (entries s2 !! r) as [e2|] eqn:H2.
    + destruct (He2 r e2 H2) as (e3' & H3' & Ht3 & _ & Hk3).
      assert (e3' = e3) as -> by congruence.
      unfold well_typed. rewrite Ht3, Hk3. by apply (Hn1 r).
    + by apply (Hn2 r).
  - intros h f H1. destruct (Hf1 h f H1) as (f2 & H2 & Hm2 & Hc2).
    destruct (Hf2 h f2 H2) as (f3 & H3 & Hm3 & Hc3).
    exists f3. split_and!; [done | congruence | auto].
Qed.

Lemma evolves_clock s c : evolves s (set_clock c s).
Proof. exact (evolves_refl s). Qed.

Lemma evolves_entry s r e e' :
  entries s !! r = Some e →
  type e' = type e → created_time e' = created_time e →
  (is_Some (contents e') ↔ is_Some (contents e)) →
  evolves s (set_entries (<[r := e']> (entries s)) s).
Proof.
  intros He Ht Hc Hk. split_and!; [done | | |]; simpl.
  - intros r0 e0 H0. destruct (decide (r = r0)) as [->|Hne].
    + rewrite lookup_insert_eq. exists e'.
      assert (e0 = e) as -> by congruence. done.
    + rewrite lookup_insert_ne by done. by exists e0.
  - intros r0 e0 H0. destruct (decide (r = r0)) as [->|Hne]; [congruence|].
    rewrite lookup_insert_ne by done. congruence.
  - intros h f Hf. by exists f.
Qed.

Lemma evolves_new_entry s ty nm t :
  evolves s (set_entries
               (<[fresh (dom (entries s)) := DirEntry_init ty nm t]> (entries s)) s).
Proof.
  assert (entries s !! fresh (dom (entries s)) = None) as Hfresh.
  { apply not_elem_of_dom, is_fresh. }
  split_and!; [done | | |]; simpl.
  - intros r e He. rewrite lookup_insert_ne by congruence. by exists e.
  - intros r e' Hn. destruct (decide (fresh (dom (entries s)) = r)) as [<-|Hne].
    + rewrite lookup_insert_eq. intros [= <-]. unfold well_typed.
      destruct ty; simpl; split; eauto; try done.
    + rewrite lookup_insert_ne by done. congruence.
  - intros h f Hf. by exists f.
Qed.

Lemma evolves_file s h f f' :
  files s !! h = Some f →
  mode f' = mode f → (closed f = true → closed f' = true) →
  evolves s (set_files (<[h := f']> (files s)) s).
Proof.
  intros Hf Hm Hc. split_and!; [done | | |]; simpl.
  - intros r e He. by exists e.
  - intros r e' Hn He. congruence.
  - intros h0 f0 H0. destruct (decide (h = h0)) as [->|Hne].
    + rewrite lookup_insert_eq. exists f'.
      assert (f0 = f) as -> by congruence. done.
    + rewrite lookup_insert_ne by done. by exists f0.
Qed.

Lemma evolves_new_file s f :
  evolves s (set_files (<[fresh (dom (files s)) := f]> (files s)) s).
Proof.
  assert (files s !! fresh (dom (files s)) = None) as Hfresh.
  { apply not_elem_of_dom, is_fresh. }
  split_and!; [done | | |]; simpl.
  - intros r e He. by exists e.
  - intros r e' Hn He. congruence.
  - intros h0 f0 H0. rewrite lookup_insert_ne by congruence. by exists f0.
Qed.

Lemma keeps_evolves o : keeps evolves (exec o).
Proof.
  apply (keeps_exec evolves evolves_refl evolves_trans evolves_clock).
  - intros s0 r e e' He Ht Hc Hk. apply (evolves_entry s0 r e e' He Ht Hk).
    by rewrite Hc.
  - exact evolves_file.
  - exact evolves_new_file.
  - intros s0 r e m m' He Hm. apply (evolves_entry s0 r e _ He); try done.
  - exact evolves_new_entry.
Qed.

(** X3: whatever the operation and the state, and whether the operation
    returns or raises, the state after it has the same root; every entry
    of the store is still there with its type and its time of creation, and
    has children if and only if it had; every entry that is new is a
    directory with children or a file without; every handle is still there
    with its mode, and is closed if it was. *)
Theorem exec_evolves o s : evolves s (exec o s).2.
Proof.
  pose proof (keeps_evolves o s) as H. unfold wp in H.
  by destruct (exec o s) as [[a|x] s'].
Qed.

(** The states that a sequence of operations leads to. *)
Inductive runs : MemoryFS → MemoryFS → Prop :=
  | runs_refl s : runs s s
  | runs_step s s' o : runs s s' → runs s (exec o s').2.

Lemma runs_evolves s s' : runs s s' → evolves s s'.
Proof.
  induction 1 as [|s s' o _ IH]; [apply evolves_refl|].
  eapply evolves_trans; [exact IH|].
  pose proof (keeps_evolves o s') as H. unfold wp in H.
  by destruct (exec o s') as [[a|x] s''].
Qed.

Lemma runs_well_typed s :
  runs MemoryFS_init s → ∀ r e, entries s !! r = Some e → well_typed e.
Proof.
  intros (Hroot & Hold & Hnew & _)%runs_evolves r e He.
  destruct (entries MemoryFS_init !! r) as [e0|] eqn:H0.
  - destruct (Hold r e0 H0) as (e' & He' & Ht & _ & Hk).
    assert (e' = e) as -> by congruence.
    unfold well_typed. rewrite Ht, Hk.
    unfold MemoryFS_init in H0. simpl in H0.
    apply lookup_singleton_Some in H0 as [_ <-]. simpl. split; eauto.
  - by apply (Hnew r).
Qed.

(** X4: in every state that operations lead to from a fresh filesystem, in
    whatever order and whether they return or raise, the root path resolves
    to a directory: [exists] and [isdir] return true on it, [isfile]
    false. *)
Theorem root_is_a_directory s :
  runs MemoryFS_init s →
  exists_ [] s = (Ok true, s) ∧ MemoryFS_isdir [] s = (Ok true, s)
  ∧ MemoryFS_isfile [] s = (Ok false, s).
Proof.
  intros (Hroot & Hold & _)%runs_evolves.
  destruct (Hold 1%positive (DirEntry_init dir "root" 0))
    as (e & He & Ht & _); [done|].
  simpl in Hroot, Ht.
  assert (get_dir_entry s [] = Some 1%positive) as Hres.
  { unfold get_dir_entry, iteratepath, normpath. rewrite Hroot, walk_nil.
    rewrite decide_True; eauto. }
  unfold exists_, MemoryFS_isdir, MemoryFS_isfile, _get_dir_entry, gets, bind,
    normpath, ret.
  rewrite Hres. split_and!; [done | |].
  - rewrite (load_ok _ _ _ He). unfold isdir. by rewrite bool_decide_eq_true_2.
  - rewrite (load_ok _ _ _ He). unfold isfile.
    rewrite bool_decide_eq_false_2; [done | congruence].
Qed.

Lemma root_is_a_directory_witness :
  exists_ [] fs_with_dir = (Ok true, fs_with_dir)
  ∧ MemoryFS_isdir [] fs_with_dir = (Ok true, fs_with_dir)
  ∧ MemoryFS_isfile [] fs_with_dir = (Ok false, fs_with_dir).
Proof.
  apply (root_is_a_directory fs_with_dir).
  apply (runs_step _ _ (Makedir ["d"] false false)).
  apply runs_refl.
Defined.

(** X5: in every such state nothing resolves below a file: when a path
    resolves to an entry that is a file, no longer path does. *)
Theorem nothing_below_a_file s p n e q :
  runs MemoryFS_init s →
  get_dir_entry s p = Some n → entries s !! n = Some e → type e = file →
  q ≠ [] → get_dir_entry s (p ++ q) = None.
Proof.
  intros Hs Hn He Ht Hq.
  pose proof (runs_well_typed s Hs n e He) as Hwt.
  unfold get_dir_entry, iteratepath, normpath in *. rewrite walk_app, Hn.
  destruct q as [|c q]; [done|].
  change (walk (entries s) n (c :: q) = None).
  rewrite walk_cons. unfold edge. rewrite He. simpl.
  destruct (contents e) eqn:Hc; [|done].
  assert (type e = dir) by (apply Hwt; eauto). congruence.
Qed.

(** The fresh filesystem after [f] has been opened for writing and closed. *)
Definition fs_f_closed : MemoryFS :=
  (exec (Close 1%positive) (exec (Open ["f"] "w") MemoryFS_init).2).2.

Lemma nothing_below_a_file_witness :
  get_dir_entry fs_f_closed (["f"] ++ ["x"]) = None.
Proof.
  apply (nothing_below_a_file fs_f_closed ["f"] 2%positive
           (mkDirEntry file "f" [] None (Some []) 0 1 1 2 ∅) ["x"]).
  - apply (runs_step _ _ (Close 1%positive)).
    apply (runs_step _ _ (Open ["f"] "w")).
    apply runs_refl.
  - vm_compute. reflexivity.
  - vm_compute. reflexivity.
  - reflexivity.
  - discriminate.
Defined.

(** ** The operations that leave the tree alone *)

(** Two stores whose entries have the same children resolve the same
    paths. *)
Lemma walk_same_contents (es es' : gmap ref DirEntry) :
  (∀ r, contents <$> es' !! r = contents <$> es !! r) →
  ∀ p r, walk es' r p = walk es r p.
Proof.
  intros Hc. apply walk_ext.
  - intros r. specialize (Hc r). rewrite <- !fmap_is_Some with (f := contents).
    by rewrite Hc.
  - intros y c. apply option_eq. intros x. rewrite !edge_Some.
    pose proof (Hc y) as Hy. pose proof (Hc x) as Hx.
    assert (is_Some (es' !! x) ↔ is_Some (es !! x)) as Hxx.
    { rewrite <- !fmap_is_Some with (f := contents). by rewrite Hx. }
    destruct (es' !! y) as [e'|], (es !! y) as [e|]; simpl in *; try done.
    + injection Hy as Hy. split.
      * intros (? & m & [= <-] & Hm & Hl & Ha). exists e, m.
        rewrite <- Hy, <- Hxx. done.
      * intros (? & m & [= <-] & Hm & Hl & Ha). exists e', m.
        rewrite Hy, Hxx. done.
    + split; by intros (? & ? & [=] & _).
Qed.

(** The same root, the same entries, each with the same type and the same
    children. *)
Definition same_tree (s s' : MemoryFS) : Prop :=
  root s' = root s ∧
  ∀ r, (λ e, (type e, contents e)) <$> entries s' !! r
       = (λ e, (type e, contents e)) <$> entries s !! r.

Lemma same_tree_refl s : same_tree s s.
Proof. done. Qed.

Lemma same_tree_trans s1 s2 s3 :
  same_tree s1 s2 → same_tree s2 s3 → same_tree s1 s3.
Proof.
  intros [Hr1 H1] [Hr2 H2]. split; [congruence|].
  intros r. by rewrite H2, H1.
Qed.

Lemma same_tree_lookup s s' r e :
  same_tree s s' → entries s !! r = Some e →
  ∃ e', entries s' !! r = Some e' ∧ type e' = type e ∧ contents e' = contents e.
Proof.
  intros [_ H] He. specialize (H r). rewrite He in H.
  destruct (entries s' !! r) as [e'|]; [|done]. exists e'.
  simpl in H. injection H as H1 H2. done.
Qed.

Lemma same_tree_get_dir_entry s s' p :
  same_tree s s' → get_dir_entry s' p = get_dir_entry s p.
Proof.
  intros [Hr H]. unfold get_dir_entry. rewrite Hr.
  apply walk_same_contents. intros r. specialize (H r).
  destruct (entries s' !! r) as [e'|], (entries s !! r) as [e|];
    simpl in *; try done.
  injection H as H1 H2. by f_equal.
Qed.

Lemma same_tree_entry s r e e' :
  entries s !! r = Some e →
  type e' = type e → contents e' = contents e →
  same_tree s (set_entries (<[r := e']> (entries s)) s).
Proof.
  intros He Ht Hc. split; [done|]. intros r0. simpl.
  destruct (decide (r = r0)) as [->|Hne].
  - rewrite lookup_insert_eq, He. simpl. by rewrite Ht, Hc.
  - by rewrite lookup_insert_ne.
Qed.

(** The methods of a handle, and the operations on times and extended
    attributes. *)
Definition on_attributes (o : op) : Prop :=
  match o with
  | Settimes _ _ _ | Setxattr _ _ _ | Delxattr _ _
  | Write _ _ | Flush _ | Read _ _ | Seek _ _ _ | Close _ => True
  | _ => False
  end.

Lemma same_tree_clock s c : same_tree s (set_clock c s).
Proof. done. Qed.

Lemma same_tree_attr s r e e' :
  entries s !! r = Some e →
  type e' = type e → contents e' = contents e →
  created_time e' = created_time e →
  same_tree s (set_entries (<[r := e']> (entries s)) s).
Proof. intros He Ht Hc _. by apply same_tree_entry with e. Qed.

Lemma same_tree_file s h f f' :
  files s !! h = Some f →
  mode f' = mode f → (closed f = true → closed f' = true) →
  same_tree s (set_files (<[h := f']> (files s)) s).
Proof. done. Qed.

Lemma same_tree_new_file s f :
  same_tree s (set_files (<[fresh (dom (files s)) := f]> (files s)) s).
Proof. done. Qed.

Lemma same_tree_exec o s : on_attributes o → same_tree s (exec o s).2.
Proof.
  intros Ho.
  assert (keeps same_tree (exec o)) as H.
  { pose proof (λ A B (m : M A) (k : A → M B),
                  keeps_bind same_tree same_tree_trans m k) as Hbind.
    pose proof (λ A (a : A), keeps_ret same_tree same_tree_refl a) as Hret.
    destruct o; try done; simpl;
      repeat (apply Hbind; [|intros; apply Hret]);
      [ apply keeps_settimes | apply keeps_setxattr | apply keeps_delxattr
      | apply keeps_write | apply keeps_flush | apply keeps_read
      | apply keeps_seek | apply keeps_close ];
      first [ exact same_tree_refl | exact same_tree_trans
            | exact same_tree_clock | exact same_tree_attr
            | exact same_tree_file | exact same_tree_new_file ]. }
  specialize (H s). unfold wp in H. by destruct (exec o s) as [[a|x] s'].
Qed.

(** X6: writing to a handle, flushing, reading, seeking and closing it,
    and setting times or extended attributes, whether they return or raise,
    leave the tree as it is: every path resolves to what it resolved to
    before, and [isdir] and [isfile] answer the same. *)
Theorem tree_untouched o s p :
  on_attributes o →
  get_dir_entry (exec o s).2 p = get_dir_entry s p ∧
  (MemoryFS_isdir p (exec o s).2).1 = (MemoryFS_isdir p s).1 ∧
  (MemoryFS_isfile p (exec o s).2).1 = (MemoryFS_isfile p s).1.
Proof.
  intros Ho. pose proof (same_tree_exec o s Ho) as Hst.
  pose proof (same_tree_get_dir_entry _ _ p Hst) as Hres.
  split; [done|].
  unfold MemoryFS_isdir, MemoryFS_isfile, _get_dir_entry, gets, bind, normpath.
  rewrite Hres. destruct (get_dir_entry s p) as [n|] eqn:Hn; [|done].
  destruct (walk_allocated _ _ _ _ Hn) as [e He].
  destruct (same_tree_lookup _ _ _ _ Hst He) as (e' & He' & Ht & _).
  rewrite (load_ok _ _ _ He), (load_ok _ _ _ He').
  unfold ret, isdir, isfile. simpl. by rewrite Ht.
Qed.

Lemma tree_untouched_witness :
  get_dir_entry (exec (Close 1%positive) fs_two_files).2 ["a"]
    = get_dir_entry fs_two_files ["a"] ∧
  (MemoryFS_isdir ["a"] (exec (Close 1%positive) fs_two_files).2).1
    = (MemoryFS_isdir ["a"] fs_two_files).1 ∧
  (MemoryFS_isfile ["a"] (exec (Close 1%positive) fs_two_files).2).1
    = (MemoryFS_isfile ["a"] fs_two_files).1.
Proof.
  apply (tree_untouched (Close 1%positive) fs_two_files ["a"]).
  exact I.
Defined.

(** X7: [remove] never removes a directory.  On a path that resolves to a
    directory it raises, and every path resolves afterwards to what it
    resolved to before; when the directory is not locked the exception is
    [ResourceInvalidError] and nothing at all has changed.  (On a locked
    directory its handles are closed first, and the exception may be
    theirs.) *)
Theorem remove_directory s p n e :
  get_dir_entry s p = Some n → entries s !! n = Some e → type e = dir →
  ∃ x s',
    remove p s = (Raise x, s') ∧
    (∀ q, get_dir_entry s' q = get_dir_entry s q) ∧
    (¬ (locks e > 0)%Z → x = ResourceInvalidError ∧ s' = s).
Proof.
  intros Hn He Ht.
  cut (wp (remove p) (λ _ _, False)
         (λ x s', same_tree s s' ∧
                  (¬ (locks e > 0)%Z → x = ResourceInvalidError ∧ s' = s)) s).
  { intros (x & s' & Hrun & Hst & Hun)%wp_raises. exists x, s'.
    split_and!; [done | | done].
    intros q. by apply same_tree_get_dir_entry. }
  unfold remove. apply wp_bind, wp_get_dir_entry. rewrite Hn.
  apply wp_bind. eapply wp_load; [exact He|]. apply wp_bind.
  assert (∀ s1, same_tree s s1 → (¬ (locks e > 0)%Z → s1 = s) →
            wp (let* e0 := load n in
                if isdir e0 then raise ResourceInvalidError
                else let '(pathname, dirname) := pathsplit p in
                     let* parent_dir := _get_dir_entry pathname in
                     let* parent_dir := attr_of parent_dir in
                     contents_del parent_dir dirname)
               (λ _ _, False)
               (λ x s', same_tree s s' ∧
                  (¬ (locks e > 0)%Z → x = ResourceInvalidError ∧ s' = s)) s1)
    as Hrest.
  { intros s1 Hst Hun.
    destruct (same_tree_lookup _ _ _ _ Hst He) as (e1 & He1 & Ht1 & _).
    apply wp_bind. eapply wp_load; [exact He1|].
    unfold isdir. rewrite bool_decide_eq_true_2 by congruence.
    apply wp_raise. split; [done|]. intros Hk. split; [done | by apply Hun]. }
  unfold islocked. case_bool_decide as Hk.
  - pose proof (keeps_orphan_files same_tree same_tree_refl same_tree_trans
                  same_tree_clock same_tree_attr same_tree_file
                  same_tree_new_file n s) as Horphan.
    eapply wp_conseq; [exact Horphan | |].
    + intros [] s1 Hst. simpl. apply Hrest; [done | done].
    + intros x s1 Hst. simpl. split; [done | done].
  - apply wp_ret. apply Hrest; [apply same_tree_refl | done].
Qed.

Lemma remove_directory_witness :
  ∃ x s',
    remove ["d"] fs_with_dir = (Raise x, s') ∧
    (∀ q, get_dir_entry s' q = get_dir_entry fs_with_dir q) ∧
    (¬ (0 > 0)%Z → x = ResourceInvalidError ∧ s' = fs_with_dir).
Proof.
  apply (remove_directory fs_with_dir ["d"] 2%positive
           (mkDirEntry dir "d" [] (Some ∅) None 0 1 1 1 ∅)).
  - vm_compute. reflexivity.
  - vm_compute. reflexivity.
  - reflexivity.
Defined.

(** ** Extended attributes *)

Lemma getxattr_at s q k d r e :
  get_dir_entry s q = Some r → entries s !! r = Some e →
  getxattr q k d s
  = (Ok (match xattrs e !! k with Some v => Some v | None => d end), s).
Proof.
  intros Hr He. unfold getxattr, _dir_entry, _get_dir_entry, gets, bind.
  rewrite Hr. simpl. by rewrite (load_ok _ _ _ He).
Qed.

Lemma listxattrs_at s q r e :
  get_dir_entry s q = Some r → entries s !! r = Some e →
  listxattrs q s = (Ok (map fst (map_to_list (xattrs e))), s).
Proof.
  intros Hr He. unfold listxattrs, _dir_entry, _get_dir_entry, gets, bind.
  rewrite Hr. simpl. by rewrite (load_ok _ _ _ He).
Qed.

Lemma elem_of_keys (m : gmap string string) k :
  k ∈ map fst (map_to_list m) ↔ is_Some (m !! k).
Proof.
  rewrite list_elem_of_fmap. split.
  - intros ([k' v] & -> & Hin). apply elem_of_map_to_list in Hin. eauto.
  - intros [v Hv]. exists (k, v). split; [done|]. by apply elem_of_map_to_list.
Qed.

(** The state after an assignment to the extended attributes of [n]. *)
Lemma xattrs_assigned s p n e (g : gmap string string → gmap string string) :
  get_dir_entry s p = Some n → entries s !! n = Some e →
  let s' := set_entries (<[n := set_xattrs (g (xattrs e)) e]> (entries s)) s in
  (∀ d k, getxattr p k d s'
          = (Ok (match g (xattrs e) !! k with Some v => Some v | None => d end), s')) ∧
  listxattrs p s' = (Ok (map fst (map_to_list (g (xattrs e)))), s') ∧
  (∀ q k d, get_dir_entry s q ≠ Some n →
            (getxattr q k d s').1 = (getxattr q k d s).1).
Proof.
  intros Hn He s'.
  assert (∀ q, get_dir_entry s' q = get_dir_entry s q) as Hres.
  { intros q. by apply (get_dir_entry_insert_same s s' n e
                          (set_xattrs (g (xattrs e)) e)). }
  assert (entries s' !! n = Some (set_xattrs (g (xattrs e)) e)) as He'.
  { apply lookup_insert_eq. }
  split_and!.
  - intros d k. rewrite (getxattr_at s' p k d n _ ltac:(by rewrite Hres) He').
    done.
  - by rewrite (listxattrs_at s' p n _ ltac:(by rewrite Hres) He').
  - intros q k d Hq. unfold getxattr, _dir_entry, _get_dir_entry, gets, bind.
    rewrite Hres. destruct (get_dir_entry s q) as [r|] eqn:Hr; [|done]. simpl.
    assert (r ≠ n) as Hne by congruence.
    unfold load. subst s'. simpl. rewrite lookup_insert_ne by done.
    by destruct (entries s !! r).
Qed.

(** X8: on a path that resolves, [setxattr] returns, and afterwards
    [getxattr] returns the value set, whatever the default, and [listxattrs]
    lists the key; the other keys of the entry read as before, and so do
    the keys of every path that resolves to another entry or to none. *)
Theorem setxattr_getxattr s p n key value :
  get_dir_entry s p = Some n →
  ∃ s', setxattr p key value s = (Ok tt, s') ∧
    (∀ d, getxattr p key d s' = (Ok (Some value), s')) ∧
    (∃ l, listxattrs p s' = (Ok l, s') ∧ key ∈ l) ∧
    (∀ k d, k ≠ key → (getxattr p k d s').1 = (getxattr p k d s).1) ∧
    (∀ q k d, get_dir_entry s q ≠ Some n →
              (getxattr q k d s').1 = (getxattr q k d s).1).
Proof.
  intros Hn. destruct (walk_allocated _ _ _ _ Hn) as [e He].
  destruct (xattrs_assigned s p n e (insert key value) Hn He)
    as (Hget & Hlist & Hframe).
  eexists. split_and!.
  - unfold setxattr, _dir_entry, _get_dir_entry, gets, bind at 1 2.
    rewrite Hn. simpl. apply (update_ok _ _ _ _ He).
  - intros d. rewrite Hget. by rewrite lookup_insert_eq.
  - eexists. split; [exact Hlist|]. apply elem_of_keys.
    rewrite lookup_insert_eq. eauto.
  - intros k d Hk. rewrite Hget, (getxattr_at s p k d n e Hn He). simpl.
    by rewrite lookup_insert_ne.
  - exact Hframe.
Qed.

Lemma setxattr_getxattr_witness :
  ∃ s', setxattr ["d"] "k" "v" fs_with_dir = (Ok tt, s') ∧
    (∀ d, getxattr ["d"] "k" d s' = (Ok (Some "v"%string), s')) ∧
    (∃ l, listxattrs ["d"] s' = (Ok l, s') ∧ "k"%string ∈ l) ∧
    (∀ k d, k ≠ "k"%string →
            (getxattr ["d"] k d s').1 = (getxattr ["d"] k d fs_with_dir).1) ∧
    (∀ q k d, get_dir_entry fs_with_dir q ≠ Some 2%positive →
              (getxattr q k d s').1 = (getxattr q k d fs_with_dir).1).
Proof.
  apply (setxattr_getxattr fs_with_dir ["d"] 2%positive "k" "v").
  vm_compute. reflexivity.
Defined.

(** X9: on a path that resolves, [delxattr] returns, whether the key was
    set or not, and afterwards [getxattr] returns the default for that key
    and [listxattrs] does not list it; the other keys of the entry read as
    before, and so do the keys of every path that resolves to another entry
    or to none. *)
Theorem delxattr_getxattr s p n key :
  get_dir_entry s p = Some n →
  ∃ s', delxattr p key s = (Ok tt, s') ∧
    (∀ d, getxattr p key d s' = (Ok d, s')) ∧
    (∃ l, listxattrs p s' = (Ok l, s') ∧ key ∉ l) ∧
    (∀ k d, k ≠ key → (getxattr p k d s').1 = (getxattr p k d s).1) ∧
    (∀ q k d, get_dir_entry s q ≠ Some n →
              (getxattr q k d s').1 = (getxattr q k d s).1).
Proof.
  intros Hn. destruct (walk_allocated _ _ _ _ Hn) as [e He].
  destruct (xattrs_assigned s p n e (delete key) Hn He)
    as (Hget & Hlist & Hframe).
  eexists. split_and!.
  - unfold delxattr, _dir_entry, _get_dir_entry, gets, bind at 1 2.
    rewrite Hn. simpl. apply (update_ok _ _ _ _ He).
  - intros d. rewrite Hget. by rewrite lookup_delete_eq.
  - eexists. split; [exact Hlist|]. rewrite elem_of_keys.
    rewrite lookup_delete_eq. by intros [? ?].
  - intros k d Hk. rewrite Hget, (getxattr_at s p k d n e Hn He). simpl.
    by rewrite lookup_delete_ne.
  - exact Hframe.
Qed.

Lemma delxattr_getxattr_witness :
  ∃ s', delxattr ["d"] "k1" fs_with_xattrs = (Ok tt, s') ∧
    (∀ d, getxattr ["d"] "k1" d s' = (Ok d, s')) ∧
    (∃ l, listxattrs ["d"] s' = (Ok l, s') ∧ "k1"%string ∉ l) ∧
    (∀ k d, k ≠ "k1"%string →
            (getxattr ["d"] k d s').1 = (getxattr ["d"] k d fs_with_xattrs).1) ∧
    (∀ q k d, get_dir_entry fs_with_xattrs q ≠ Some 2%positive →
              (getxattr q k d s').1 = (getxattr q k d fs_with_xattrs).1).
Proof.
  apply (delxattr_getxattr fs_with_xattrs ["d"] 2%positive "k1").
  vm_compute. reflexivity.
Defined.

(** ** [makedir] *)

(** The root directory of a filesystem that has nothing but the child [n]
    under the name [c]. *)
Definition root_with (c : Name) (n : ref) : DirEntry :=
  mkDirEntry dir "root" [] (Some {[ c := n ]}) None 0 0 0 0 ∅.

(** A state with the same root, at least the entries, each of the same type,
    and at least the edges of another. *)
Definition grows (s s' : MemoryFS) : Prop :=
  root s' = root s ∧
  (∀ x e, entries s !! x = Some e →
          ∃ e', entries s' !! x = Some e' ∧ type e' = type e) ∧
  (∀ y c x, edge (entries s) y c = Some x → edge (entries s') y c = Some x).

Lemma grows_refl s : grows s s.
Proof. split_and!; [done | | done]. intros x e He. by exists e. Qed.

Lemma grows_trans s1 s2 s3 : grows s1 s2 → grows s2 s3 → grows s1 s3.
Proof.
  intros (Hr1 & Hd1 & He1) (Hr2 & Hd2 & He2).
  split_and!; [congruence | | auto].
  intros x e H1. destruct (Hd1 x e H1) as (e2 & H2 & Ht2).
  destruct (Hd2 x e2 H2) as (e3 & H3 & Ht3). exists e3. split; congruence.
Qed.

Lemma grows_allocated s s' x :
  grows s s' → is_Some (entries s !! x) → is_Some (entries s' !! x).
Proof. intros (_ & Hd & _) [e He]. destruct (Hd x e He) as (e' & -> & _). eauto. Qed.

Lemma grows_walk s s' r p n :
  grows s s' → walk (entries s) r p = Some n → walk (entries s') r p = Some n.
Proof.
  intros Hg. apply walk_mono.
  - intros x. by apply grows_allocated.
  - by destruct Hg as (_ & _ & He).
Qed.

Lemma grows_get_dir_entry s s' p n :
  grows s s' → get_dir_entry s p = Some n → get_dir_entry s' p = Some n.
Proof.
  intros Hg. unfold get_dir_entry. destruct Hg as (Hr & Hd & He). rewrite Hr.
  apply walk_mono; [|done].
  intros x [e Hx]. destruct (Hd x e Hx) as (e' & -> & _). eauto.
Qed.

(** The state after a new entry [e0] has been made and entered under the
    name [c] in the directory [pr], which had no child of that name. *)
Definition entered (s : MemoryFS) (pr : ref) (pe : DirEntry)
    (m : gmap Name ref) (c : Name) (e0 : DirEntry) : MemoryFS :=
  mkMemoryFS (root s)
    (<[pr := set_contents (Some (<[c := fresh (dom (entries s))]> m)) pe]>
       (<[fresh (dom (entries s)) := e0]> (entries s)))
    (files s) (S (clock s)).

Lemma entered_spec s pr pe m c e0 :
  entries s !! pr = Some pe → contents pe = Some m → m !! c = None →
  let n := fresh (dom (entries s)) in
  let s' := entered s pr pe m c e0 in
  grows s s' ∧ entries s !! n = None ∧ n ≠ pr ∧
  entries s' !! n = Some e0 ∧
  entries s' !! pr = Some (set_contents (Some (<[c := n]> m)) pe) ∧
  edge (entries s') pr c = Some n ∧
  (∀ x, x ≠ n → x ≠ pr → entries s' !! x = entries s !! x).
Proof.
  intros Hpe Hm Hc n s'.
  assert (entries s !! n = None) as Hfresh.
  { apply not_elem_of_dom. apply is_fresh. }
  assert (n ≠ pr) as Hne by congruence.
  assert (entries s' !! n = Some e0) as Hn'.
  { unfold s', entered. simpl. fold n.
    rewrite lookup_insert_ne by done. apply lookup_insert_eq. }
  assert (entries s' !! pr = Some (set_contents (Some (<[c := n]> m)) pe)) as Hpr'.
  { unfold s', entered. simpl. fold n. apply lookup_insert_eq. }
  assert (∀ x, x ≠ n → x ≠ pr → entries s' !! x = entries s !! x) as Hother.
  { intros x H1 H2. unfold s', entered. simpl. fold n.
    by rewrite !lookup_insert_ne. }
  assert (∀ x e, entries s !! x = Some e →
                 ∃ e', entries s' !! x = Some e' ∧ type e' = type e) as Hdom.
  { intros x e Hx. destruct (decide (x = pr)) as [->|H1].
    - rewrite Hpr'. eexists. split; [done|]. simpl. congruence.
    - destruct (decide (x = n)) as [->|H2]; [congruence|].
      rewrite Hother by done. by exists e. }
  split_and!; try done.
  - split_and!; [done | done |].
    intros y c' x (ey & my & Hy & Hmy & Hcy & [ex Hx])%edge_Some.
    apply edge_Some. destruct (Hdom x ex Hx) as (ex' & Hx' & _).
    destruct (decide (y = pr)) as [->|Hy'].
    + exists (set_contents (Some (<[c := n]> m)) pe), (<[c := n]> m).
      split_and!; [done | done | | by rewrite Hx'].
      assert (my = m) as -> by congruence.
      rewrite lookup_insert_ne; [done|]. congruence.
    + exists ey, my. rewrite Hother; [by rewrite Hx' | congruence | done].
  - apply edge_Some. exists (set_contents (Some (<[c := n]> m)) pe), (<[c := n]> m).
    split_and!; [done | done | apply lookup_insert_eq | by rewrite Hn'].
Qed.

(** What [makedir] does once it has the parent directory. *)
Definition makedir_leaf (parent_dir : ref) (dirname : Name)
    (allow_recreate : bool) : M unit :=
  let* m := contents_of parent_dir AttributeError in
  let dir_item := m !! dirname in
  match dir_item with
  | Some r =>
      let* e := load r in
      if isdir e then
        if negb allow_recreate then raise DestinationExistsError else ret tt
      else raise ResourceInvalidError
  | None => ret tt
  end ;;;
  match dir_item with
  | None =>
      let* new_dir := _make_dir_entry dir dirname in
      contents_set parent_dir dirname new_dir
  | Some _ => ret tt
  end.

Lemma wp_makedir_leaf_new s pr pe m c allow_recreate :
  entries s !! pr = Some pe → contents pe = Some m → m !! c = None →
  wp (makedir_leaf pr c allow_recreate)
     (λ _ s', s' = entered s pr pe m c (DirEntry_init dir c (clock s)))
     no_exn s.
Proof.
  intros Hpe Hm Hc. unfold makedir_leaf, contents_of.
  apply wp_bind, wp_bind. eapply wp_load; [exact Hpe|]. rewrite Hm.
  apply wp_ret. rewrite Hc. apply wp_bind, wp_ret.
  unfold _make_dir_entry. apply wp_bind, wp_bind, wp_now, wp_alloc.
  assert (entries s !! fresh (dom (entries s)) = None) as Hfresh.
  { apply not_elem_of_dom. apply is_fresh. }
  unfold contents_set, contents_of. apply wp_bind, wp_bind.
  eapply wp_load.
  { simpl. rewrite lookup_insert_ne by congruence. exact Hpe. }
  rewrite Hm. apply wp_ret. eapply wp_update.
  { simpl. rewrite lookup_insert_ne by congruence. exact Hpe. }
  done.
Qed.

Lemma makedir_leaf_existing s pr pe m c n e allow_recreate :
  entries s !! pr = Some pe → contents pe = Some m → m !! c = Some n →
  entries s !! n = Some e →
  makedir_leaf pr c allow_recreate s
  = (if isdir e
     then if allow_recreate then Ok tt else Raise DestinationExistsError
     else Raise ResourceInvalidError, s).
Proof.
  intros Hpe Hm Hc He. unfold makedir_leaf, contents_of, bind.
  rewrite (load_ok _ _ _ Hpe), Hm. simpl. rewrite Hc.
  rewrite (load_ok _ _ _ He). by destruct (isdir e), allow_recreate.
Qed.

Lemma isdir_at s p n e :
  get_dir_entry s p = Some n → entries s !! n = Some e →
  MemoryFS_isdir p s = (Ok (isdir e), s) ∧
  MemoryFS_isfile p s = (Ok (isfile e), s).
Proof.
  intros Hn He.
  unfold MemoryFS_isdir, MemoryFS_isfile, _get_dir_entry, gets, bind, normpath.
  rewrite Hn, (load_ok _ _ _ He). done.
Qed.

(** X10: [makedir], not recursive, of a name that its parent directory
    does not have: it returns; the path resolves afterwards to a new entry,
    a directory without children made at the time of the call, so that
    [isdir] is true of it and [isfile] false; and every path that resolved
    resolves to the same entry as before. *)
Theorem makedir_creates s p m allow_recreate :
  p ≠ [] → directory_at s (pathsplit p).1 m → m !! (pathsplit p).2 = None →
  ∃ s' n,
    makedir p false allow_recreate s = (Ok tt, s') ∧
    entries s !! n = None ∧
    get_dir_entry s' p = Some n ∧
    entries s' !! n = Some (DirEntry_init dir (pathsplit p).2 (clock s)) ∧
    MemoryFS_isdir p s' = (Ok true, s') ∧
    MemoryFS_isfile p s' = (Ok false, s') ∧
    (∀ q r, get_dir_entry s q = Some r → get_dir_entry s' q = Some r).
Proof.
  intros Hp (pr & pe & Hpr & Hpe & Hty & Hm) Hc.
  destruct (exists_last Hp) as (q & c & ->). rewrite pathsplit_snoc in *.
  simpl in *.
  set (e0 := DirEntry_init dir c (clock s)).
  destruct (entered_spec s pr pe m c e0 Hpe Hm Hc)
    as (Hg & Hfresh & Hne & Hn' & Hpr' & Hedge & _).
  set (n := fresh (dom (entries s))) in *.
  set (s' := entered s pr pe m c e0) in *.
  assert (get_dir_entry s' (q ++ [c]) = Some n) as Hres.
  { unfold get_dir_entry, iteratepath, normpath. rewrite walk_snoc.
    pose proof (grows_get_dir_entry _ _ _ _ Hg Hpr) as Hq.
    unfold get_dir_entry, iteratepath, normpath in Hq. rewrite Hq. done. }
  exists s', n. split_and!; try done.
  - assert (wp (makedir (q ++ [c]) false allow_recreate)
              (λ _ s1, s1 = s') no_exn s) as Hwp.
    { unfold makedir. rewrite bool_decide_eq_false_2 by done.
      rewrite pathsplit_snoc.
      apply wp_bind, wp_bind, wp_get_dir_entry. rewrite Hpr. apply wp_ret.
      by apply (wp_makedir_leaf_new s pr pe m c). }
    apply wp_returns in Hwp as ([] & s1 & Hrun & ->). exact Hrun.
  - by destruct (isdir_at s' _ n e0 Hres Hn').
  - by destruct (isdir_at s' _ n e0 Hres Hn').
  - intros q0 r. by apply grows_get_dir_entry.
Qed.

Lemma makedir_creates_witness :
  ∃ s' n,
    makedir ["d"; "e"] false false fs_with_dir = (Ok tt, s') ∧
    entries fs_with_dir !! n = None ∧
    get_dir_entry s' ["d"; "e"] = Some n ∧
    entries s' !! n = Some (DirEntry_init dir "e" (clock fs_with_dir)) ∧
    MemoryFS_isdir ["d"; "e"] s' = (Ok true, s') ∧
    MemoryFS_isfile ["d"; "e"] s' = (Ok false, s') ∧
    (∀ q r, get_dir_entry fs_with_dir q = Some r → get_dir_entry s' q = Some r).
Proof.
  apply (makedir_creates fs_with_dir ["d"; "e"] ∅ false).
  - discriminate.
  - exists 2%positive, (mkDirEntry dir "d" [] (Some ∅) None 0 1 1 1 ∅).
    vm_compute. split_and!; reflexivity.
  - reflexivity.
Defined.

(** The [makedir] that is not recursive does nothing before it has the
    parent directory. *)
Lemma makedir_plain_leaf s dp name pd allow_recreate :
  get_dir_entry s dp = Some pd →
  makedir (dp ++ [name]) false allow_recreate s
  = makedir_leaf pd name allow_recreate s.
Proof.
  intros Hpd. unfold makedir.
  rewrite bool_decide_eq_false_2 by (by destruct dp).
  rewrite pathsplit_snoc. unfold bind at 1 2, _get_dir_entry, gets.
  by rewrite Hpd.
Qed.

(** The recursive one, without [allow_recreate], looks up the name first. *)
Lemma makedir_recursive_name_taken s dp name pd pe m x :
  get_dir_entry s dp = Some pd → entries s !! pd = Some pe →
  type pe = dir → contents pe = Some m → m !! name = Some x →
  makedir (dp ++ [name]) true false s = (Raise DestinationExistsError, s).
Proof.
  intros Hpd Hpe Hty Hm Hc. unfold makedir.
  rewrite bool_decide_eq_false_2 by (by destruct dp).
  rewrite pathsplit_snoc. unfold bind at 1 2 3, _get_dir_entry, gets.
  rewrite Hpd. unfold bind at 1. rewrite (load_ok _ _ _ Hpe).
  unfold isfile. rewrite bool_decide_eq_false_2 by congruence. simpl.
  unfold bind at 1, contents_of, bind at 1. rewrite (load_ok _ _ _ Hpe), Hm.
  simpl. rewrite Hc. rewrite bool_decide_eq_true_2 by eauto. done.
Qed.

(** X11: [makedir] of a path whose last component names a child of its
    parent directory changes nothing.  Not recursive, it raises
    [DestinationExistsError] on a directory, or returns when
    [allow_recreate] is set, and raises [ResourceInvalidError] on a file.
    Recursive and without [allow_recreate], it raises
    [DestinationExistsError] whatever the child is: the name is looked up
    before the type. *)
Theorem makedir_existing s p n d k l e :
  p ≠ [] → file_state s p n d k l → entries s !! n = Some e →
  makedir p false false s
  = (Raise (if isdir e then DestinationExistsError else ResourceInvalidError), s) ∧
  makedir p false true s
  = (if isdir e then Ok tt else Raise ResourceInvalidError, s) ∧
  makedir p true false s = (Raise DestinationExistsError, s).
Proof.
  intros Hp (pr & pe & m & e' & Hpr & Hpe & Hty & Hm & Hc & He' & _) He.
  destruct (exists_last Hp) as (q & c & ->). rewrite pathsplit_snoc in *.
  simpl in *. split_and!.
  - rewrite (makedir_plain_leaf s q c pr false Hpr).
    rewrite (makedir_leaf_existing s pr pe m c n e false); try done.
    by destruct (isdir e).
  - rewrite (makedir_plain_leaf s q c pr true Hpr).
    by rewrite (makedir_leaf_existing s pr pe m c n e true).
  - by apply (makedir_recursive_name_taken s q c pr pe m n).
Qed.

Lemma makedir_existing_witness :
  makedir ["f"] false false fs_with_file = (Raise ResourceInvalidError, fs_with_file) ∧
  makedir ["f"] false true fs_with_file = (Raise ResourceInvalidError, fs_with_file) ∧
  makedir ["f"] true false fs_with_file = (Raise DestinationExistsError, fs_with_file).
Proof.
  apply (makedir_existing fs_with_file ["f"] 2%positive (Some []) 0 []
           (mkDirEntry file "f" [] None (Some []) 0 1 1 2 ∅)).
  - discriminate.
  - exists 1%positive, (root_with "f" 2%positive),
      {[ "f"%string := 2%positive ]},
      (mkDirEntry file "f" [] None (Some []) 0 1 1 2 ∅).
    vm_compute. split_and!; reflexivity.
  - vm_compute. reflexivity.
Defined.

(** *** The recursive [makedir] *)

(** From [r] the components [cs] lead to [y], through directories. *)
Fixpoint dir_chain (es : gmap ref DirEntry) (r : ref) (cs : list Name)
    (y : ref) : Prop :=
  match cs with
  | [] => y = r
  | c :: cs =>
      ∃ x e, edge es r c = Some x ∧ es !! x = Some e ∧ type e = dir
             ∧ dir_chain es x cs y
  end.

Lemma dir_chain_app es r cs1 cs2 z y :
  dir_chain es r cs1 z → dir_chain es z cs2 y → dir_chain es r (cs1 ++ cs2) y.
Proof.
  revert r. induction cs1 as [|c cs1 IH]; intros r; simpl.
  - by intros ->.
  - intros (x & e & Hx & He & Ht & Hc) H2. exists x, e. eauto.
Qed.

Lemma dir_chain_split es r cs1 cs2 y :
  dir_chain es r (cs1 ++ cs2) y →
  ∃ z, dir_chain es r cs1 z ∧ dir_chain es z cs2 y.
Proof.
  revert r. induction cs1 as [|c cs1 IH]; intros r; simpl.
  - intros H. by exists r.
  - intros (x & e & Hx & He & Ht & Hc). destruct (IH x Hc) as (z & H1 & H2).
    exists z. split; [|done]. by exists x, e.
Qed.

Lemma dir_chain_walk es r cs y :
  is_Some (es !! r) → dir_chain es r cs y → walk es r cs = Some y.
Proof.
  revert r. induction cs as [|c cs IH]; intros r Hr; simpl dir_chain.
  - intros ->. rewrite walk_nil. by rewrite decide_True.
  - intros (x & e & Hx & He & Ht & Hc). rewrite walk_cons, Hx. simpl.
    apply IH; [by rewrite He | done].
Qed.

Lemma dir_chain_grows s s' r cs y :
  grows s s' → dir_chain (entries s) r cs y → dir_chain (entries s') r cs y.
Proof.
  intros (_ & Hd & He). revert r. induction cs as [|c cs IH]; intros r; simpl.
  - done.
  - intros (x & e & Hx & Hex & Ht & Hc).
    destruct (Hd x e Hex) as (e' & Hex' & Ht').
    exists x, e'. split_and!; [by apply He | done | congruence | by apply IH].
Qed.

(** Every prefix of a chain, the empty one apart, resolves to a directory. *)
Lemma dir_chain_prefix es r cs y q :
  dir_chain es r cs y → q `prefix_of` cs → q ≠ [] →
  ∃ n e, walk es r q = Some n ∧ es !! n = Some e ∧ type e = dir.
Proof.
  intros Hc [rest ->] Hq. apply dir_chain_split in Hc as (z & Hc & _).
  destruct (exists_last Hq) as (q0 & c & ->).
  apply dir_chain_split in Hc as (z0 & H0 & (x & e & Hx & He & Ht & ->)).
  exists x, e. split_and!; [|done..].
  assert (is_Some (es !! r)) as Hr.
  { destruct q0 as [|a q0]; simpl in H0.
    - subst z0. apply edge_Some in Hx as (? & ? & -> & _). eauto.
    - destruct H0 as (? & ? & (? & ? & -> & _)%edge_Some & _). eauto. }
  rewrite walk_snoc, (dir_chain_walk es r q0 z0 Hr H0). done.
Qed.

Lemma dir_chain_of_prefixes es cs :
  ∀ r y,
    walk es r cs = Some y →
    (∀ q n e, q `prefix_of` cs → q ≠ [] → walk es r q = Some n →
              es !! n = Some e → type e = dir) →
    dir_chain es r cs y.
Proof.
  induction cs as [|c cs IH]; intros r y Hw Hdirs.
  - rewrite walk_nil in Hw. case_decide; [|done]. simpl. congruence.
  - rewrite walk_cons in Hw.
    destruct (edge es r c) as [x|] eqn:Hx; [|done]. simpl in Hw.
    destruct (edge_allocated _ _ _ _ Hx) as [e He].
    assert (is_Some (es !! r)) as Hr.
    { apply edge_Some in Hx as (? & ? & -> & _). eauto. }
    exists x, e. split_and!; [done | done | |].
    + apply (Hdirs [c] x e); [| done | | done].
      * apply prefix_cons, prefix_nil.
      * rewrite walk_cons, Hx. change (walk es x [] = Some x).
        rewrite walk_nil. rewrite decide_True; eauto.
    + apply IH; [done|]. intros q n e' Hpre Hq Hwq He'.
      apply (Hdirs (c :: q) n e'); [by apply prefix_cons | done | | done].
      rewrite walk_cons, Hx. done.
Qed.

(** The first loop goes along a chain of directories, and stops at its end
    or at the first name that is missing. *)
Lemma makedir_check_along s cs1 :
  ∀ r y cs2,
    dir_chain (entries s) r cs1 y →
    match cs2 with
    | [] => True
    | c :: _ => ∃ e m, entries s !! y = Some e ∧ contents e = Some m
                       ∧ m !! c = None
    end →
    makedir_check (cs1 ++ cs2) r s = (Ok tt, s).
Proof.
  induction cs1 as [|a cs1 IH]; intros r y cs2; simpl dir_chain.
  - intros -> H2. destruct cs2 as [|c cs2]; [done|].
    destruct H2 as (e & m & He & Hm & Hc). simpl.
    unfold contents_of, bind. rewrite (load_ok _ _ _ He), Hm. simpl.
    by rewrite Hc.
  - intros (x & e & Hx & He & Ht & Hc) H2.
    pose proof Hx as (er & mr & Her & Hmr & Ha & _)%edge_Some.
    simpl. unfold contents_of, bind at 1 2. rewrite (load_ok _ _ _ Her), Hmr.
    simpl. rewrite Ha. unfold bind at 1. rewrite (load_ok _ _ _ He).
    unfold isdir. rewrite bool_decide_eq_true_2 by done. simpl.
    by apply IH with y.
Qed.

(** The second loop goes along the chain that there is. *)
Lemma makedir_create_along s cs1 :
  ∀ r y cs2,
    dir_chain (entries s) r cs1 y →
    makedir_create (cs1 ++ cs2) r s = makedir_create cs2 y s.
Proof.
  induction cs1 as [|a cs1 IH]; intros r y cs2; simpl dir_chain.
  - by intros ->.
  - intros (x & e & Hx & He & Ht & Hc).
    pose proof Hx as (er & mr & Her & Hmr & Ha & _)%edge_Some.
    simpl. unfold contents_of, bind at 1 2. rewrite (load_ok _ _ _ Her), Hmr.
    simpl. rewrite Ha. by apply IH.
Qed.

(** From a directory that lacks the first name, the second loop makes a
    chain of new directories. *)
Lemma makedir_create_new cs :
  ∀ r s e m,
    entries s !! r = Some e → contents e = Some m →
    match cs with [] => True | c :: _ => m !! c = None end →
    wp (makedir_create cs r)
       (λ y s', grows s s' ∧ files s' = files s ∧
                dir_chain (entries s') r cs y ∧
                ∃ ey my, entries s' !! y = Some ey ∧ contents ey = Some my ∧
                         match cs with [] => my = m | _ => my = ∅ end)
       no_exn s.
Proof.
  induction cs as [|c cs IH]; intros r s e m He Hm Hc.
  - apply wp_ret. split_and!; [apply grows_refl | done | done |].
    by exists e, m.
  - simpl makedir_create. unfold contents_of.
    apply wp_bind, wp_bind. eapply wp_load; [exact He|]. rewrite Hm.
    apply wp_ret. rewrite Hc.
    set (e0 := DirEntry_init dir c (clock s)).
    destruct (entered_spec s r e m c e0 He Hm Hc)
      as (Hg & Hfresh & Hne & Hn' & Hr' & Hedge & _).
    set (n := fresh (dom (entries s))) in *.
    set (s2 := entered s r e m c e0) in *.
    unfold _make_dir_entry. apply wp_bind, wp_bind, wp_now, wp_alloc.
    unfold contents_set, contents_of. apply wp_bind, wp_bind, wp_bind.
    eapply wp_load.
    { simpl. rewrite lookup_insert_ne by exact Hne. exact He. }
    rewrite Hm. apply wp_ret. eapply wp_update.
    { simpl. rewrite lookup_insert_ne by exact Hne. exact He. }
    change (wp (makedir_create cs n)
              (λ y s', grows s s' ∧ files s' = files s ∧
                 dir_chain (entries s') r (c :: cs) y ∧
                 ∃ ey my, entries s' !! y = Some ey ∧ contents ey = Some my ∧
                          my = ∅) no_exn s2).
    eapply wp_conseq; [apply (IH n s2 e0 ∅ Hn' eq_refl) | | done].
    { by destruct cs. }
    intros y s' (Hg' & Hf' & Hchain & ey & my & Hy & Hmy & Hcase).
    split_and!.
    + by apply grows_trans with s2.
    + by rewrite Hf'.
    + destruct Hg' as (_ & Hd' & He').
      destruct (Hd' n e0 Hn') as (e0' & Hn'' & Ht').
      exists n, e0'. split_and!; [by apply He' | done | by rewrite Ht' | done].
    + exists ey, my. split_and!; [done | done |].
      destruct cs; [|done]. simpl in Hchain. subst y.
      by subst my.
Qed.

Lemma wp_same_run {A} (m m' : M A) Q E s :
  m s = m' s → wp m' Q E s → wp m Q E s.
Proof. unfold wp. by intros ->. Qed.

Lemma walk_start_allocated es r p n : walk es r p = Some n → is_Some (es !! r).
Proof. destruct p; simpl; destruct (es !! r); eauto; done. Qed.

Lemma dir_chain_removelast es r cs y :
  dir_chain es r cs y → ∃ z, dir_chain es r (removelast cs) z.
Proof.
  destruct (decide (cs = [])) as [->|Hne]; [by exists y|].
  destruct (exists_last Hne) as (cs0 & c & ->). rewrite removelast_last.
  intros (z & Hz & _)%dir_chain_split. by exists z.
Qed.

(** X12: the recursive [makedir] makes what is missing.  When a prefix [q]
    of the path resolves through directories to a directory that has no
    child named by the next component [c], [makedir] returns, with or
    without [allow_recreate]; afterwards every prefix of the path, and the
    path itself, resolves to a directory; every path that resolved resolves
    to the same entry as before; and no handle has changed. *)
Theorem makedir_recursive_creates s q c rest pd pe m allow_recreate :
  get_dir_entry s q = Some pd → entries s !! pd = Some pe →
  contents pe = Some m → m !! c = None →
  (∀ q' n e, q' `prefix_of` q → get_dir_entry s q' = Some n →
             entries s !! n = Some e → type e = dir) →
  ∃ s',
    makedir (q ++ c :: rest) true allow_recreate s = (Ok tt, s') ∧
    (∀ q', q' `prefix_of` (q ++ c :: rest) →
           ∃ n e, get_dir_entry s' q' = Some n ∧ entries s' !! n = Some e
                  ∧ type e = dir) ∧
    MemoryFS_isdir (q ++ c :: rest) s' = (Ok true, s') ∧
    (∀ q' n, get_dir_entry s q' = Some n → get_dir_entry s' q' = Some n) ∧
    files s' = files s.
Proof.
  intros Hq Hpe Hm Hc Hdirs.
  assert (c :: rest ≠ []) as Hne by done.
  destruct (exists_last Hne) as (rd & name & Hrd).
  assert (q ++ c :: rest = (q ++ rd) ++ [name]) as Hp.
  { by rewrite Hrd, app_assoc. }
  pose proof Hq as Hwq. unfold get_dir_entry, iteratepath, normpath in Hwq.
  destruct (walk_start_allocated _ _ _ _ Hwq) as [er Her].
  assert (get_dir_entry s [] = Some (root s)) as Hroot.
  { unfold get_dir_entry, iteratepath, normpath. rewrite walk_nil.
    rewrite decide_True; eauto. }
  assert (type er = dir) as Hter.
  { apply (Hdirs [] (root s) er); [apply prefix_nil | done | done]. }
  assert (type pe = dir) as Htpe by (by apply (Hdirs q pd pe)).
  assert (dir_chain (entries s) (root s) q pd) as Hchain.
  { apply dir_chain_of_prefixes; [done|].
    intros q' n e Hpre _ Hw He. by apply (Hdirs q' n e). }
  (* what the two loops and the tests before them do *)
  assert (wp (makedir (q ++ c :: rest) true allow_recreate)
            (λ _ s', ∃ s1 y ey my,
               grows s s1 ∧ files s1 = files s ∧
               dir_chain (entries s1) pd rd y ∧
               entries s1 !! y = Some ey ∧ contents ey = Some my ∧
               my !! name = None ∧
               s' = entered s1 y ey my name (DirEntry_init dir name (clock s1)))
            no_exn s) as Hwp.
  { unfold makedir. rewrite bool_decide_eq_false_2 by (by destruct q).
    rewrite Hp, pathsplit_snoc. unfold iteratepath, normpath.
    apply wp_bind, wp_bind, wp_get_dir_entry.
    (* the tests on the parent *)
    apply wp_bind.
    apply wp_conseq with (Q := λ _ s1, s1 = s) (E := no_exn); [| |done].
    { destruct rd as [|c' rd'].
      - rewrite app_nil_r, Hq. apply wp_bind. eapply wp_load; [exact Hpe|].
        unfold isfile. rewrite bool_decide_eq_false_2 by congruence.
        destruct allow_recreate; simpl; [by apply wp_ret|].
        unfold contents_of. apply wp_bind, wp_bind.
        eapply wp_load; [exact Hpe|]. rewrite Hm. apply wp_ret.
        simpl in Hrd. injection Hrd as -> ->. rewrite Hc.
        rewrite bool_decide_eq_false_2; [by apply wp_ret|]. by intros [? ?].
      - assert (get_dir_entry s (q ++ c' :: rd') = None) as ->; [|by apply wp_ret].
        unfold get_dir_entry, iteratepath, normpath. rewrite walk_app, Hwq.
        change (walk (entries s) pd (c' :: rd') = None).
        rewrite walk_cons. unfold edge. rewrite Hpe. simpl. rewrite Hm. simpl.
        simpl in Hrd. injection Hrd as -> _. by rewrite Hc. }
    intros [] ? ->. apply wp_bind, wp_gets.
    (* the first loop *)
    apply wp_bind.
    assert (makedir_check (removelast (q ++ rd)) (root s) s = (Ok tt, s)) as Hcheck.
    { destruct rd as [|c' rd'].
      - rewrite app_nil_r.
        destruct (dir_chain_removelast _ _ _ _ Hchain) as (z & Hz).
        rewrite <- (app_nil_r (removelast q)).
        by apply (makedir_check_along s (removelast q) (root s) z []).
      - rewrite removelast_app by done.
        simpl in Hrd. injection Hrd as -> Hrest.
        apply (makedir_check_along s q (root s) pd); [done|].
        simpl. destruct rd'; [done|]. by exists pe, m. }
    eapply wp_of_run; [exact Hcheck|].
    (* the second loop *)
    apply (wp_same_run _ (makedir_create rd pd));
      [by apply makedir_create_along|].
    eapply wp_conseq;
      [apply (makedir_create_new rd pd s pe m Hpe Hm) | | done].
    { destruct rd as [|c' rd']; [done|].
      simpl in Hrd. injection Hrd as -> _. done. }
    intros y s1 (Hg & Hf & Hch & ey & my & Hy & Hmy & Hcase). simpl.
    assert (my !! name = None) as Hname.
    { destruct rd as [|c' rd'].
      - simpl in Hrd. injection Hrd as -> _. by subst my.
      - subst my. apply lookup_empty. }
    eapply wp_conseq;
      [apply (wp_makedir_leaf_new s1 y ey my name allow_recreate Hy Hmy Hname)
      | | done].
    intros [] s' ->. by exists s1, y, ey, my. }
  apply wp_returns_unit in Hwp
    as (s' & Hrun & s1 & y & ey & my & Hg & Hf & Hch & Hy & Hmy & Hname & ->).
  destruct (entered_spec s1 y ey my name
              (DirEntry_init dir name (clock s1)) Hy Hmy Hname)
    as (Hg' & Hfresh & Hny & Hn' & _ & Hedge & _).
  set (n := fresh (dom (entries s1))) in *.
  set (s' := entered s1 y ey my name _) in *.
  assert (grows s s') as Hgs by (by apply grows_trans with s1).
  assert (dir_chain (entries s') (root s) (q ++ c :: rest) n) as Hfull.
  { rewrite Hrd. apply dir_chain_app with pd.
    - by apply (dir_chain_grows s s').
    - apply dir_chain_app with y.
      + by apply (dir_chain_grows s1 s').
      + simpl. exists n, (DirEntry_init dir name (clock s1)). done. }
  assert (∀ q', q' `prefix_of` (q ++ c :: rest) →
                ∃ n e, get_dir_entry s' q' = Some n
                       ∧ entries s' !! n = Some e ∧ type e = dir) as Hall.
  { intros q' Hpre. destruct (decide (q' = [])) as [->|Hq'].
    - pose proof Hgs as (Hr & Hd & _).
      destruct (Hd _ _ Her) as (er' & Her' & Ht').
      exists (root s), er'. split_and!; [|done|congruence].
      by apply (grows_get_dir_entry s s').
    - destruct (dir_chain_prefix _ _ _ _ q' Hfull Hpre Hq')
        as (n0 & e0 & Hw0 & He0 & Ht0).
      exists n0, e0. split_and!; [|done..].
      unfold get_dir_entry, iteratepath, normpath.
      pose proof Hgs as (-> & _). done. }
  exists s'. split_and!; [done | done | | |].
  - destruct (Hall (q ++ c :: rest)) as (n0 & e0 & Hn0 & He0 & Ht0); [done|].
    destruct (isdir_at s' _ n0 e0 Hn0 He0) as [-> _].
    unfold isdir. by rewrite bool_decide_eq_true_2.
  - intros q' n0. by apply grows_get_dir_entry.
  - by rewrite <- Hf.
Qed.

Lemma prefix_of_singleton {A} (q : list A) (a : A) :
  q `prefix_of` [a] → q = [] ∨ q = [a].
Proof.
  intros [k Hk]. destruct q as [|b [|b' q]]; [by left | right | done].
  by injection Hk as ->.
Qed.

Lemma makedir_recursive_creates_witness :
  ∃ s',
    makedir (["d"] ++ "x" :: ["y"]) true false fs_with_dir = (Ok tt, s') ∧
    (∀ q', q' `prefix_of` (["d"] ++ "x" :: ["y"]) →
           ∃ n e, get_dir_entry s' q' = Some n ∧ entries s' !! n = Some e
                  ∧ type e = dir) ∧
    MemoryFS_isdir (["d"] ++ "x" :: ["y"]) s' = (Ok true, s') ∧
    (∀ q' n, get_dir_entry fs_with_dir q' = Some n → get_dir_entry s' q' = Some n) ∧
    files s' = files fs_with_dir.
Proof.
  apply (makedir_recursive_creates fs_with_dir ["d"] "x" ["y"] 2%positive
           (mkDirEntry dir "d" [] (Some ∅) None 0 1 1 1 ∅) ∅ false).
  - vm_compute. reflexivity.
  - vm_compute. reflexivity.
  - reflexivity.
  - reflexivity.
  - intros q' n e [->| ->]%prefix_of_singleton Hn He;
      vm_compute in Hn; injection Hn as <-;
      vm_compute in He; injection He as <-; reflexivity.
Defined.

(** X13: [makedir] a second time.  On a path every prefix of which
    resolves to a directory, as after a [makedir] that has returned,
    [makedir] changes nothing, recursive or not: it returns with
    [allow_recreate], and raises [DestinationExistsError] without. *)
Theorem makedir_again s p recursive :
  p ≠ [] →
  (∀ q, q `prefix_of` p →
        ∃ n e, get_dir_entry s q = Some n ∧ entries s !! n = Some e
               ∧ type e = dir) →
  makedir p recursive true s = (Ok tt, s) ∧
  makedir p recursive false s = (Raise DestinationExistsError, s).
Proof.
  intros Hp Hall. destruct (exists_last Hp) as (dp & name & ->).
  destruct (Hall (dp ++ [name])) as (n & e & Hn & He & Ht); [done|].
  destruct (Hall dp) as (pd & pe & Hpd & Hpe & Htpe); [by apply prefix_app_r|].
  assert (dir_chain (entries s) (root s) (dp ++ [name]) n) as Hchain.
  { apply dir_chain_of_prefixes; [done|].
    intros q n0 e0 Hpre _ Hw He0.
    destruct (Hall q Hpre) as (n1 & e1 & Hn1 & He1 & Ht1).
    unfold get_dir_entry, iteratepath, normpath in Hn1. congruence. }
  apply dir_chain_split in Hchain as (z & Hdp & Hlast).
  assert (z = pd) as ->.
  { pose proof Hpd as Hw. unfold get_dir_entry, iteratepath, normpath in Hw.
    rewrite (dir_chain_walk _ _ _ z (walk_start_allocated _ _ _ _ Hw) Hdp) in Hw.
    congruence. }
  destruct Hlast as (x & ex & Hx & Hex & _ & Heq). simpl in Heq. subst x.
  pose proof Hx as (pe' & m & Hpe' & Hm & Hc & _)%edge_Some.
  assert (pe' = pe) as -> by congruence.
  assert (isdir e = true) as Hdir.
  { unfold isdir. by apply bool_decide_eq_true_2. }
  split.
  2: { destruct recursive.
       - by apply (makedir_recursive_name_taken s dp name pd pe m n).
       - rewrite (makedir_plain_leaf s dp name pd false Hpd).
         by rewrite (makedir_leaf_existing s pd pe m name n e false), Hdir. }
  destruct recursive.
  2: { rewrite (makedir_plain_leaf s dp name pd true Hpd).
       by rewrite (makedir_leaf_existing s pd pe m name n e true), Hdir. }
  unfold makedir. rewrite bool_decide_eq_false_2 by done.
  rewrite pathsplit_snoc. unfold iteratepath, normpath.
  unfold bind at 1 2 3, _get_dir_entry, gets. rewrite Hpd.
  unfold bind at 1. rewrite (load_ok _ _ _ Hpe).
  unfold isfile. rewrite bool_decide_eq_false_2 by congruence. simpl.
  unfold bind at 1.
  destruct (dir_chain_removelast _ _ _ _ Hdp) as (z & Hz).
  pose proof (makedir_check_along s (removelast dp) (root s) z [] Hz I) as Hcheck.
  rewrite app_nil_r in Hcheck. unfold bind at 1. rewrite Hcheck.
  pose proof (makedir_create_along s dp (root s) pd [] Hdp) as Hcreate.
  rewrite app_nil_r in Hcreate. unfold bind at 1. rewrite Hcreate.
  change (makedir_leaf pd name true s = (Ok tt, s)).
  rewrite (makedir_leaf_existing s pd pe m name n e true Hpe Hm Hc He).
  unfold isdir. by rewrite bool_decide_eq_true_2.
Qed.

Lemma makedir_again_witness :
  makedir ["d"] true true fs_with_dir = (Ok tt, fs_with_dir) ∧
  makedir ["d"] true false fs_with_dir = (Raise DestinationExistsError, fs_with_dir).
Proof.
  apply (makedir_again fs_with_dir ["d"] true).
  - discriminate.
  - intros q [->| ->]%prefix_of_singleton.
    + exists 1%positive, (root_with "d" 2%positive).
      vm_compute. split_and!; reflexivity.
    + exists 2%positive, (mkDirEntry dir "d" [] (Some ∅) None 0 1 1 1 ∅).
      vm_compute. split_and!; reflexivity.
Defined.

(** ** [remove] and [removedir] of an entry that is not locked *)

Lemma edge_delete_other (es : gmap ref DirEntry) pr pe m c y c' :
  es !! pr = Some pe → contents pe = Some m →
  ¬ (y = pr ∧ c' = c) →
  edge (<[pr := set_contents (Some (delete c m)) pe]> es) y c' = edge es y c'.
Proof.
  intros Hpr Hm Hne. apply option_eq. intros x. rewrite !edge_Some.
  setoid_rewrite (is_Some_insert_same es pr pe _ x Hpr).
  destruct (decide (pr = y)) as [->|Hy].
  - rewrite lookup_insert_eq, Hpr.
    assert (c' ≠ c) as Hc by (intros ->; by apply Hne).
    split.
    + intros (? & m' & [= <-] & [= <-] & Hl & Ha). exists pe, m.
      rewrite lookup_delete_ne in Hl by done. done.
    + intros (? & m' & [= <-] & Hm' & Hl & Ha).
      exists (set_contents (Some (delete c m)) pe), (delete c m).
      assert (m' = m) as -> by congruence.
      rewrite lookup_delete_ne by done. done.
  - by rewrite lookup_insert_ne.
Qed.

(** The state after the child named [c] has been taken out of the
    directory [pr]. *)
Definition unlinked (s : MemoryFS) (pr : ref) (pe : DirEntry)
    (m : gmap Name ref) (c : Name) : MemoryFS :=
  set_entries (<[pr := set_contents (Some (delete c m)) pe]> (entries s)) s.

(** The path of the child resolves no more; what resolves resolved before,
    to the same entry; and what resolved without going through the child
    resolves as before. *)
Lemma unlinked_spec s q c pr pe m n :
  get_dir_entry s q = Some pr →
  entries s !! pr = Some pe → contents pe = Some m → m !! c = Some n →
  let s' := unlinked s pr pe m c in
  get_dir_entry s' (q ++ [c]) = None ∧
  (∀ q0 r, get_dir_entry s' q0 = Some r → get_dir_entry s q0 = Some r) ∧
  (∀ q0 r, get_dir_entry s q0 = Some r →
           (∀ q', q' `prefix_of` q0 → get_dir_entry s q' ≠ Some n) →
           get_dir_entry s' q0 = Some r).
Proof.
  intros Hq Hpe Hm Hc s'. split_and!.
  - by apply (get_dir_entry_deleted s s' q c pr pe m).
  - intros q0 r. unfold get_dir_entry, s', unlinked. simpl.
    apply walk_sub.
    + intros x. by rewrite (is_Some_insert_same _ pr pe).
    + intros ???. by apply edge_delete_sub.
  - intros q0 r Hr Hoff. unfold get_dir_entry, s', unlinked in *. simpl.
    apply (walk_along (entries s)); [| exact Hr |].
    + intros x. by rewrite (is_Some_insert_same _ pr pe).
    + intros q1 y c' x Hy Hx Hpre.
      rewrite (edge_delete_other _ pr pe m c y c' Hpe Hm); [done|].
      intros [-> ->]. apply (Hoff (q1 ++ [c]) Hpre).
      unfold iteratepath, normpath in *. rewrite walk_snoc, Hy. simpl.
      pose proof Hx as (pe' & m' & Hpe' & Hm' & Hc' & _)%edge_Some.
      assert (x = n) as -> by congruence. done.
Qed.

(** X14: [remove] of a file that is not locked.  It returns, and all it
    does is to take the name out of the parent directory: the path resolves
    no more, every path that resolves afterwards resolved before to the
    same entry, every path that resolved without going through the file
    resolves as before, and no handle has changed. *)
Theorem remove_file s p n d k l e :
  p ≠ [] → file_state s p n d k l → entries s !! n = Some e →
  type e = file → ¬ (k > 0)%Z →
  ∃ pr pe m s',
    get_dir_entry s (pathsplit p).1 = Some pr ∧
    entries s !! pr = Some pe ∧ contents pe = Some m ∧
    s' = unlinked s pr pe m (pathsplit p).2 ∧
    remove p s = (Ok tt, s') ∧
    get_dir_entry s' p = None ∧
    exists_ p s' = (Ok false, s') ∧
    (∀ q r, get_dir_entry s' q = Some r → get_dir_entry s q = Some r) ∧
    (∀ q r, get_dir_entry s q = Some r →
            (∀ q', q' `prefix_of` q → get_dir_entry s q' ≠ Some n) →
            get_dir_entry s' q = Some r) ∧
    files s' = files s.
Proof.
  intros Hp Hfs He Ht Hk.
  pose proof (file_state_resolves _ _ _ _ _ _ Hp Hfs) as Hn.
  destruct Hfs as (pr & pe & m & e' & Hpr & Hpe & Hty & Hm & Hc & He' & _ & Hk' & _).
  assert (e' = e) as -> by congruence.
  destruct (exists_last Hp) as (q & c & ->). rewrite pathsplit_snoc in *.
  simpl in *.
  destruct (unlinked_spec s q c pr pe m n Hpr Hpe Hm Hc) as (Hgone & Hsub & Hframe).
  exists pr, pe, m, (unlinked s pr pe m c). split_and!; try done.
  - assert (wp (remove (q ++ [c])) (λ _ s', s' = unlinked s pr pe m c) no_exn s)
      as Hwp.
    { unfold remove. apply wp_bind, wp_get_dir_entry. rewrite Hn.
      apply wp_bind. eapply wp_load; [exact He|]. apply wp_bind.
      unfold islocked. rewrite bool_decide_eq_false_2 by (by rewrite Hk').
      apply wp_ret. apply wp_bind. eapply wp_load; [exact He|].
      unfold isdir. rewrite bool_decide_eq_false_2 by congruence.
      rewrite pathsplit_snoc.
      apply wp_bind, wp_get_dir_entry. rewrite Hpr. apply wp_bind, wp_ret.
      by apply (wp_contents_del s pr pe m c n). }
    apply wp_returns_unit in Hwp as (s' & Hrun & ->). exact Hrun.
  - unfold exists_, _get_dir_entry, gets, bind. rewrite Hgone. reflexivity.
Qed.

Lemma remove_file_witness :
  ∃ pr pe m s',
    get_dir_entry fs_with_file (pathsplit ["f"]).1 = Some pr ∧
    entries fs_with_file !! pr = Some pe ∧ contents pe = Some m ∧
    s' = unlinked fs_with_file pr pe m (pathsplit ["f"]).2 ∧
    remove ["f"] fs_with_file = (Ok tt, s') ∧
    get_dir_entry s' ["f"] = None ∧
    exists_ ["f"] s' = (Ok false, s') ∧
    (∀ q r, get_dir_entry s' q = Some r → get_dir_entry fs_with_file q = Some r) ∧
    (∀ q r, get_dir_entry fs_with_file q = Some r →
            (∀ q', q' `prefix_of` q → get_dir_entry fs_with_file q' ≠ Some 2%positive) →
            get_dir_entry s' q = Some r) ∧
    files s' = files fs_with_file.
Proof.
  apply (remove_file fs_with_file ["f"] 2%positive (Some []) 0 []
           (mkDirEntry file "f" [] None (Some []) 0 1 1 2 ∅)).
  - discriminate.
  - exists 1%positive, (root_with "f" 2%positive),
      {[ "f"%string := 2%positive ]},
      (mkDirEntry file "f" [] None (Some []) 0 1 1 2 ∅).
    vm_compute. split_and!; reflexivity.
  - vm_compute. reflexivity.
  - reflexivity.
  - lia.
Defined.

(** X15: [removedir], not recursive, on a path that names a child of its
    parent directory.  A locked entry gives [ResourceLockedError], a file
    [ResourceInvalidError], a directory with children
    [DirectoryNotEmptyError] unless [force] is set, and each of these leaves
    the state as it is.  Otherwise [removedir] returns, and all it does is
    to take the name out of the parent directory: the path resolves no
    more, nor does any path below it; what resolves afterwards resolved
    before; the entries below and the handles open on them are left as they
    are. *)
Theorem removedir_plain s p n d k l e force :
  p ≠ [] → file_state s p n d k l → entries s !! n = Some e →
  ∃ pr pe m s',
    get_dir_entry s (pathsplit p).1 = Some pr ∧
    entries s !! pr = Some pe ∧ contents pe = Some m ∧
    s' = unlinked s pr pe m (pathsplit p).2 ∧
    removedir p false force s =
      (if islocked e then (Raise ResourceLockedError, s)
       else if negb (isdir e) then (Raise ResourceInvalidError, s)
       else if nonempty (contents e) && negb force
            then (Raise DirectoryNotEmptyError, s)
            else (Ok tt, s')) ∧
    (∀ q, get_dir_entry s' (p ++ q) = None) ∧
    (∀ q r, get_dir_entry s' q = Some r → get_dir_entry s q = Some r) ∧
    (∀ q r, get_dir_entry s q = Some r →
            (∀ q', q' `prefix_of` q → get_dir_entry s q' ≠ Some n) →
            get_dir_entry s' q = Some r) ∧
    files s' = files s ∧
    (∀ x, x ≠ pr → entries s' !! x = entries s !! x).
Proof.
  intros Hp Hfs He.
  pose proof (file_state_resolves _ _ _ _ _ _ Hp Hfs) as Hn.
  destruct Hfs as (pr & pe & m & e' & Hpr & Hpe & Hty & Hm & Hc & He' & _).
  assert (e' = e) as -> by congruence.
  destruct (exists_last Hp) as (q & c & ->). rewrite pathsplit_snoc in *.
  simpl in *.
  destruct (unlinked_spec s q c pr pe m n Hpr Hpe Hm Hc) as (Hgone & Hsub & Hframe).
  exists pr, pe, m, (unlinked s pr pe m c). split_and!; try done.
  - unfold removedir. unfold bind at 1, _get_dir_entry at 1, gets. rewrite Hn.
    unfold bind at 1. rewrite (load_ok _ _ _ He).
    destruct (islocked e); [done|]. destruct (isdir e); [|done]. cbn [negb].
    destruct (nonempty (contents e) && negb force); [done|].
    rewrite pathsplit_snoc. unfold bind at 1, _get_dir_entry, gets. rewrite Hpr.
    unfold bind at 1. simpl.
    destruct (proj1 (wp_returns _ _ _) (wp_contents_del s pr pe m c n Hpe Hm Hc))
      as ([] & s' & Hrun & ->).
    exact Hrun.
  - intros q0. unfold get_dir_entry, iteratepath, normpath in *.
    rewrite walk_app, Hgone. done.
  - intros x Hx. unfold unlinked. simpl. by rewrite lookup_insert_ne.
Qed.

(** The directory [d] with the file [f] in it, open for writing. *)
Definition fs_dir_with_open_file : MemoryFS :=
  (open ["d"; "f"] "w" fs_with_dir).2.

Lemma removedir_plain_witness :
  ∃ pr pe m s',
    get_dir_entry fs_dir_with_open_file (pathsplit ["d"]).1 = Some pr ∧
    entries fs_dir_with_open_file !! pr = Some pe ∧ contents pe = Some m ∧
    s' = unlinked fs_dir_with_open_file pr pe m (pathsplit ["d"]).2 ∧
    removedir ["d"] false true fs_dir_with_open_file = (Ok tt, s') ∧
    (∀ q, get_dir_entry s' (["d"] ++ q) = None) ∧
    (∀ q r, get_dir_entry s' q = Some r →
            get_dir_entry fs_dir_with_open_file q = Some r) ∧
    (∀ q r, get_dir_entry fs_dir_with_open_file q = Some r →
            (∀ q', q' `prefix_of` q →
                   get_dir_entry fs_dir_with_open_file q' ≠ Some 2%positive) →
            get_dir_entry s' q = Some r) ∧
    files s' = files fs_dir_with_open_file ∧
    (∀ x, x ≠ pr → entries s' !! x = entries fs_dir_with_open_file !! x).
Proof.
  destruct (removedir_plain fs_dir_with_open_file ["d"] 2%positive None 0 []
              (mkDirEntry dir "d" [] (Some {[ "f"%string := 3%positive ]}) None 0 1 1 1 ∅)
              true)
    as (pr & pe & m & s' & H1 & H2 & H3 & H4 & H5 & H6 & H7 & H8 & H9 & H10).
  - discriminate.
  - exists 1%positive, (root_with "d" 2%positive),
      {[ "d"%string := 2%positive ]},
      (mkDirEntry dir "d" [] (Some {[ "f"%string := 3%positive ]}) None 0 1 1 1 ∅).
    vm_compute. split_and!; reflexivity.
  - vm_compute. reflexivity.
  - exists pr, pe, m, s'. split_and!; [exact H1 | exact H2 | exact H3 | exact H4
      | exact H5 | exact H6 | exact H7 | exact H8 | exact H9 | exact H10].
Defined.

(** ** [open], by mode *)

Lemma wp_and {A} (m : M A) (Q1 Q2 : A → MemoryFS → Prop)
    (E1 E2 : exn → MemoryFS → Prop) s :
  wp m Q1 E1 s → wp m Q2 E2 s →
  wp m (λ a s', Q1 a s' ∧ Q2 a s') (λ x s', E1 x s' ∧ E2 x s') s.
Proof. unfold wp. by destruct (m s) as [[a|x] s']. Qed.

(** [open] in a mode with [w] and without [r] and [a], where the directory
    has no child of that name: the entry made is a file. *)
Lemma wp_open_create_file s p md pr pe m :
  p ≠ [] →
  get_dir_entry s (pathsplit p).1 = Some pr →
  entries s !! pr = Some pe → type pe = dir → contents pe = Some m →
  m !! (pathsplit p).2 = None →
  char_in "r" md || char_in "a" md = false → char_in "w" md = true →
  wp (open p md)
     (λ oh s', ∃ h n e,
        oh = Some h ∧ entries s !! n = None ∧
        file_state s' p n None 1 [h] ∧
        entries s' !! n = Some e ∧ type e = file ∧ contents e = None ∧
        files s' !! h = Some (MemoryFile_init p None md))
     no_exn s.
Proof.
  intros Hp Hpr Hpe Hty Hm Hc Hmd Hw.
  pose proof (λ s' e0, file_state_created s s' p pr pe m e0 Hpr Hpe Hty Hm Hc)
    as Hcreated.
  unfold open.
  destruct (pathsplit p) as [filepath filename] eqn:Hsplit. simpl in *.
  apply wp_bind, wp_get_dir_entry. rewrite Hpr.
  apply wp_bind. eapply wp_load; [exact Hpe|].
  unfold isdir. rewrite bool_decide_eq_true_2 by done. simpl. rewrite Hmd, Hw.
  apply wp_bind. unfold contents_of. apply wp_bind. eapply wp_load; [exact Hpe|].
  rewrite Hm. apply wp_ret. rewrite Hc.
  apply wp_bind, wp_bind. unfold _make_dir_entry.
  apply wp_bind, wp_now. set (s1 := set_clock _ s).
  apply wp_alloc. set (n := fresh _). set (s2 := set_entries _ s1).
  assert (entries s !! n = None) as Hfresh.
  { apply not_elem_of_dom. apply is_fresh. }
  assert (n ≠ pr) as Hne by congruence.
  apply wp_bind. unfold contents_set. apply wp_bind. unfold contents_of.
  apply wp_bind. eapply wp_load.
  { simpl. rewrite lookup_insert_ne by done. exact Hpe. }
  rewrite Hm. apply wp_ret. eapply wp_update.
  { simpl. rewrite lookup_insert_ne by done. exact Hpe. }
  set (s3 := set_entries _ s2). apply wp_ret.
  set (e0 := DirEntry_init file filename (clock s)).
  assert (file_state s3 p n None 0 []) as Hfs3.
  { by apply (Hcreated s3 e0). }
  assert (entries s3 !! n = Some e0) as Hn3.
  { simpl. rewrite lookup_insert_ne by done. apply lookup_insert_eq. }
  apply wp_bind. eapply wp_load; [exact Hn3|]. simpl.
  eapply wp_conseq.
  - apply wp_and.
    + apply (wp_open_entry s3 p md n None 0 [] (ret None) None); [done | done |].
      intros s0 _. by apply wp_ret.
    + apply (keeps_open_entry same_tree same_tree_refl same_tree_trans
               same_tree_clock same_tree_attr same_tree_file
               same_tree_new_file p md n (ret None)).
      intros s0. by apply wp_ret.
  - intros oh s' [(h & -> & Hfs & Hh) Hst].
    destruct (same_tree_lookup _ _ _ _ Hst Hn3) as (e' & He' & Ht' & Hc').
    exists h, n, e'. split_and!; done.
  - by intros x s' [[] _].
Qed.

(** X16: [open] of a name that the parent directory does not have.  In a
    mode with [r] or [a] it raises [ResourceNotFoundError]; otherwise, in a
    mode with [w], it makes a file and returns a handle on it, after which
    [isfile] is true of the path and [isdir] false; in a mode with none of
    the three letters it returns no handle and raises nothing.  In the
    first and the last case nothing changes. *)
Theorem open_missing_name s p md m :
  p ≠ [] → directory_at s (pathsplit p).1 m → m !! (pathsplit p).2 = None →
  if char_in "r" md || char_in "a" md
  then open p md s = (Raise ResourceNotFoundError, s)
  else if char_in "w" md
  then ∃ h n s',
         open p md s = (Ok (Some h), s') ∧ entries s !! n = None ∧
         file_state s' p n None 1 [h] ∧
         MemoryFS_isfile p s' = (Ok true, s') ∧
         MemoryFS_isdir p s' = (Ok false, s')
  else open p md s = (Ok None, s).
Proof.
  intros Hp (pr & pe & Hpr & Hpe & Hty & Hm) Hc.
  destruct (char_in "r" md || char_in "a" md) eqn:Hra;
    [|destruct (char_in "w" md) eqn:Hw].
  - unfold open. destruct (pathsplit p) as [filepath filename]. simpl in *.
    unfold bind at 1, _get_dir_entry, gets. rewrite Hpr.
    unfold bind at 1. rewrite (load_ok _ _ _ Hpe).
    unfold isdir. rewrite bool_decide_eq_true_2 by done. cbn [negb]. rewrite Hra.
    unfold bind at 1, contents_of, bind at 1. rewrite (load_ok _ _ _ Hpe), Hm.
    cbn [ret]. by rewrite Hc.
  - destruct (proj1 (wp_returns _ _ _)
                (wp_open_create_file s p md pr pe m Hp Hpr Hpe Hty Hm Hc Hra Hw))
      as (oh & s' & Hrun & h & n & e & -> & Hnew & Hfs & He & Ht & _).
    exists h, n, s'. split_and!; [done | done | done | |].
    + destruct (isdir_at s' p n e (file_state_resolves _ _ _ _ _ _ Hp Hfs) He)
        as [_ ->].
      unfold isfile. by rewrite bool_decide_eq_true_2.
    + destruct (isdir_at s' p n e (file_state_resolves _ _ _ _ _ _ Hp Hfs) He)
        as [-> _].
      unfold isdir. rewrite bool_decide_eq_false_2; [done | congruence].
  - unfold open. destruct (pathsplit p) as [filepath filename]. simpl in *.
    unfold bind at 1, _get_dir_entry, gets. rewrite Hpr.
    unfold bind at 1. rewrite (load_ok _ _ _ Hpe).
    unfold isdir. rewrite bool_decide_eq_true_2 by done. cbn [negb].
    by rewrite Hra, Hw.
Qed.

Lemma open_missing_name_witness :
  (open ["f"] "r" MemoryFS_init = (Raise ResourceNotFoundError, MemoryFS_init)) ∧
  (∃ h n s',
     open ["f"] "w" MemoryFS_init = (Ok (Some h), s') ∧
     entries MemoryFS_init !! n = None ∧
     file_state s' ["f"] n None 1 [h] ∧
     MemoryFS_isfile ["f"] s' = (Ok true, s') ∧
     MemoryFS_isdir ["f"] s' = (Ok false, s')) ∧
  (open ["f"] "x" MemoryFS_init = (Ok None, MemoryFS_init)).
Proof.
  assert (directory_at MemoryFS_init (pathsplit ["f"]).1 ∅) as Hdir.
  { exists 1%positive, (DirEntry_init dir "root" 0).
    vm_compute. split_and!; reflexivity. }
  split_and!.
  - exact (open_missing_name MemoryFS_init ["f"] "r" ∅
             ltac:(discriminate) Hdir eq_refl).
  - exact (open_missing_name MemoryFS_init ["f"] "w" ∅
             ltac:(discriminate) Hdir eq_refl).
  - exact (open_missing_name MemoryFS_init ["f"] "x" ∅
             ltac:(discriminate) Hdir eq_refl).
Defined.

(** X17: an entry that is locked, as a file is while a handle is open on
    it.  [open] in a mode with [a], or with [w] and without [r], raises
    [ResourceLockedError] and changes nothing; [open] in a mode with [r] and
    without [a] returns one more handle, and the lock count goes up by
    one. *)
Theorem open_locked s p md n d k l :
  p ≠ [] → file_state s p n d k l → (k > 0)%Z →
  (char_in "a" md = true ∨ (char_in "r" md = false ∧ char_in "w" md = true) →
   open p md s = (Raise ResourceLockedError, s)) ∧
  (char_in "r" md = true → char_in "a" md = false →
   ∃ h s', open p md s = (Ok (Some h), s')
           ∧ file_state s' p n d (k + 1) (l ++ [h])).
Proof.
  intros Hp Hfs Hk. split.
  - intros Hmd. apply wp_raises_eq.
    destruct Hfs as (pr & pe & m & e & Hpr & Hpe & Hty & Hm & Hc & He & _ & Hke & _).
    unfold open. destruct (pathsplit p) as [filepath filename]. simpl in *.
    apply wp_bind, wp_get_dir_entry. rewrite Hpr.
    apply wp_bind. eapply wp_load; [exact Hpe|].
    unfold isdir. rewrite bool_decide_eq_true_2 by done. cbn [negb].
    assert (islocked e = true) as Hlocked.
    { unfold islocked. apply bool_decide_eq_true_2. by rewrite Hke. }
    destruct (char_in "a" md) eqn:Ha.
    + rewrite orb_true_r. unfold contents_of.
      apply wp_bind, wp_bind. eapply wp_load; [exact Hpe|]. rewrite Hm.
      apply wp_ret. rewrite Hc. apply wp_bind, wp_bind.
      eapply wp_load; [exact He|]. rewrite Hlocked. by apply wp_raise.
    + destruct Hmd as [?|[Hr Hw]]; [done|]. rewrite Hr, Hw. simpl.
      unfold contents_of.
      apply wp_bind, wp_bind. eapply wp_load; [exact Hpe|]. rewrite Hm.
      apply wp_ret. rewrite Hc. apply wp_bind, wp_ret, wp_bind.
      eapply wp_load; [exact He|]. rewrite Hlocked. by apply wp_raise.
  - intros Hr Ha.
    destruct (proj1 (wp_returns _ _ _)
                (wp_open_existing s p md n d k l Hp Hfs
                   ltac:(by rewrite Hr) ltac:(by rewrite Ha)))
      as (oh & s1 & Hopen & h & -> & Hfs1 & _).
    eauto.
Qed.

Lemma open_locked_witness :
  (open ["f"] "w" fs_f_open = (Raise ResourceLockedError, fs_f_open)) ∧
  (∃ h s', open ["f"] "r" fs_f_open = (Ok (Some h), s')
           ∧ file_state s' ["f"] 2%positive None (1 + 1) ([1%positive] ++ [h])).
Proof.
  assert (file_state fs_f_open ["f"] 2%positive None 1 [1%positive]) as Hfs.
  { exists 1%positive, (root_with "f" 2%positive),
      {[ "f"%string := 2%positive ]},
      (mkDirEntry file "f" [1%positive] None None 1 1 1 2 ∅).
    vm_compute. split_and!; reflexivity. }
  split.
  - apply (open_locked fs_f_open ["f"] "w" 2%positive None 1 [1%positive]
             ltac:(discriminate) Hfs ltac:(lia)).
    right. split; reflexivity.
  - apply (open_locked fs_f_open ["f"] "r" 2%positive None 1 [1%positive]
             ltac:(discriminate) Hfs ltac:(lia)); reflexivity.
Defined.

(** ** A handle after [close] *)

Lemma wp_bind_any {A B} (m : M A) (k : A → M B) (Q : B → MemoryFS → Prop) s :
  (∀ a s', wp (k a) Q any_exn s') → wp (bind m k) Q any_exn s.
Proof.
  intros Hk. apply wp_bind. unfold wp at 1.
  destruct (m s) as [[a|x] s']; [apply Hk | done].
Qed.

(** A [close] that returns leaves the handle closed, and its buffer too when
    the handle was not closed before. *)
Lemma wp_close_closed s h :
  wp (MemoryFile_close h)
     (λ _ s', ∃ f f',
        files s !! h = Some f ∧ files s' !! h = Some f' ∧ closed f' = true ∧
        (closed f = false → sio_closed (mem_file f') = true) ∧
        (closed f = true → s' = s))
     any_exn s.
Proof.
  unfold MemoryFile_close. apply wp_bind, wp_load_file_any. intros f Hf.
  destruct (closed f) eqn:Hcl; simpl.
  - apply wp_ret. exists f, f. split_and!; [done | done | done | congruence | done].
  - apply wp_with_mem_file_any. intros f0 Hf0 Hc0.
    apply wp_bind_any. intros [] s1.
    apply wp_bind, wp_update_file_any. intros f1 Hf1.
    apply wp_update_file_any. intros f2 Hf2. simpl in Hf2.
    rewrite lookup_insert_eq in Hf2. injection Hf2 as <-.
    exists f, (set_closed true (set_mem_file (StringIO.close (mem_file f1)) f1)).
    split_and!; [done | | done | done | congruence]. simpl. apply lookup_insert_eq.
Qed.

(** X18: [close] a second time.  When [close] has returned, [close] on the
    same handle returns again and changes nothing. *)
Theorem close_twice s h s1 :
  MemoryFile_close h s = (Ok tt, s1) → MemoryFile_close h s1 = (Ok tt, s1).
Proof.
  intros Hrun.
  destruct (wp_returned _ _ _ _ _ (wp_close_closed s h) Hrun)
    as (f & f' & _ & Hf' & Hcl & _).
  unfold MemoryFile_close, bind. rewrite (load_file_ok _ _ _ Hf'), Hcl. done.
Qed.

Lemma close_twice_witness :
  MemoryFile_close 1%positive fs_with_file = (Ok tt, fs_with_file).
Proof.
  apply (close_twice fs_f_open 1%positive fs_with_file).
  vm_compute. reflexivity.
Defined.

(** X19: a handle that has been closed.  When [close] has returned on a
    handle that was not closed, [read], [seek], [tell] and [flush] on it
    raise [ValueError] and change nothing, and [write] raises and returns
    nothing: [ValueError], or [AttributeError] when the path of the handle
    resolves no more or its buffer has no [write]. *)
Theorem closed_handle s h f s1 :
  files s !! h = Some f → closed f = false →
  MemoryFile_close h s = (Ok tt, s1) →
  (∀ size, MemoryFile_read h size s1 = (Raise ValueError, s1)) ∧
  (∀ p whence, MemoryFile_seek h p whence s1 = (Raise ValueError, s1)) ∧
  MemoryFile_tell h s1 = (Raise ValueError, s1) ∧
  MemoryFile_flush h s1 = (Raise ValueError, s1) ∧
  (∀ b, ∃ x s2, MemoryFile_write h b s1 = (Raise x, s2)
                ∧ (x = ValueError ∨ x = AttributeError)).
Proof.
  intros Hf Hcl Hrun.
  destruct (wp_returned _ _ _ _ _ (wp_close_closed s h) Hrun)
    as (f0 & f' & Hf0 & Hf' & _ & Hc & _).
  assert (f0 = f) as -> by congruence. specialize (Hc Hcl).
  assert (∀ A (k : StringIO → M A),
            with_mem_file h k s1 = (Raise ValueError, s1)) as Hwith.
  { intros A k. unfold with_mem_file, bind.
    by rewrite (load_file_ok _ _ _ Hf'), Hc. }
  split_and!; try (intros; apply Hwith).
  intros b. apply wp_raises. unfold MemoryFile_write.
  apply wp_bind. eapply wp_load_file; [exact Hf'|].
  apply wp_bind. unfold _on_modify_memory_file.
  apply wp_bind, wp_get_dir_entry.
  destruct (get_dir_entry s1 (path f')) as [r|] eqn:Hr; [|apply wp_bind; by right].
  destruct (walk_allocated _ _ _ _ Hr) as [e He].
  apply wp_bind, wp_ret, wp_bind, wp_now. eapply wp_update; [exact He|].
  apply wp_bind. eapply wp_load_file; [exact Hf'|].
  destruct (writable (mem_file f')); [|apply wp_raise; by right].
  unfold with_mem_file. apply wp_bind. eapply wp_load_file; [exact Hf'|].
  rewrite Hc. apply wp_raise. by left.
Qed.

Lemma closed_handle_witness :
  (∀ size, MemoryFile_read 1%positive size fs_with_file
           = (Raise ValueError, fs_with_file)) ∧
  (∀ p whence, MemoryFile_seek 1%positive p whence fs_with_file
               = (Raise ValueError, fs_with_file)) ∧
  MemoryFile_tell 1%positive fs_with_file = (Raise ValueError, fs_with_file) ∧
  MemoryFile_flush 1%positive fs_with_file = (Raise ValueError, fs_with_file) ∧
  (∀ b, ∃ x s2, MemoryFile_write 1%positive b fs_with_file = (Raise x, s2)
                ∧ (x = ValueError ∨ x = AttributeError)).
Proof.
  apply (closed_handle fs_f_open 1%positive
           (mkMemoryFile false ["f"] "w" StringIO.new) fs_with_file).
  - vm_compute. reflexivity.
  - reflexivity.
  - vm_compute. reflexivity.
Defined.

(** ** What the readers of a file see *)

(** Reading in read mode gives the committed data, nothing when there is
    none. *)
Lemma read_session_any s p md n d k l :
  p ≠ [] → read_mode md = true →
  file_state s p n d k l →
  reads_back p md (default [] d) s.
Proof.
  intros Hp Hmd Hfs.
  pose proof Hmd as (Hr & Hw & Ha & Hplus)%read_mode_chars.
  destruct (proj1 (wp_returns _ _ _)
              (wp_open_existing s p md n d k l Hp Hfs
                 ltac:(by rewrite Hr) ltac:(by rewrite Ha)))
    as (oh & s1 & Hopen & h & -> & Hfs1 & Hh).
  rewrite MemoryFile_init_read in Hh by done.
  destruct (proj1 (wp_returns _ _ _) (wp_read_all s1 h _ Hh eq_refl))
    as (r & s2 & Hread & ->).
  by exists h, s1, s2.
Qed.

(** X20: bytes written to a handle are seen by the readers of the file
    from the [flush] on, and not before.  With a handle open on a file,
    whose buffer can be written (as it can for a handle made in a mode with
    [w], [a] or [+], and cannot for one made in read mode), [write] returns
    and leaves the committed data as it is: a reader still reads the old
    bytes; [flush] then returns and commits the buffer: a reader reads the
    buffer.  The lock count and the list of open files of the entry do not
    change, and the handle stays open. *)
Theorem flush_publishes s p n d k l h f b rmd :
  p ≠ [] → file_state s p n d k l →
  files s !! h = Some f → path f = p → sio_closed (mem_file f) = false →
  writable (mem_file f) = true →
  read_mode rmd = true →
  ∃ s1 s2,
    MemoryFile_write h b s = (Ok tt, s1) ∧
    file_state s1 p n d k l ∧
    reads_back p rmd (default [] d) s1 ∧
    MemoryFile_flush h s1 = (Ok tt, s2) ∧
    file_state s2 p n (Some (buf (StringIO.write (mem_file f) b))) k l ∧
    reads_back p rmd (buf (StringIO.write (mem_file f) b)) s2 ∧
    files s2 !! h = Some (set_mem_file (StringIO.write (mem_file f) b) f).
Proof.
  intros Hp Hfs Hf Hpath Hc Hwr Hrmd.
  destruct (file_state_entry _ _ _ _ _ _ Hfs) as (e & He & Hd & Hke & Hl).
  pose proof (file_state_resolves _ _ _ _ _ _ Hp Hfs) as Hn. rewrite <- Hpath in Hn.
  destruct (proj1 (wp_returns _ _ _) (wp_write_at s h f n e b Hf Hc Hwr Hn He))
    as ([] & s1 & Hwrite & Hs1).
  assert (file_state s1 p n d k l) as Hfs1.
  { rewrite <- Hd, <- Hke, <- Hl.
    eapply (file_state_update s s1 p n _ _ _ e (set_modified_time _ e));
      [done.. | by rewrite Hs1 | by rewrite Hs1]. }
  set (f1 := set_mem_file (StringIO.write (mem_file f) b) f).
  assert (files s1 !! h = Some f1) as Hf1.
  { rewrite Hs1. simpl. apply lookup_insert_eq. }
  destruct (file_state_entry _ _ _ _ _ _ Hfs1) as (e1 & He1 & Hd1 & Hke1 & Hl1).
  pose proof (file_state_resolves _ _ _ _ _ _ Hp Hfs1) as Hn1.
  assert (sio_closed (mem_file f1) = false) as Hc1.
  { simpl. unfold StringIO.write. by destruct b. }
  destruct (proj1 (wp_returns _ _ _)
              (wp_flush_at s1 h f1 n e1 Hf1 Hc1
                 ltac:(by rewrite <- Hpath in Hn1) He1))
    as ([] & s2 & Hflush & Hs2).
  assert (file_state s2 p n (Some (buf (mem_file f1))) k l) as Hfs2.
  { rewrite <- Hke1, <- Hl1.
    eapply (file_state_update s1 s2 p n _ _ _ e1
              (set_data (Some (buf (mem_file f1))) e1));
      [done.. | by rewrite Hs2 | by rewrite Hs2]. }
  exists s1, s2. split_and!; try done.
  - by apply (read_session_any s1 p rmd n d k l).
  - by apply (read_session_any s2 p rmd n (Some (buf (mem_file f1))) k l).
  - by rewrite Hs2.
Qed.

Lemma flush_publishes_witness :
  ∃ s1 s2,
    MemoryFile_write 1%positive [x68; x69] fs_f_open = (Ok tt, s1) ∧
    file_state s1 ["f"] 2%positive None 1 [1%positive] ∧
    reads_back ["f"] "r" [] s1 ∧
    MemoryFile_flush 1%positive s1 = (Ok tt, s2) ∧
    file_state s2 ["f"] 2%positive (Some [x68; x69]) 1 [1%positive] ∧
    reads_back ["f"] "r" [x68; x69] s2 ∧
    files s2 !! 1%positive
      = Some (mkMemoryFile false ["f"] "w" (mkStringIO [x68; x69] 2 false true)).
Proof.
  apply (flush_publishes fs_f_open ["f"] 2%positive None 1 [1%positive]
           1%positive (mkMemoryFile false ["f"] "w" StringIO.new)
           [x68; x69] "r").
  - discriminate.
  - exists 1%positive, (root_with "f" 2%positive),
      {[ "f"%string := 2%positive ]},
      (mkDirEntry file "f" [1%positive] None None 1 1 1 2 ∅).
    vm_compute. split_and!; reflexivity.
  - vm_compute. reflexivity.
  - reflexivity.
  - reflexivity.
  - reflexivity.
  - reflexivity.
Defined.

(** ** Several handles on one file *)

(** The handle that [open] returns is a new one, and the one change to the
    handles. *)
Lemma wp_open_entry_handle s0 s p md n (value : M (option bytes)) :
  files s = files s0 →
  (∀ s1, wp value (λ _ s2, files s2 = files s1) any_exn s1) →
  wp (open_entry p md n value)
     (λ oh s', ∀ h, oh = Some h →
                    files s0 !! h = None ∧ ∃ f, files s' = <[h := f]> (files s0))
     any_exn s.
Proof.
  intros Hfiles Hvalue. unfold open_entry.
  apply wp_bind, wp_now, wp_bind, wp_update_any. intros e He.
  apply wp_bind. unfold _lock_dir_entry.
  apply wp_bind, wp_get_dir_entry, wp_bind, wp_attr_of_any. intros r Hr.
  unfold lock. apply wp_update_any. intros e1 He1.
  apply wp_bind. eapply wp_conseq; [apply Hvalue | | done].
  intros v s2 Hs2. simpl in Hs2.
  apply wp_bind, wp_alloc_file, wp_bind, wp_update_any. intros e2 He2.
  apply wp_ret. intros h [= <-]. simpl. rewrite Hs2, Hfiles. split.
  - apply not_elem_of_dom, is_fresh.
  - eauto.
Qed.

Lemma wp_open_handle s p md :
  wp (open p md)
     (λ oh s', ∀ h, oh = Some h →
                    files s !! h = None ∧ ∃ f, files s' = <[h := f]> (files s))
     any_exn s.
Proof.
  unfold open. destruct (pathsplit p) as [filepath filename].
  apply wp_bind, wp_get_dir_entry.
  destruct (get_dir_entry s filepath) as [pr|]; [|done].
  apply wp_bind, wp_load_any. intros pe Hpe.
  destruct (negb (isdir pe)); [done|].
  destruct (char_in "r" md || char_in "a" md).
  - apply wp_bind, wp_contents_of_any. intros pe' m _ _.
    destruct (m !! filename) as [n|]; [|done].
    apply wp_bind.
    apply wp_conseq with (Q := λ _ s', s' = s) (E := any_exn); [| |done].
    + destruct (char_in "a" md); [|by apply wp_ret].
      apply wp_bind, wp_load_any. intros e He.
      destruct (islocked e); [done | by apply wp_ret].
    + intros [] ? ->. apply wp_open_entry_handle; [done|].
      intros s1. apply wp_bind, wp_load_any. intros e He. by apply wp_ret.
  - destruct (char_in "w" md); [|by apply wp_ret].
    apply wp_bind, wp_contents_of_any. intros pe' m _ _.
    apply wp_bind.
    apply wp_conseq with (Q := λ _ s', files s' = files s) (E := any_exn);
      [| |done].
    + destruct (m !! filename) as [n|]; [by apply wp_ret|].
      apply wp_bind. unfold _make_dir_entry. apply wp_bind, wp_now, wp_alloc.
      apply wp_bind, wp_contents_set_any. intros e0 m0 _ _. by apply wp_ret.
    + intros n s1 Hs1. simpl. apply wp_bind, wp_load_any. intros e He.
      destruct (islocked e); [done|].
      apply wp_open_entry_handle; [done|]. intros s2. by apply wp_ret.
Qed.

Lemma list_remove_other h l l' x :
  list_remove h l = Some l' → x ≠ h → x ∈ l → x ∈ l'.
Proof.
  revert l'. induction l as [|y l IH]; intros l'; simpl; [done|].
  case_decide as Hy.
  - intros [= <-] Hx [->|Hin]%elem_of_cons; [congruence | done].
  - destruct (list_remove h l) as [l0|]; [|done].
    intros [= <-] Hx [->|Hin]%elem_of_cons.
    + apply elem_of_cons. by left.
    + apply elem_of_cons. right. by apply IH.
Qed.

(** Closing an open handle of the file commits its buffer and gives one
    lock back. *)
Lemma close_on s p n d k l h f :
  p ≠ [] → file_state s p n d k l →
  files s !! h = Some f → path f = p → closed f = false →
  sio_closed (mem_file f) = false → h ∈ l → (1 ≤ k)%Z →
  ∃ s' l',
    MemoryFile_close h s = (Ok tt, s') ∧
    list_remove h l = Some l' ∧
    file_state s' p n (Some (buf (mem_file f))) (k - 1) l' ∧
    files s' = <[h := closed_file f]> (files s).
Proof.
  intros Hp Hfs Hf Hpath Hcl Hc Hin Hk.
  destruct (file_state_entry _ _ _ _ _ _ Hfs) as (e & He & Hd & Hke & Hl).
  pose proof (file_state_resolves _ _ _ _ _ _ Hp Hfs) as Hn.
  destruct (list_remove_elem h l Hin) as [l' Hl'].
  destruct (proj1 (wp_returns _ _ _)
              (wp_close_at s h f n e l' Hf Hcl Hc
                 ltac:(by rewrite Hpath) He
                 ltac:(by rewrite Hl) ltac:(by rewrite Hke)))
    as ([] & s' & Hclose & Hs').
  exists s', l'. split_and!; [done | done | | by rewrite Hs'].
  rewrite <- Hke.
  eapply (file_state_update s s' p n _ _ _ e
            (set_locks (locks e - 1)
               (set_open_files l' (set_data (Some (buf (mem_file f))) e))));
    [done.. | by rewrite Hs' | by rewrite Hs'].
Qed.

(** X21: a file can be opened for reading any number of times.  On a file
    with a lock count that is not negative, two [open] in read mode return
    two handles that differ, and the lock count has gone up by two; closing
    the one and then the other returns, and gives each time one lock back,
    so that the lock count is in the end what it was.  The data of the file
    is then what the readers were given, no bytes where there was no
    data. *)
Theorem two_readers s p n d k l md :
  p ≠ [] → file_state s p n d k l → read_mode md = true → (0 ≤ k)%Z →
  ∃ h1 h2 s1 s2 s3 s4 l3 l4,
    open p md s = (Ok (Some h1), s1) ∧
    open p md s1 = (Ok (Some h2), s2) ∧
    h1 ≠ h2 ∧
    file_state s2 p n d (k + 2) (l ++ [h1; h2]) ∧
    MemoryFile_close h1 s2 = (Ok tt, s3) ∧
    file_state s3 p n (Some (default [] d)) (k + 1) l3 ∧
    MemoryFile_close h2 s3 = (Ok tt, s4) ∧
    file_state s4 p n (Some (default [] d)) k l4.
Proof.
  intros Hp Hfs Hmd Hk.
  pose proof Hmd as (Hr & Hw & Ha & Hplus)%read_mode_chars.
  destruct (proj1 (wp_returns _ _ _)
              (wp_open_existing s p md n d k l Hp Hfs
                 ltac:(by rewrite Hr) ltac:(by rewrite Ha)))
    as (oh & s1 & Hopen1 & h1 & -> & Hfs1 & Hh1).
  destruct (wp_returned _ _ _ _ _ (wp_open_handle s p md) Hopen1 h1 eq_refl)
    as (Hnew1 & f1 & Hfiles1).
  destruct (proj1 (wp_returns _ _ _)
              (wp_open_existing s1 p md n d (k + 1) (l ++ [h1]) Hp Hfs1
                 ltac:(by rewrite Hr) ltac:(by rewrite Ha)))
    as (oh & s2 & Hopen2 & h2 & -> & Hfs2 & Hh2).
  destruct (wp_returned _ _ _ _ _ (wp_open_handle s1 p md) Hopen2 h2 eq_refl)
    as (Hnew2 & f2 & Hfiles2).
  assert (h1 ≠ h2) as Hne by congruence.
  rewrite MemoryFile_init_read in Hh1, Hh2 by done.
  set (f := mkMemoryFile false p md (mkStringIO (default [] d) 0 false false)) in *.
  assert (files s2 !! h1 = Some f) as Hh1'.
  { rewrite Hfiles2. by rewrite lookup_insert_ne. }
  rewrite <- app_assoc in Hfs2. simpl in Hfs2.
  replace (k + 1 + 1)%Z with (k + 2)%Z in Hfs2 by lia.
  destruct (close_on s2 p n d (k + 2) (l ++ [h1; h2]) h1 f Hp Hfs2 Hh1')
    as (s3 & l3 & Hclose1 & Hl3 & Hfs3 & Hfiles3); try done.
  { apply elem_of_app. right. apply elem_of_cons. by left. }
  { lia. }
  assert (files s3 !! h2 = Some f) as Hh2'.
  { rewrite Hfiles3. by rewrite lookup_insert_ne. }
  replace (k + 2 - 1)%Z with (k + 1)%Z in Hfs3 by lia.
  destruct (close_on s3 p n (Some (default [] d)) (k + 1) l3 h2 f Hp Hfs3 Hh2')
    as (s4 & l4 & Hclose2 & Hl4 & Hfs4 & _); try done.
  { apply (list_remove_other h1 (l ++ [h1; h2])); [done | done |].
    apply elem_of_app. right. apply elem_of_cons. right.
    by apply list_elem_of_singleton. }
  { lia. }
  replace (k + 1 - 1)%Z with k in Hfs4 by lia.
  exists h1, h2, s1, s2, s3, s4, l3, l4. split_and!; done.
Qed.

Lemma two_readers_witness :
  ∃ h1 h2 s1 s2 s3 s4 l3 l4,
    open ["f"] "r" fs_with_file = (Ok (Some h1), s1) ∧
    open ["f"] "r" s1 = (Ok (Some h2), s2) ∧
    h1 ≠ h2 ∧
    file_state s2 ["f"] 2%positive (Some []) (0 + 2) ([] ++ [h1; h2]) ∧
    MemoryFile_close h1 s2 = (Ok tt, s3) ∧
    file_state s3 ["f"] 2%positive (Some (default [] (Some []))) (0 + 1) l3 ∧
    MemoryFile_close h2 s3 = (Ok tt, s4) ∧
    file_state s4 ["f"] 2%positive (Some (default [] (Some []))) 0 l4.
Proof.
  apply (two_readers fs_with_file ["f"] 2%positive (Some []) 0 [] "r").
  - discriminate.
  - exists 1%positive, (root_with "f" 2%positive),
      {[ "f"%string := 2%positive ]},
      (mkDirEntry file "f" [] None (Some []) 0 1 1 2 ∅).
    vm_compute. split_and!; reflexivity.
  - reflexivity.
  - lia.
Defined.

(** ** Modes with [+] *)

Lemma MemoryFile_init_plus p v md :
  char_in "+" md = true →
  MemoryFile_init p v md
  = mkMemoryFile false p md (mkStringIO (default [] v) 0 false true).
Proof.
  intros Hplus. unfold MemoryFile_init. rewrite Hplus. f_equal.
  unfold StringIO.seek, StringIO.write. simpl.
  by destruct (default [] v); simpl; rewrite ?app_nil_r.
Qed.

Lemma buf_write_start v b :
  buf (StringIO.write (mkStringIO v 0 false true) b) = b ++ drop (length b) v.
Proof. by destruct b. Qed.

(** X22: a mode with [+] next to [r] or [a] updates in place.  On a file
    that is not locked, with data [v], opening in such a mode, writing [b]
    and closing return, and the data is then [b] followed by what [v] has
    beyond the length of [b]: the handle starts at the beginning of the
    bytes of the file, with [a+] as with [r+]. *)
Theorem update_in_place s p n v l md b :
  p ≠ [] → file_state s p n (Some v) 0 l →
  char_in "+" md = true → char_in "r" md || char_in "a" md = true →
  ∃ s' l', session p md b s s'
           ∧ file_state s' p n (Some (b ++ drop (length b) v)) 0 l'.
Proof.
  intros Hp Hfs Hplus Hra.
  destruct (proj1 (wp_returns _ _ _)
              (wp_open_existing s p md n (Some v) 0 l Hp Hfs Hra ltac:(lia)))
    as (oh & s1 & Hopen & h & -> & Hfs1 & Hh).
  rewrite MemoryFile_init_plus in Hh by done.
  destruct (write_close s1 p n (Some v) 1 (l ++ [h]) h _ b Hp Hfs1 Hh)
    as (s2 & s3 & l' & Hwrite & Hclose & Hfs3); try done.
  { apply elem_of_app. right. by apply list_elem_of_singleton. }
  exists s3, l'. split; [by exists h, s1, s2|].
  simpl in Hfs3. by rewrite buf_write_start in Hfs3.
Qed.

Lemma update_in_place_witness :
  ∃ s' l', session ["f"] "a+" [x21] fs_written s'
           ∧ file_state s' ["f"] 2%positive
               (Some ([x21] ++ drop (length [x21]) [x68; x69])) 0 l'.
Proof.
  apply (update_in_place fs_written ["f"] 2%positive [x68; x69] [] "a+" [x21]).
  - discriminate.
  - exists 1%positive, (root_with "f" 2%positive),
      {[ "f"%string := 2%positive ]},
      (mkDirEntry file "f" [] None (Some [x68; x69]) 0 1 3 2 ∅).
    vm_compute. split_and!; reflexivity.
  - reflexivity.
  - reflexivity.
Defined.

(** ** [getinfo], [desc] and [settimes] *)

Lemma getinfo_at s p n e :
  get_dir_entry s p = Some n → entries s !! n = Some e →
  getinfo p s
  = (Ok (if isdir e
         then mkInfo (created_time e) (modified_time e) (accessed_time e)
                493 None
         else mkInfo (created_time e) (modified_time e) (accessed_time e)
                438 (Some (length (default [] (data e))))), s).
Proof.
  intros Hn He. unfold getinfo, _get_dir_entry, gets, bind.
  by rewrite Hn, (load_ok _ _ _ He).
Qed.

Lemma desc_at s p n e :
  get_dir_entry s p = Some n → entries s !! n = Some e →
  desc p s = (Ok (if isdir e then "Memory dir"%string
                  else "Memory file object"%string), s).
Proof.
  intros Hn He. destruct (isdir_at s p n e Hn He) as [Hd Hf].
  unfold desc, bind. rewrite Hd. destruct (isdir e) eqn:Hdir; [done|].
  rewrite Hf. unfold isdir, isfile in *.
  apply bool_decide_eq_false in Hdir.
  rewrite bool_decide_eq_true_2; [done|]. by destruct (type e).
Qed.

Lemma session_runs p md b s s' : session p md b s s' → runs s s'.
Proof.
  intros (h & s1 & s2 & Hopen & Hwrite & Hclose).
  pose proof (runs_step s s (Open p md) (runs_refl s)) as H1.
  simpl in H1. unfold bind in H1. rewrite Hopen in H1. simpl in H1.
  pose proof (runs_step s s1 (Write h b) H1) as H2.
  simpl in H2. rewrite Hwrite in H2. simpl in H2.
  pose proof (runs_step s s2 (Close h) H2) as H3.
  simpl in H3. rewrite Hclose in H3. exact H3.
Qed.

(** X23: what is reported of a file that has been written.  For a name
    that its parent directory does not have, or has for a file that is not
    locked, a session in write mode with the bytes [b] takes place, and
    afterwards [getinfo] reports the size of [b] and the mode [0666], and
    [desc] a file. *)
Theorem getinfo_written s p md b m :
  p ≠ [] → write_mode md = true →
  directory_at s (pathsplit p).1 m →
  match m !! (pathsplit p).2 with
  | None => True
  | Some n => ∃ e, entries s !! n = Some e ∧ locks e = 0%Z ∧ type e = file
  end →
  ∃ s' i,
    session p md b s s' ∧
    getinfo p s' = (Ok i, s') ∧
    info_size i = Some (length b) ∧ info_st_mode i = 438%Z ∧
    desc p s' = (Ok "Memory file object"%string, s').
Proof.
  intros Hp Hmd Hdir Hleaf.
  assert (free_leaf s (m !! (pathsplit p).2)) as Hfree.
  { destruct (m !! (pathsplit p).2); [|done].
    destruct Hleaf as (e & He & Hk & _). by exists e. }
  destruct (write_session s p md b m Hp Hmd Hdir Hfree)
    as (s' & n & l & Hsession & Hfs).
  pose proof (file_state_resolves _ _ _ _ _ _ Hp Hfs) as Hn.
  destruct (file_state_entry _ _ _ _ _ _ Hfs) as (e' & He' & Hd' & _).
  assert (type e' = file) as Ht'.
  { pose proof Hsession as (h & s1 & s2 & Hopen & Hwrite & Hclose).
    pose proof Hmd as (Hw & Hr & Ha & _)%write_mode_chars.
    destruct Hdir as (pr & pe & Hpr & Hpe & Hty & Hm).
    destruct (m !! (pathsplit p).2) as [n0|] eqn:Hc.
    - destruct Hleaf as (e & He & Hk & Ht).
      destruct (proj1 (wp_returns _ _ _)
                  (wp_open_truncate s p md n0 (data e) 0 (open_files e) Hp
                     ltac:(exists pr, pe, m, e; by rewrite Hk)
                     ltac:(by rewrite Hr, Ha) Hw ltac:(lia)))
        as (oh & s1' & Hopen' & h' & -> & Hfs1 & _).
      assert (s1' = s1) as -> by congruence.
      pose proof (file_state_resolves _ _ _ _ _ _ Hp Hfs1) as Hn1.
      pose proof (same_tree_get_dir_entry _ _ p
                    (same_tree_exec (Write h b) s1 I)) as Hw1.
      pose proof (same_tree_get_dir_entry _ _ p
                    (same_tree_exec (Close h) s2 I)) as Hw2.
      simpl in Hw1, Hw2. rewrite Hwrite in Hw1. rewrite Hclose in Hw2.
      simpl in Hw1, Hw2.
      assert (n0 = n) as -> by congruence.
      destruct (runs_evolves _ _ (session_runs _ _ _ _ _ Hsession))
        as (_ & Hold & _).
      destruct (Hold n e He) as (e'' & He'' & Ht'' & _). congruence.
    - destruct (proj1 (wp_returns _ _ _)
                  (wp_open_create_file s p md pr pe m Hp Hpr Hpe Hty Hm Hc
                     ltac:(by rewrite Hr, Ha) Hw))
        as (oh & s1' & Hopen' & h' & n1 & e1 & -> & Hnew & Hfs1 & He1 & Ht1 & _).
      assert (s1' = s1) as -> by congruence.
      pose proof (file_state_resolves _ _ _ _ _ _ Hp Hfs1) as Hn1.
      pose proof (same_tree_exec (Write h b) s1 I) as Hst1.
      pose proof (same_tree_exec (Close h) s2 I) as Hst2.
      simpl in Hst1, Hst2. rewrite Hwrite in Hst1. rewrite Hclose in Hst2.
      simpl in Hst1, Hst2.
      pose proof (same_tree_trans _ _ _ Hst1 Hst2) as Hst.
      rewrite <- (same_tree_get_dir_entry _ _ p Hst) in Hn1.
      assert (n1 = n) as -> by congruence.
      destruct (same_tree_lookup _ _ _ _ Hst He1) as (e'' & He'' & Ht'' & _).
      congruence. }
  assert (isdir e' = false) as Hdir'.
  { unfold isdir. apply bool_decide_eq_false_2. congruence. }
  eexists s', _. split_and!; [done | | | |].
  - rewrite (getinfo_at s' p n e' Hn He'), Hdir'. reflexivity.
  - simpl. by rewrite Hd'.
  - done.
  - by rewrite (desc_at s' p n e' Hn He'), Hdir'.
Qed.

Lemma getinfo_written_witness :
  ∃ s' i,
    session ["f"] "w" [x68; x69] fs_with_file s' ∧
    getinfo ["f"] s' = (Ok i, s') ∧
    info_size i = Some (length [x68; x69]) ∧ info_st_mode i = 438%Z ∧
    desc ["f"] s' = (Ok "Memory file object"%string, s').
Proof.
  apply (getinfo_written fs_with_file ["f"] "w" [x68; x69]
           {[ "f"%string := 2%positive ]}).
  - discriminate.
  - reflexivity.
  - exists 1%positive, (root_with "f" 2%positive).
    vm_compute. split_and!; reflexivity.
  - exists (mkDirEntry file "f" [] None (Some []) 0 1 1 2 ∅).
    vm_compute. split_and!; reflexivity.
Defined.

(** X24: [settimes] and what [getinfo] reports.  On a path that resolves,
    [settimes] returns true, and [getinfo] then reports the times given,
    the time of the call for one that is not given, and the time of
    creation, the mode and the size as before.  On a path that does not
    resolve [settimes] returns false and raises nothing, where [getinfo]
    raises [ResourceNotFoundError]. *)
Theorem settimes_getinfo s p a m :
  match get_dir_entry s p with
  | Some n =>
      ∃ s' i0 i,
        getinfo p s = (Ok i0, s) ∧
        settimes p a m s = (Ok true, s') ∧
        getinfo p s' = (Ok i, s') ∧
        info_accessed_time i = default (clock s) a ∧
        info_modified_time i = default (clock s) m ∧
        info_created_time i = info_created_time i0 ∧
        info_st_mode i = info_st_mode i0 ∧ info_size i = info_size i0
  | None =>
      settimes p a m s = (Ok false, set_clock (S (clock s)) s) ∧
      getinfo p s = (Raise ResourceNotFoundError, s)
  end.
Proof.
  destruct (get_dir_entry s p) as [n|] eqn:Hn.
  - destruct (walk_allocated _ _ _ _ Hn) as [e He].
    set (e' := set_modified_time (default (clock s) m)
                 (set_accessed_time (default (clock s) a) e)).
    set (s' := mkMemoryFS (root s) (<[n := e']> (entries s)) (files s)
                 (S (clock s))).
    assert (settimes p a m s = (Ok true, s')) as Hrun.
    { assert (wp (settimes p a m) (λ r s1, r = true ∧ s1 = s') no_exn s) as Hwp.
      { unfold settimes. apply wp_bind, wp_now, wp_bind, wp_get_dir_entry.
        assert (get_dir_entry (set_clock (S (clock s)) s) p = Some n) as ->
          by exact Hn.
        apply wp_bind. eapply wp_update; [exact He|].
        apply wp_bind. eapply wp_update; [apply lookup_insert_eq|].
        apply wp_ret. split; [done|]. unfold s', e'. simpl.
        by rewrite insert_insert_eq. }
      apply wp_returns in Hwp as (r & s1 & Hrun & -> & ->). exact Hrun. }
    assert (get_dir_entry s' p = Some n) as Hn'.
    { rewrite <- Hn. by apply (get_dir_entry_insert_same s s' n e e'). }
    assert (entries s' !! n = Some e') as He' by apply lookup_insert_eq.
    eexists s', _, _. split_and!.
    + apply (getinfo_at s p n e Hn He).
    + exact Hrun.
    + apply (getinfo_at s' p n e' Hn' He').
    + unfold isdir. simpl. by destruct (bool_decide (type e = dir)).
    + unfold isdir. simpl. by destruct (bool_decide (type e = dir)).
    + unfold isdir. simpl. by destruct (bool_decide (type e = dir)).
    + unfold isdir. simpl. by destruct (bool_decide (type e = dir)).
    + unfold isdir. simpl. by destruct (bool_decide (type e = dir)).
  - split.
    + unfold settimes, bind, now, _get_dir_entry, gets.
      assert (get_dir_entry (set_clock (S (clock s)) s) p = None) as ->
        by exact Hn.
      done.
    + unfold getinfo, bind, _get_dir_entry, gets. by rewrite Hn.
Qed.

(** ** What [rename] leaves alone *)

(** The paths that do not go through the entry that is moved resolve in the
    store of the renamed entries as they did. *)
Lemma renamed_keeps_walk (es1 es' : gmap ref DirEntry) sd dd moved sn dn sx
    r0 q r :
  (∀ y, es' !! y = renamed_entry sd dd moved sn dn sx y <$> es1 !! y) →
  is_Some (es1 !! moved) →
  (∃ e m, es1 !! dd = Some e ∧ contents e = Some m) →
  edge es1 sd sn = Some moved → edge es1 dd dn = None →
  walk es1 r0 q = Some r →
  (∀ q', q' `prefix_of` q → walk es1 r0 q' ≠ Some moved) →
  walk es' r0 q = Some r.
Proof.
  intros Hfinal Hmv Hdde Hsrc_edge Hdst_edge Hq Hoff.
  pose proof (edge_renamed es1 es' sd dd moved sn dn sx Hfinal Hmv Hdde) as Hedge.
  assert (∀ x, is_Some (es1 !! x) → is_Some (es' !! x)) as Hdom.
  { intros x. by rewrite Hfinal, fmap_is_Some. }
  apply (walk_along es1 es' Hdom q r0 r Hq).
  intros q' y c x Hq' Hyc Hpre. rewrite Hedge.
  rewrite decide_False.
  - rewrite decide_False; [done|]. intros [-> ->]. congruence.
  - intros [-> ->]. apply (Hoff (q' ++ [sn]) Hpre).
    rewrite walk_snoc, Hq'. simpl. congruence.
Qed.

(** X25: a [rename] that returns leaves every other path as it was: a
    path that resolved without going through the entry that is moved
    resolves afterwards to the same entry. *)
Theorem rename_frame s src dst n s' :
  src ≠ [] → get_dir_entry s src = Some n →
  rename src dst s = (Ok tt, s') →
  ∀ q r, get_dir_entry s q = Some r →
         (∀ q', q' `prefix_of` q → get_dir_entry s q' ≠ Some n) →
         get_dir_entry s' q = Some r.
Proof.
  intros Hsrc Hn Hrun q r Hq Hoff.
  destruct (wp_returned _ _ _ _ _ (wp_rename s src dst) Hrun)
    as (n0 & e0 & s1 & sd & dd & sde & moved & Hn0 & He0 & Hflush & Hsame & Hnil
        & Hdst1 & Hsd & Hdd & Hsde & (sm & Hsm & Hmoved) & Hdde & Hmv & Hroot
        & _ & Hfinal).
  assert (n0 = n) as -> by congruence.
  assert (∀ p, get_dir_entry s1 p = get_dir_entry s p) as Hgde.
  { intros p. by apply same_but_data_get_dir_entry. }
  assert (dst ≠ []) as Hdne.
  { intros ->. unfold pathsplit in Hdd. simpl in Hdd. congruence. }
  destruct (exists_last Hsrc) as (sq & sn & ->).
  destruct (exists_last Hdne) as (dq & dn & ->).
  rewrite !pathsplit_snoc in *. cbn [fst snd] in *.
  rewrite <- Hgde in Hq.
  unfold get_dir_entry, iteratepath, normpath in *. rewrite Hroot.
  assert (edge (entries s1) sd sn = Some n) as Hsrc_edge.
  { specialize (Hgde (sq ++ [sn])). rewrite Hn, walk_snoc, Hsd in Hgde. done. }
  assert (moved = n) as ->.
  { apply edge_Some in Hsrc_edge as (? & ? & ? & ? & ? & _). congruence. }
  assert (edge (entries s1) dd dn = None) as Hdst_edge.
  { rewrite walk_snoc, Hdd in Hdst1. done. }
  apply (renamed_keeps_walk (entries s1) (entries s') sd dd n sn dn
           (xattrs sde) (root s1) q r); try done.
  intros q' Hpre. rewrite Hgde. by apply Hoff.
Qed.

Lemma rename_frame_witness :
  get_dir_entry (rename ["d"; "f"] ["g"] fs_with_xattrs).2 ["d"]
  = Some 2%positive.
Proof.
  apply (rename_frame fs_with_xattrs ["d"; "f"] ["g"] 3%positive
           (rename ["d"; "f"] ["g"] fs_with_xattrs).2).
  - discriminate.
  - vm_compute. reflexivity.
  - vm_compute. reflexivity.
  - vm_compute. reflexivity.
  - intros q' [->| ->]%prefix_of_singleton; vm_compute; discriminate.
Defined.

(** ** A handle whose file is not in the tree any more *)

(** X26: a handle whose path resolves no more, as after [removedir] with
    [force] of the directory of its file.  [write] and [flush] raise
    [AttributeError]; [close] returns, and all it does is to close the
    handle: the bytes of its buffer are committed nowhere, and no entry
    gets a lock back. *)
Theorem orphaned_handle s h f :
  files s !! h = Some f → closed f = false → sio_closed (mem_file f) = false →
  get_dir_entry s (path f) = None →
  (∀ b, (MemoryFile_write h b s).1 = Raise AttributeError) ∧
  MemoryFile_flush h s = (Raise AttributeError, s) ∧
  MemoryFile_close h s
  = (Ok tt, set_files (<[h := closed_file f]> (files s)) s).
Proof.
  intros Hf Hcl Hc Hn. split_and!.
  - intros b. unfold MemoryFile_write, bind at 1.
    rewrite (load_file_ok _ _ _ Hf).
    unfold bind at 1, _on_modify_memory_file, bind at 1, _get_dir_entry, gets.
    by rewrite Hn.
  - unfold MemoryFile_flush. rewrite (with_mem_file_ok _ _ _ _ Hf Hc).
    unfold bind at 1. rewrite (load_file_ok _ _ _ Hf).
    unfold _on_flush_memory_file, bind at 1, _get_dir_entry, gets.
    by rewrite Hn.
  - unfold MemoryFile_close, bind at 1. rewrite (load_file_ok _ _ _ Hf), Hcl.
    cbn [negb]. rewrite (with_mem_file_ok _ _ _ _ Hf Hc).
    unfold bind at 1, _on_close_memory_file, bind at 1, _get_dir_entry, gets.
    rewrite Hn. cbn [ret]. unfold bind at 1.
    rewrite (update_file_ok _ _ _ _ Hf).
    rewrite (update_file_ok _ _ _ (set_mem_file (StringIO.close (mem_file f)) f));
      [|apply lookup_insert_eq].
    unfold closed_file, set_files. simpl. by rewrite insert_insert_eq.
Qed.

(** The directory [d] and the file in it are gone, the handle is there. *)
Definition fs_orphaned_handle : MemoryFS :=
  (removedir ["d"] false true fs_dir_with_open_file).2.

Lemma orphaned_handle_witness :
  (∀ b, (MemoryFile_write 1%positive b fs_orphaned_handle).1
        = Raise AttributeError) ∧
  MemoryFile_flush 1%positive fs_orphaned_handle
  = (Raise AttributeError, fs_orphaned_handle) ∧
  MemoryFile_close 1%positive fs_orphaned_handle
  = (Ok tt, set_files
              (<[1%positive := closed_file
                                 (mkMemoryFile false ["d"; "f"] "w" StringIO.new)]>
                 (files fs_orphaned_handle)) fs_orphaned_handle).
Proof.
  apply (orphaned_handle fs_orphaned_handle 1%positive
           (mkMemoryFile false ["d"; "f"] "w" StringIO.new)).
  - vm_compute. reflexivity.
  - reflexivity.
  - reflexivity.
  - vm_compute. reflexivity.
Defined.

(** ** Handles across a [rename] *)

(** Rules for a step on an entry that is known to be there. *)

Lemma wp_load_ex r (Q : DirEntry → MemoryFS → Prop) E s :
  is_Some (entries s !! r) →
  (∀ e, entries s !! r = Some e → Q e s) → wp (load r) Q E s.
Proof. intros [e He] HQ. eapply wp_load; [exact He | by apply HQ]. Qed.

Lemma wp_update_ex r f (Q : unit → MemoryFS → Prop) E s :
  is_Some (entries s !! r) →
  (∀ e, entries s !! r = Some e →
        Q tt (set_entries (<[r := f e]> (entries s)) s)) →
  wp (update r f) Q E s.
Proof. intros [e He] HQ. eapply wp_update; [exact He | by apply HQ]. Qed.

Lemma wp_contents_of_ex r x (Q : gmap Name ref → MemoryFS → Prop) E s :
  (∃ e m, entries s !! r = Some e ∧ contents e = Some m) →
  (∀ e m, entries s !! r = Some e → contents e = Some m → Q m s) →
  wp (contents_of r x) Q E s.
Proof.
  intros (e & m & He & Hm) HQ. unfold contents_of.
  apply wp_bind. eapply wp_load; [exact He|]. rewrite Hm.
  apply wp_ret. by apply (HQ e m).
Qed.

Lemma wp_contents_set_ex r k v (Q : unit → MemoryFS → Prop) E s :
  (∃ e m, entries s !! r = Some e ∧ contents e = Some m) →
  (∀ e m, entries s !! r = Some e → contents e = Some m →
          Q tt (set_entries
                  (<[r := set_contents (Some (<[k := v]> m)) e]> (entries s)) s)) →
  wp (contents_set r k v) Q E s.
Proof.
  intros (e & m & He & Hm) HQ. unfold contents_set.
  apply wp_bind, wp_contents_of_ex; [by exists e, m|]. intros e' m' He' Hm'.
  eapply wp_update; [exact He'|]. by apply HQ.
Qed.

Lemma wp_contents_del_ex r k (Q : unit → MemoryFS → Prop) E s :
  (∃ e m x, entries s !! r = Some e ∧ contents e = Some m ∧ m !! k = Some x) →
  (∀ e m x, entries s !! r = Some e → contents e = Some m → m !! k = Some x →
            Q tt (set_entries
                    (<[r := set_contents (Some (delete k m)) e]> (entries s)) s)) →
  wp (contents_del r k) Q E s.
Proof.
  intros (e & m & x & He & Hm & Hx) HQ. unfold contents_del.
  apply wp_bind, wp_contents_of_ex; [by exists e, m|]. intros e' m' He' Hm'.
  assert (m' = m) as -> by congruence. rewrite Hx.
  eapply wp_update; [exact He'|]. by apply (HQ e' m x).
Qed.

(** A [rename] returns when the handles of the source are in order, the
    destination does not resolve, and its parent resolves to an entry with
    children. *)
Lemma rename_returns s src dst n e :
  src ≠ [] → get_dir_entry s src = Some n → entries s !! n = Some e →
  NoDup (open_files e) → (∀ h, h ∈ open_files e → registered s n h) →
  get_dir_entry s dst = None →
  (∃ dd dde dm, get_dir_entry s (pathsplit dst).1 = Some dd
                ∧ entries s !! dd = Some dde ∧ contents dde = Some dm) →
  ∃ s', rename src dst s = (Ok tt, s').
Proof.
  intros Hne Hsrc He Hnd Hreg Hdst (dd & dde & dm & Hdd & Hdde & Hdm).
  cut (wp (rename src dst) (λ _ _, True) no_exn s).
  { intros (s' & Hrun & _)%wp_returns_unit. by exists s'. }
  destruct (exists_last Hne) as (sq & sn & ->).
  pose proof Hsrc as Hw. unfold get_dir_entry, iteratepath, normpath in Hw.
  rewrite walk_snoc in Hw.
  destruct (walk (entries s) (root s) sq) as [sd|] eqn:Hsd; [|done].
  simpl in Hw. pose proof Hw as (sde & sm & Hsde & Hsm & Hsn & _)%edge_Some.
  unfold rename. rewrite pathsplit_snoc.
  apply wp_bind, wp_get_dir_entry. rewrite Hsrc.
  apply wp_bind. eapply wp_load; [exact He|].
  apply wp_bind.
  eapply wp_conseq; [by apply (rename_flush_spec n dst (open_files e) s e) | | done].
  intros [] s1 (_ & Hroot & (e' & Hes1 & He' & _ & _) & _ & _).
  assert (contents e' = contents e) as Hce by (by rewrite He').
  assert (∀ p, get_dir_entry s1 p = get_dir_entry s p) as Hres.
  { intros p. by apply (get_dir_entry_insert_same s s1 n e e'). }
  assert (∀ y ye, entries s !! y = Some ye →
                  ∃ ye', entries s1 !! y = Some ye' ∧ contents ye' = contents ye)
    as Hkeep.
  { intros y ye Hy. rewrite Hes1. destruct (decide (n = y)) as [->|Hny].
    - rewrite lookup_insert_eq. exists e'. split; [done|]. congruence.
    - rewrite lookup_insert_ne by done. by exists ye. }
  destruct (Hkeep sd sde Hsde) as (sde1 & Hsde1 & Hcs).
  destruct (Hkeep dd dde Hdde) as (dde1 & Hdde1 & Hcd).
  destruct (Hkeep n e He) as (e1 & He1 & _).
  rewrite Hsm in Hcs. rewrite Hdm in Hcd.
  destruct (pathsplit dst) as [dq dn]. simpl in Hdd.
  apply wp_bind, wp_get_dir_entry. rewrite Hres, Hdst.
  apply wp_bind, wp_get_dir_entry. rewrite Hres.
  assert (get_dir_entry s sq = Some sd) as -> by exact Hsd.
  apply wp_bind, wp_ret. apply wp_bind. eapply wp_load; [exact Hsde1|].
  apply wp_bind, wp_get_dir_entry. rewrite Hres, Hdd.
  apply wp_bind, wp_contents_of_ex; [by exists sde1, sm|].
  intros sde1' sm' Hsde1' Hsm'.
  assert (sm' = sm) as -> by congruence. rewrite Hsn.
  apply wp_bind, wp_contents_set_ex; [by exists dde1, dm|].
  intros dde1' dm' Hdde1' Hdm'.
  assert (dm' = dm) as -> by congruence.
  set (s2 := set_entries _ s1).
  assert (∀ y, entries s2 !! y =
               (λ e0, if decide (y = dd)
                      then set_contents (insert dn n <$> contents e0) e0
                      else e0) <$> entries s1 !! y) as H2.
  { intros y. apply lookup_insert_step with dde1'; [done|]. by rewrite Hdm'. }
  apply wp_bind, wp_contents_of_ex.
  { eexists _, _. split; [apply lookup_insert_eq | done]. }
  intros dde2 dm2 Hdde2 Hdm2.
  assert (dm2 !! dn = Some n) as ->.
  { simpl in Hdde2. rewrite lookup_insert_eq in Hdde2. injection Hdde2 as <-.
    simpl in Hdm2. injection Hdm2 as <-. apply lookup_insert_eq. }
  apply wp_bind, wp_update_ex.
  { rewrite H2, He1. eauto. }
  intros me Hme. set (s3 := set_entries _ s2).
  assert (∀ y, entries s3 !! y =
               (λ e0, if decide (y = n) then set_name dn e0 else e0)
                 <$> entries s2 !! y) as H3.
  { intros y. by apply lookup_insert_step with me. }
  apply wp_bind, wp_update_ex.
  { rewrite H3, H2, Hdde1. eauto. }
  intros dde3 Hdde3. set (s4 := set_entries _ s3).
  assert (∀ y, entries s4 !! y =
               (λ e0, if decide (y = dd)
                      then set_xattrs (xattrs sde1 ∪ xattrs e0) e0 else e0)
                 <$> entries s3 !! y) as H4.
  { intros y. by apply lookup_insert_step with dde3. }
  apply wp_contents_del_ex; [|done].
  rewrite H4, H3, H2, Hsde1. simpl.
  assert (<[dn := n]> sm !! sn = Some n) as Hins.
  { destruct (decide (dn = sn)) as [Heq|Hdn].
    - rewrite Heq. apply lookup_insert_eq.
    - by rewrite lookup_insert_ne. }
  repeat case_decide;
    (eexists _, _, n; split; [done|]; simpl; rewrite ?Hcs; simpl;
     split; [done|]; done).
Qed.

(** X27: the handles of a file keep working across a [rename] of the file.
    When the handles open on the source are in order, the destination does
    not resolve, its parent is a directory, and the path to it does not go
    through the source, [rename] returns and tells every handle of the
    source its new path; writing then to such a handle, when its buffer
    can be written (as it can for a handle made in a mode with [w], [a] or
    [+], and cannot for one made in read mode), and closing it return, and
    commit its buffer to the entry that now is at the destination, which
    gets one lock back. *)
Theorem rename_keeps_handles s src dst n e dm h f b :
  src ≠ [] → get_dir_entry s src = Some n → entries s !! n = Some e →
  NoDup (open_files e) → (∀ h', h' ∈ open_files e → registered s n h') →
  get_dir_entry s dst = None → directory_at s (pathsplit dst).1 dm →
  (∀ q, q `prefix_of` dst → get_dir_entry s q ≠ Some n) →
  h ∈ open_files e → files s !! h = Some f → closed f = false →
  writable (mem_file f) = true →
  (1 ≤ locks e)%Z →
  ∃ s1 s2 s3 l',
    rename src dst s = (Ok tt, s1) ∧
    files s1 !! h = Some (set_path dst f) ∧
    MemoryFile_write h b s1 = (Ok tt, s2) ∧
    MemoryFile_close h s2 = (Ok tt, s3) ∧
    file_state s3 dst n (Some (buf (StringIO.write (mem_file f) b)))
      (locks e - 1) l'.
Proof.
  intros Hsrc Hn He Hnd Hreg Hdst (dd0 & dde0 & Hdd0 & Hdde0 & Hty0 & Hdm0)
    Hout Hin Hf Hcl Hwr Hk.
  destruct (rename_returns s src dst n e Hsrc Hn He Hnd Hreg Hdst
              ltac:(by exists dd0, dde0, dm)) as (s1 & Hrun).
  destruct (wp_returned _ _ _ _ _ (wp_rename s src dst) Hrun)
    as (n0 & e0 & sf & sd & dd & sde & moved & Hn0 & He0 & Hflush & Hsame & _
        & Hdst1 & Hsd & Hdd & Hsde & (sm & Hsm & Hmoved) & Hdde & Hmv & Hroot
        & Hfiles & Hfinal).
  assert (n0 = n) as -> by congruence. assert (e0 = e) as -> by congruence.
  destruct (proj1 (wp_returns _ _ _)
              (rename_flush_spec n dst (open_files e) s e Hnd He Hreg))
    as ([] & sf' & Hflush' & _ & _ & (e' & Hesf & He' & _ & _) & Hrepath & _).
  assert (sf' = sf) as -> by congruence.
  assert (∀ p, get_dir_entry sf p = get_dir_entry s p) as Hgde.
  { intros p. by apply same_but_data_get_dir_entry. }
  assert (dst ≠ []) as Hdne.
  { intros ->. unfold pathsplit in Hdd. simpl in Hdd. congruence. }
  destruct (exists_last Hsrc) as (sq & sn & ->).
  destruct (exists_last Hdne) as (dq & dn & ->).
  rewrite !pathsplit_snoc in *. cbn [fst snd] in *.
  assert (dd0 = dd) as -> by (rewrite Hgde in Hdd; congruence).
  assert (edge (entries sf) sd sn = Some n) as Hsrc_edge.
  { specialize (Hgde (sq ++ [sn])). rewrite Hn in Hgde.
    unfold get_dir_entry, iteratepath, normpath in Hgde, Hsd.
    rewrite walk_snoc, Hsd in Hgde. done. }
  assert (moved = n) as ->.
  { apply edge_Some in Hsrc_edge as (? & ? & ? & ? & ? & _). congruence. }
  assert (edge (entries sf) dd dn = None) as Hdst_edge.
  { unfold get_dir_entry, iteratepath, normpath in Hdst1, Hdd.
    rewrite walk_snoc, Hdd in Hdst1. done. }
  destruct Hdde as (dde & dmf & Hddef & Hdmf).
  assert (type dde = dir) as Htdde.
  { destruct (same_but_data_lookup _ _ _ _ Hsame Hddef) as (x & Hx & ->).
    assert (x = dde0) as -> by congruence. done. }
  assert (entries sf !! n = Some e') as Hnf.
  { rewrite Hesf. apply lookup_insert_eq. }
  (* the state of the file at its new path *)
  assert (file_state s1 (dq ++ [dn]) n (data e') (locks e) (open_files e))
    as Hfs1.
  { exists dd, (renamed_entry sd dd n sn dn (xattrs sde) dd dde),
      ((if decide (dd = sd) then delete sn else id) (<[dn := n]> dmf)),
      (renamed_entry sd dd n sn dn (xattrs sde) n e').
    rewrite pathsplit_snoc. cbn [fst snd]. split_and!.
    - unfold get_dir_entry, iteratepath, normpath in *. rewrite Hroot.
      apply (renamed_keeps_walk (entries sf) (entries s1) sd dd n sn dn
               (xattrs sde) (root sf) dq dd); try done; [by exists dde, dmf|].
      intros q' Hpre. specialize (Hgde q').
      unfold get_dir_entry, iteratepath, normpath in Hgde. rewrite Hgde.
      apply (Hout q'). by apply prefix_app_r.
    - by rewrite Hfinal, Hddef.
    - destruct (renamed_entry_rest sd dd n sn dn (xattrs sde) dd dde)
        as (-> & _). done.
    - rewrite renamed_entry_contents, Hdmf. rewrite (decide_True _ _ eq_refl).
      by case_decide.
    - case_decide as Hsame_dir; [|apply lookup_insert_eq].
      subst sd. rewrite lookup_delete_ne; [apply lookup_insert_eq|].
      intros ->. congruence.
    - by rewrite Hfinal, Hnf.
    - apply renamed_entry_rest.
    - destruct (renamed_entry_rest sd dd n sn dn (xattrs sde) n e')
        as (_ & _ & -> & _). by rewrite He'.
    - destruct (renamed_entry_rest sd dd n sn dn (xattrs sde) n e')
        as (_ & _ & _ & ->). by rewrite He'. }
  destruct (Hrepath h Hin) as (f0 & Hf0 & Hhf).
  assert (f0 = f) as -> by congruence.
  destruct (Hreg h Hin) as (f0 & Hf0' & Hc & _).
  assert (f0 = f) as -> by congruence.
  assert (files s1 !! h = Some (set_path (dq ++ [dn]) f)) as Hh1.
  { by rewrite Hfiles. }
  destruct (write_close s1 (dq ++ [dn]) n (data e') (locks e) (open_files e)
              h (set_path (dq ++ [dn]) f) b Hdne Hfs1 Hh1)
    as (s2 & s3 & l' & Hwrite & Hclose & Hfs3); try done.
  by exists s1, s2, s3, l'.
Qed.

Lemma rename_keeps_handles_witness :
  ∃ s1 s2 s3 l',
    rename ["a"] ["c"] fs_two_files = (Ok tt, s1) ∧
    files s1 !! 1%positive
      = Some (set_path ["c"]
                (mkMemoryFile false ["a"] "w" (mkStringIO [x68; x69] 2 false true))) ∧
    MemoryFile_write 1%positive [x21] s1 = (Ok tt, s2) ∧
    MemoryFile_close 1%positive s2 = (Ok tt, s3) ∧
    file_state s3 ["c"] 2%positive
      (Some (buf (StringIO.write (mkStringIO [x68; x69] 2 false true) [x21])))
      (1 - 1) l'.
Proof.
  apply (rename_keeps_handles fs_two_files ["a"] ["c"] 2%positive
           (mkDirEntry file "a" [1%positive] None None 1 1 3 2 ∅)
           {[ "a"%string := 2%positive; "b"%string := 3%positive ]}
           1%positive
           (mkMemoryFile false ["a"] "w" (mkStringIO [x68; x69] 2 false true))
           [x21]).
  - discriminate.
  - vm_compute. reflexivity.
  - vm_compute. reflexivity.
  - apply NoDup_singleton.
  - intros h' ->%list_elem_of_singleton.
    exists (mkMemoryFile false ["a"] "w" (mkStringIO [x68; x69] 2 false true)).
    vm_compute. split_and!; reflexivity.
  - vm_compute. reflexivity.
  - eexists 1%positive, _. vm_compute. split_and!; reflexivity.
  - intros q [->| ->]%prefix_of_singleton; vm_compute; discriminate.
  - apply list_elem_of_singleton. reflexivity.
  - vm_compute. reflexivity.
  - reflexivity.
  - reflexivity.
  - simpl. lia.
Defined.

(** ** Handles that cannot be written *)

(** The buffer that [MemoryFile.__init__] makes can be written in every
    mode with [+], [w] or [a], and cannot in read mode. *)
Lemma MemoryFile_init_writable p v md :
  char_in "+" md || char_in "w" md || char_in "a" md = true →
  writable (mem_file (MemoryFile_init p v md)) = true.
Proof.
  intros Hmd. unfold MemoryFile_init. simpl.
  destruct (char_in "+" md), (char_in "w" md), (char_in "a" md),
    (char_in "r" md); simpl in *; try done; by destruct (default [] v).
Qed.

Lemma MemoryFile_init_reader p v md :
  read_mode md = true → writable (mem_file (MemoryFile_init p v md)) = false.
Proof. intros Hmd. by rewrite MemoryFile_init_read. Qed.

(** X30: a handle made in read mode cannot be written.  On a file, [open]
    in read mode returns a handle, and [write] on it raises
    [AttributeError], the buffer, made from the bytes of the file, having
    no such method; the call-back of [write] has been run by then, so that
    the time of modification of the entry is the one of the call.  The
    data, the lock count and the open files of the entry are as [open] has
    left them, and so is the handle, which reads the bytes of the file. *)
Theorem write_to_reader s p n d k l md b :
  p ≠ [] → read_mode md = true → file_state s p n d k l →
  ∃ h s1 s2 s3 e,
    open p md s = (Ok (Some h), s1) ∧
    MemoryFile_write h b s1 = (Raise AttributeError, s2) ∧
    file_state s2 p n d (k + 1) (l ++ [h]) ∧
    files s2 = files s1 ∧
    entries s2 !! n = Some e ∧ modified_time e = clock s1 ∧
    MemoryFile_read h None s2 = (Ok (default [] d), s3).
Proof.
  intros Hp Hmd Hfs.
  pose proof Hmd as (Hr & Hw & Ha & Hplus)%read_mode_chars.
  destruct (proj1 (wp_returns _ _ _)
              (wp_open_existing s p md n d k l Hp Hfs
                 ltac:(by rewrite Hr) ltac:(by rewrite Ha)))
    as (oh & s1 & Hopen & h & -> & Hfs1 & Hh).
  rewrite MemoryFile_init_read in Hh by done.
  destruct (file_state_entry _ _ _ _ _ _ Hfs1) as (e1 & He1 & Hd1 & Hk1 & Hl1).
  pose proof (file_state_resolves _ _ _ _ _ _ Hp Hfs1) as Hn1.
  set (s2 := mkMemoryFS (root s1)
               (<[n := set_modified_time (clock s1) e1]> (entries s1))
               (files s1) (S (clock s1))).
  assert (MemoryFile_write h b s1 = (Raise AttributeError, s2)) as Hwrite.
  { apply wp_raises_eq. unfold MemoryFile_write.
    apply wp_bind. eapply wp_load_file; [exact Hh|].
    apply wp_bind. unfold _on_modify_memory_file.
    apply wp_bind, wp_get_dir_entry. cbn [path]. rewrite Hn1.
    apply wp_bind, wp_ret.
    apply wp_bind, wp_now. eapply wp_update; [exact He1|].
    apply wp_bind. eapply wp_load_file; [exact Hh|].
    cbn [mem_file writable]. by apply wp_raise. }
  assert (file_state s2 p n d (k + 1) (l ++ [h])) as Hfs2.
  { rewrite <- Hd1, <- Hk1, <- Hl1.
    by eapply (file_state_update s1 s2 p n _ _ _ e1
                 (set_modified_time (clock s1) e1)). }
  destruct (proj1 (wp_returns _ _ _)
              (wp_read_all s2 h _ Hh eq_refl)) as (r & s3 & Hread & ->).
  exists h, s1, s2, s3, (set_modified_time (clock s1) e1).
  split_and!; try done.
  apply lookup_insert_eq.
Qed.

Lemma write_to_reader_witness :
  ∃ h s1 s2 s3 e,
    open ["f"] "r" fs_written = (Ok (Some h), s1) ∧
    MemoryFile_write h [x21] s1 = (Raise AttributeError, s2) ∧
    file_state s2 ["f"] 2%positive (Some [x68; x69]) (0 + 1) ([] ++ [h]) ∧
    files s2 = files s1 ∧
    entries s2 !! 2%positive = Some e ∧ modified_time e = clock s1 ∧
    MemoryFile_read h None s2 = (Ok [x68; x69], s3).
Proof.
  apply (write_to_reader fs_written ["f"] 2%positive (Some [x68; x69]) 0 []
           "r" [x21]).
  - discriminate.
  - reflexivity.
  - eexists 1%positive, _, {[ "f"%string := 2%positive ]}, _.
    vm_compute. split_and!; reflexivity.
Defined.
